(** * Cross-currency routing backend: a shallow embedding

    The development follows the TypeScript services of the routing backend:

    - [OtcRoutingService]      (edge cache writes, 1/2/3-hop route search),
    - [SettlementScoringService] (settlement-risk discount of a route),
    - [QuoteLifecycleService]  (provisional and reserved quotes),
    - [DepositService]         (deposit instructions and confirmation),
    - [ExecutionService]       (execution records and their status),
    - [RoutingController]      (deposit webhook, execution driver, scoring
                                lookup).

    Modelling conventions.

    - A JavaScript [number] holding an amount, a rate or a fee is an exact
      rational ([Q]); a timestamp in epoch milliseconds is an integer ([Z]).
      Rounding of IEEE doubles is not modelled.
    - An optional field ([x?: T]) is an [option]; JavaScript truthiness of a
      number ([x ? a : b], [x || d], [x && c]) is [truthy x], false for an
      absent field and for zero.
    - A number that can be [NaN] is a [Js.num].  The tables of the services
      are object literals indexed with a string of the caller: such a lookup
      also finds the members that every object inherits from
      [Object.prototype] ([Js.lookup]), and the arithmetic done with such a
      member gives [NaN].
    - Redis is a finite map from key strings to entries; an entry carries the
      stored value and the instant at which its TTL runs out.  A stored JSON
      document is represented by the value it parses to, with [NaN] standing
      for the [null] that JSON writes for it.  The pattern of a scan is a
      glob ([Glob.matches]).
    - [Date.now()] and [uuidv4()] are explicit arguments, and a call is taken
      to run within one instant.
    - The best route so far is a field of the routing service, shared by all
      calls: a call is a list of stretches between its [await]s
      ([OtcRoutingService.actions]), run alone ([OtcRoutingService.alone]) or
      interleaved with another call ([OtcRoutingService.overlap]). *)

From Stdlib Require Import ZArith QArith Qminmax Qabs Lqa Lia Bool List.
From Stdlib Require Import Ascii String DecimalString.
From stdpp Require Import gmap strings list fin_maps.

Import ListNotations.
Local Open Scope string_scope.
Local Open Scope Z_scope.

(** ** JavaScript numbers *)

Module Js.

(** [x] used as a condition: zero is falsy. *)
Definition truthy (x : Q) : bool := negb (Qeq_bool x 0).

(** [x || d] on numbers. *)
Definition or_else (x : option Q) (d : Q) : Q :=
  match x with
  | Some v => if truthy v then v else d
  | None => d
  end.

(** [x ?? d]. *)
Definition nullish (x : option Q) (d : Q) : Q :=
  match x with
  | Some v => v
  | None => d
  end.

(** [a > b], [a <= b] on numbers. *)
Definition gt (a b : Q) : bool := negb (Qle_bool a b).
Definition le (a b : Q) : bool := Qle_bool a b.

(** [Math.max(a, b)], [Math.min(a, b)], [Math.abs(a)]. *)
Definition max (a b : Q) : Q := if Qle_bool a b then b else a.
Definition min (a b : Q) : Q := if Qle_bool a b then a else b.
Definition abs (a : Q) : Q := if Qle_bool 0 a then a else (- a)%Q.

(** A number that may be [NaN].  Arithmetic on [NaN] gives [NaN], and every
    comparison with [NaN] is false. *)
Inductive num := Num (q : Q) | NaN.


Definition arith (f : Q -> Q -> Q) (a b : num) : num :=
  match a, b with
  | Num x, Num y => Num (f x y)
  | _, _ => NaN
  end.

(** [a + b], [a - b], [a * b], [a / b] with a non-zero number [b],
    [Math.max(a, b)], [Math.min(a, b)] and [a > b]. *)
Definition add : num -> num -> num := arith Qplus.
Definition sub : num -> num -> num := arith Qminus.
Definition mul : num -> num -> num := arith Qmult.
Definition div : num -> num -> num := arith Qdiv.
Definition maxN : num -> num -> num := arith max.
Definition minN : num -> num -> num := arith min.
Definition gtN (a b : num) : bool :=
  match a, b with
  | Num x, Num y => gt x y
  | _, _ => false
  end.

(** The properties that an object literal inherits from [Object.prototype]. *)
Definition prototypeMembers : list string :=
  [ "constructor"; "__defineGetter__"; "__defineSetter__"; "hasOwnProperty";
    "__lookupGetter__"; "__lookupSetter__"; "isPrototypeOf";
    "propertyIsEnumerable"; "toString"; "valueOf"; "__proto__";
    "toLocaleString" ].

Definition inherited (key : string) : bool :=
  existsb (String.eqb key) prototypeMembers.

(** [table[key]] on an object literal: the own property of that name, else
    the member of [Object.prototype] of that name (a function, or the
    prototype object for [__proto__]), else [undefined]. *)
Inductive property (A : Type) :=
| Own (v : A)
| Inherited
| Absent.
Arguments Own {A} v.
Arguments Inherited {A}.
Arguments Absent {A}.

Definition lookup {A : Type} (table : list (string * A)) (key : string)
  : property A :=
  match List.find (fun kv => String.eqb kv.1 key) table with
  | Some kv => Own kv.2
  | None => if inherited key then Inherited else Absent
  end.

(** [table[key] || d] on a table of numbers.  An inherited member is truthy
    and is what the expression gives; it is no number, and the sums and
    products that it enters afterwards are [NaN]. *)
Definition lookup_or (table : list (string * Q)) (key : string) (d : Q) : num :=
  match lookup table key with
  | Own v => Num (if truthy v then v else d)
  | Inherited => NaN
  | Absent => Num d
  end.

(** [s.startsWith(p)]. *)
Definition startsWith (s p : string) : bool := String.prefix p s.

(** [s.includes(p)]. *)
Fixpoint includes (s p : string) : bool :=
  String.prefix p s
  || match s with
     | EmptyString => false
     | String _ s' => includes s' p
     end.

(** [s.substring(0, n)]. *)
Definition substring0 (n : nat) (s : string) : string := String.substring 0 n s.

End Js.

Coercion Js.Num : Q >-> Js.num.
Bind Scope Q_scope with Js.num.

(** ** Data model *)

Module SettlementMeta.
Record t := mk {
  settlementDays : Q;
  counterpartyRisk : Q;
  supportsReservation : bool;
  paymentMethods : option (list string)
}.
End SettlementMeta.

Module OTCQuote.
Record t := mk {
  venueId : string;
  fromToken : string;
  toToken : string;
  amountIn : Q;
  amountOut : Q;
  maxAmountIn : option Q;
  feeBps : option Q;
  expiry : Z;
  depositAddress : option string;
  lastUpdated : Z;
  settlementMeta : option SettlementMeta.t
}.
End OTCQuote.

Module RouteStep.
Record t := mk {
  fromToken : string;
  toToken : string;
  venueId : string;
  chainId : Z;
  amountIn : Q;
  amountOut : Q;
  feeBps : Q;
  estimatedDurationMs : Z
}.
End RouteStep.

Module RouteResult.
Record t := mk {
  steps : list RouteStep.t;
  totalIn : Q;
  totalOut : Q;
  effectiveRate : Q;
  totalFeesBps : Q;
  confidence : Q;
  timestamp : Z
}.
End RouteResult.

Module ScoringMeta.
Record t := mk {
  settlementDays : Q;
  counterpartyRisk : Js.num;
  timePenalty : Js.num;
  confidence : Js.num
}.
End ScoringMeta.

Inductive QuoteType := OTC | DEX | OTC_DEX.

Module ProvisionalQuote.
Record t := mk {
  quoteId : string;
  route : option RouteResult.t;
  amountIn : Q;
  amountOut : Q;
  netAmountOut : Js.num;
  feeBps : Q;
  expiryTs : Z;
  createdTs : Z;
  scoringMeta : ScoringMeta.t;
  type : QuoteType
}.
End ProvisionalQuote.

Module OtcReservationMeta.
Record t := mk {
  otcReservationId : option string;
  depositAddress : option string
}.
End OtcReservationMeta.

(** [ReservedQuote extends ProvisionalQuote]: the spread [...provisional]
    copies every provisional field. *)
Module ReservedQuote.
Record t := mk {
  provisional : ProvisionalQuote.t;
  reservationId : string;
  reservedByClient : string;
  reservedUntilTs : Z;
  otcReservationMeta : option OtcReservationMeta.t
}.
Definition route (r : t) := ProvisionalQuote.route (provisional r).
Definition amountIn (r : t) := ProvisionalQuote.amountIn (provisional r).
End ReservedQuote.

Inductive AccountDetails :=
| PixAccount (pixKey : string)
| SpeiAccount (bankName accountNumber routingNumber : string)
| IbanAccount (bankName accountNumber iban : string).

(** What [DepositInstructions.method] holds at run time: the name of a
    payment method, or the member of [Object.prototype] that the method table
    gave for a source token of that name (a function or an object, which
    JSON does not write as a string). *)
Inductive PaymentMethod :=
| Method (name : string)
| PrototypeMember (name : string).
Coercion Method : string >-> PaymentMethod.

Module DepositInstructions.
Record t := mk {
  method : PaymentMethod;
  accountDetails : AccountDetails;
  amount : Q;
  paymentReference : string;
  qrCodeData : option string;
  depositExpiryTs : Z
}.
End DepositInstructions.

Inductive DepositStatus := PENDING | CONFIRMED | DEPOSIT_FAILED | DEPOSIT_EXPIRED.

Module DepositRecord.
Record t := mk {
  depositId : string;
  quoteId : string;
  clientId : string;
  amountExpected : Q;
  amountReceived : option Q;
  depositInstructions : DepositInstructions.t;
  status : DepositStatus;
  receivedAt : option Z;
  bankTxId : option string;
  paymentReference : string
}.
End DepositRecord.

Inductive ExecutionStatus := PENDING_APPROVAL | EXECUTING | COMPLETED | FAILED | EXPIRED.

Module ExecutionRecord.
Record t := mk {
  executionId : string;
  quoteId : string;
  route : RouteResult.t;
  status : ExecutionStatus;
  approvalToken : option string;
  transactionHashes : option (list string);
  currentStep : option nat;
  createdAt : Z;
  completedAt : option Z;
  error : option string;
  fallbackRoute : option RouteResult.t
}.
End ExecutionRecord.

(** ** The key-value store *)

(** What a stored string parses to.  Every key family of the backend holds
    one kind of document; [VString] is a plain string value (the
    [deposit:ref:*] and [execution:quote:*] indices). *)
Inductive value :=
| VQuote (q : OTCQuote.t)
| VProvisional (p : ProvisionalQuote.t)
| VReserved (r : ReservedQuote.t)
| VDeposit (d : DepositRecord.t)
| VExecution (e : ExecutionRecord.t)
| VString (s : string).

Record entry := mkEntry { ent_value : value; ent_expires : Z }.

Abbreviation store := (gmap string entry).

Module RedisKey.
Definition otcQuote (from to venue : string) : string :=
  "otc:quotes:" ++ from ++ ":" ++ to ++ ":" ++ venue.
Definition provisionalQuote (id : string) : string := "quote:prov:" ++ id.
Definition reservedQuote (id : string) : string := "quote:reserved:" ++ id.
Definition deposit (id : string) : string := "deposit:" ++ id.
Definition routingEdge (chain from to venue : string) : string :=
  "routing:edge:" ++ chain ++ ":" ++ from ++ ":" ++ to ++ ":" ++ venue.
End RedisKey.

(** ** Glob patterns *)

Module Glob.

(** The characters that a [MATCH] pattern does not take literally. *)
Definition meta (c : ascii) : bool :=
  Ascii.eqb c "*" || Ascii.eqb c "?" || Ascii.eqb c "[" || Ascii.eqb c "\".

(** [lo <= c <= hi] on character codes, the bounds taken in either order. *)
Definition inRange (a b c : ascii) : bool :=
  let x := nat_of_ascii a in
  let y := nat_of_ascii b in
  let z := nat_of_ascii c in
  ((Nat.min x y <=? z) && (z <=? Nat.max x y))%nat.

Definition isEmpty (s : string) : bool :=
  match s with EmptyString => true | _ => false end.

(** Glob-style matching as Redis applies it to the keys of [SCAN ... MATCH]
    and [KEYS]: [*] stands for any run of characters, [?] for one character,
    [[...]] for one character of a class (with ranges [a-z], negation by a
    leading [^], and [\] to quote a character), and [\] quotes the next
    character.  [inClass] reads the class that follows a [[] for the
    character [c] and goes on with the rest of the key. *)
Fixpoint matches (pattern key : string) {struct pattern} : bool :=
  match pattern with
  | EmptyString => isEmpty key
  | String a rest =>
      if Ascii.eqb a "*" then
        (fix star (k : string) : bool :=
           matches rest k
           || match k with
              | EmptyString => false
              | String _ k' => star k'
              end) key
      else
        match key with
        | EmptyString => false
        | String c key' =>
            if Ascii.eqb a "?" then matches rest key'
            else if Ascii.eqb a "[" then
              match rest with
              | String b rest' =>
                  if Ascii.eqb b "^" then inClass rest' true false c key'
                  else inClass rest false false c key'
              | EmptyString => inClass rest false false c key'
              end
            else if Ascii.eqb a "\" then
              match rest with
              | String b rest' => Ascii.eqb b c && matches rest' key'
              | EmptyString => Ascii.eqb a c && isEmpty key'
              end
            else Ascii.eqb a c && matches rest key'
        end
  end
with inClass (pattern : string) (negated found : bool) (c : ascii) (key' : string)
    {struct pattern} : bool :=
  match pattern with
  | EmptyString => xorb negated found && isEmpty key'
  | String a rest =>
      if Ascii.eqb a "]" then xorb negated found && matches rest key'
      else
        match rest with
        | String b rest' =>
            if Ascii.eqb a "\" then
              inClass rest' negated (found || Ascii.eqb b c) c key'
            else if Ascii.eqb b "-" then
              match rest' with
              | String d rest'' =>
                  inClass rest'' negated (found || inRange a d c) c key'
              | EmptyString => inClass rest negated (found || Ascii.eqb a c) c key'
              end
            else inClass rest negated (found || Ascii.eqb a c) c key'
        | EmptyString => inClass rest negated (found || Ascii.eqb a c) c key'
        end
  end.

End Glob.

Module Redis.

(** [GET key] at instant [now]: an entry whose TTL has run out is gone. *)
Definition get (st : store) (now : Z) (key : string) : option value :=
  match st !! key with
  | Some e => if now <? ent_expires e then Some (ent_value e) else None
  | None => None
  end.

(** [SET key value PX ttlMs]. *)
Definition set_px (st : store) (now : Z) (key : string) (v : value) (ttlMs : Z) : store :=
  <[key := mkEntry v (now + ttlMs)]> st.

(** [SET key value EX ttlSec]. *)
Definition set_ex (st : store) (now : Z) (key : string) (v : value) (ttlSec : Z) : store :=
  set_px st now key v (ttlSec * 1000).

(** [DEL key]. *)
Definition del (st : store) (key : string) : store := delete key st.

(** [SCAN ... MATCH pattern] run to completion (and [KEYS pattern], the
    fallback of [scanKeys]): the live keys that the glob [pattern] matches. *)
Definition scan (st : store) (now : Z) (pattern : string) : list string :=
  omap (fun kv : string * entry =>
          if Glob.matches pattern kv.1 && (now <? ent_expires kv.2)
          then Some kv.1 else None)
       (map_to_list st).

(** [MGET keys]. *)
Definition mget (st : store) (now : Z) (keys : list string) : list (option value) :=
  List.map (get st now) keys.

End Redis.

(** ** OtcRoutingService: edge cache and route search *)

Module OtcRoutingService.

Definition MIN_TTL_MS : Z := 1000.

(** The key chosen by [cacheQuote] and [cacheQuotes]: DEX quotes are stored
    as routing edges, every other quote under the OTC pattern. *)
Definition quoteKey (quote : OTCQuote.t) : string :=
  if Js.startsWith (OTCQuote.venueId quote) "dex:"
  then RedisKey.routingEdge "solana" (OTCQuote.fromToken quote)
         (OTCQuote.toToken quote) (OTCQuote.venueId quote)
  else RedisKey.otcQuote (OTCQuote.fromToken quote) (OTCQuote.toToken quote)
         (OTCQuote.venueId quote).

Definition cacheQuote (st : store) (now : Z) (quote : OTCQuote.t) : store :=
  let ttlMs := Z.max MIN_TTL_MS (OTCQuote.expiry quote - now) in
  Redis.set_px st now (quoteKey quote) (VQuote quote) ttlMs.

(** The pipelined batch: the writes are applied in order. *)
Definition cacheQuotes (st : store) (now : Z) (quotes : list OTCQuote.t) : store :=
  fold_left (fun acc quote => cacheQuote acc now quote) quotes st.

(** The two patterns that [loadQuotes] scans for a pair; the token symbols
    go into them as they are. *)
Definition otcPattern (fromToken toToken : string) : string :=
  RedisKey.otcQuote fromToken toToken "*".

Definition dexPattern (fromToken toToken : string) : string :=
  "routing:edge:solana:" ++ fromToken ++ ":" ++ toToken ++ ":dex:*".

Definition parseQuote (raw : option value) : option OTCQuote.t :=
  match raw with
  | Some (VQuote q) => Some q
  | _ => None
  end.

Definition loadQuotes (st : store) (now : Z) (fromToken toToken : string)
  : list OTCQuote.t :=
  let otcKeys := Redis.scan st now (otcPattern fromToken toToken) in
  let dexKeys := Redis.scan st now (dexPattern fromToken toToken) in
  let allKeys := (otcKeys ++ dexKeys)%list in
  omap parseQuote (Redis.mget st now allKeys).

Definition computeOutput (amountIn : Q) (quote : OTCQuote.t) : Q :=
  if negb (Js.truthy (OTCQuote.amountIn quote)) || Js.le (OTCQuote.amountIn quote) 0
  then 0%Q
  else
    let rate := (OTCQuote.amountOut quote / OTCQuote.amountIn quote)%Q in
    let gross := (amountIn * rate)%Q in
    match OTCQuote.feeBps quote with
    | Some f => if Js.truthy f then (gross - (gross * f) / 10000)%Q else gross
    | None => gross
    end.

Definition isDex (venueId : string) : bool := Js.startsWith venueId "dex:".

Definition toRouteStep (quote : OTCQuote.t) (amountIn amountOut : Q) : RouteStep.t :=
  {| RouteStep.fromToken := OTCQuote.fromToken quote;
     RouteStep.toToken := OTCQuote.toToken quote;
     RouteStep.venueId := OTCQuote.venueId quote;
     RouteStep.chainId := if isDex (OTCQuote.venueId quote) then 101 else 0;
     RouteStep.amountIn := amountIn;
     RouteStep.amountOut := amountOut;
     RouteStep.feeBps := Js.nullish (OTCQuote.feeBps quote) 0;
     RouteStep.estimatedDurationMs :=
       if isDex (OTCQuote.venueId quote) then 30000 else 0 |}.

Definition updateBest (bestRoute : option RouteResult.t) (candidate : RouteResult.t)
  : option RouteResult.t :=
  match bestRoute with
  | None => Some candidate
  | Some best =>
      if Js.gt (RouteResult.totalOut candidate) (RouteResult.totalOut best)
      then Some candidate
      else Some best
  end.

(** The three guards that open every loop body:
    [if (q.expiry <= expiryGuard) continue;]
    [if (q.maxAmountIn && x > q.maxAmountIn) continue;]
    and, once the output is computed, [if (out <= 0) continue;]. *)
Definition expired (expiryGuard : Z) (q : OTCQuote.t) : bool :=
  OTCQuote.expiry q <=? expiryGuard.

Definition tooLarge (x : Q) (q : OTCQuote.t) : bool :=
  match OTCQuote.maxAmountIn q with
  | Some m => Js.truthy m && Js.gt x m
  | None => false
  end.

Definition fee (q : OTCQuote.t) : Q := Js.nullish (OTCQuote.feeBps q) 0.

Definition mkRoute (steps : list RouteStep.t) (amountIn finalOut feesBps : Q) (now : Z)
  : RouteResult.t :=
  {| RouteResult.steps := steps;
     RouteResult.totalIn := amountIn;
     RouteResult.totalOut := finalOut;
     RouteResult.effectiveRate := (finalOut / amountIn)%Q;
     RouteResult.totalFeesBps := feesBps;
     RouteResult.confidence := 1%Q;
     RouteResult.timestamp := now |}.

(** The routes built by the 1-hop [forEach]. *)
Definition oneHopRoutes (now expiryGuard : Z) (amountIn : Q) (quotes : list OTCQuote.t)
  : list RouteResult.t :=
  flat_map (fun quote =>
    if expired expiryGuard quote then [] else
    if tooLarge amountIn quote then [] else
    let out := computeOutput amountIn quote in
    if Js.le out 0 then [] else
    [mkRoute [toRouteStep quote amountIn out] amountIn out (fee quote) now])
  quotes.

(** The routes built by the two nested loops over [leg1] and [leg2]. *)
Definition twoHopRoutes (now expiryGuard : Z) (amountIn : Q)
    (leg1 leg2 : list OTCQuote.t) : list RouteResult.t :=
  flat_map (fun q1 =>
    if expired expiryGuard q1 then [] else
    if tooLarge amountIn q1 then [] else
    let midOut := computeOutput amountIn q1 in
    if Js.le midOut 0 then [] else
    flat_map (fun q2 =>
      if expired expiryGuard q2 then [] else
      if tooLarge midOut q2 then [] else
      let finalOut := computeOutput midOut q2 in
      if Js.le finalOut 0 then [] else
      [mkRoute [toRouteStep q1 amountIn midOut; toRouteStep q2 midOut finalOut]
         amountIn finalOut (fee q1 + fee q2)%Q now])
    leg2)
  leg1.

(** The routes built by the three nested loops over [leg1], [leg2], [leg3]. *)
Definition threeHopRoutes (now expiryGuard : Z) (amountIn : Q)
    (leg1 leg2 leg3 : list OTCQuote.t) : list RouteResult.t :=
  flat_map (fun q1 =>
    if expired expiryGuard q1 then [] else
    if tooLarge amountIn q1 then [] else
    let mid1Out := computeOutput amountIn q1 in
    if Js.le mid1Out 0 then [] else
    flat_map (fun q2 =>
      if expired expiryGuard q2 then [] else
      if tooLarge mid1Out q2 then [] else
      let mid2Out := computeOutput mid1Out q2 in
      if Js.le mid2Out 0 then [] else
      flat_map (fun q3 =>
        if expired expiryGuard q3 then [] else
        if tooLarge mid2Out q3 then [] else
        let finalOut := computeOutput mid2Out q3 in
        if Js.le finalOut 0 then [] else
        [mkRoute [toRouteStep q1 amountIn mid1Out;
                  toRouteStep q2 mid1Out mid2Out;
                  toRouteStep q3 mid2Out finalOut]
           amountIn finalOut (fee q1 + fee q2 + fee q3)%Q now])
      leg3)
    leg2)
  leg1.

Record BestRouteRequest := mkRequest {
  amountIn : Q;
  fromToken : string;
  toToken : string;
  intermediates : option (list string);
  minExpiryMs : option Z
}.

Record BestRouteResponse := mkResponse {
  route : option RouteResult.t;
  consideredQuotes : nat
}.

(** [intermediates.length > 0 ? intermediates : ["USDC", "USDT", "EURC"]]
    after the default [intermediates = []]. *)
Definition commonIntermediaries (req : BestRouteRequest) : list string :=
  match intermediates req with
  | Some (m :: ms) => m :: ms
  | _ => ["USDC"; "USDT"; "EURC"]
  end.

Definition expiryGuardOf (now : Z) (req : BestRouteRequest) : Z :=
  now + match minExpiryMs req with Some m => m | None => 0 end.

Definition isEndpoint (req : BestRouteRequest) (mid : string) : bool :=
  String.eqb mid (fromToken req) || String.eqb mid (toToken req).

(** The legs loaded for the 2-hop search, one pair per intermediary that is
    neither endpoint. *)
Definition twoHopResults (st : store) (now : Z) (req : BestRouteRequest)
  : list (list OTCQuote.t * list OTCQuote.t) :=
  List.map (fun mid => (loadQuotes st now (fromToken req) mid,
                        loadQuotes st now mid (toToken req)))
    (List.filter (fun mid => negb (isEndpoint req mid)) (commonIntermediaries req)).

(** The legs loaded for the 3-hop search: ordered pairs of distinct
    intermediaries among the first two. *)
Definition threeHopResults (st : store) (now : Z) (req : BestRouteRequest)
  : list (list OTCQuote.t * list OTCQuote.t * list OTCQuote.t) :=
  let limitedIntermediaries := firstn 2 (commonIntermediaries req) in
  flat_map (fun mid1 =>
    if isEndpoint req mid1 then [] else
    flat_map (fun mid2 =>
      if isEndpoint req mid2 || String.eqb mid2 mid1 then [] else
      [(loadQuotes st now (fromToken req) mid1,
        loadQuotes st now mid1 mid2,
        loadQuotes st now mid2 (toToken req))])
    limitedIntermediaries)
  limitedIntermediaries.

(** Every route handed to [updateBest], in the order of the calls: the
    2-hop routes, then the 3-hop routes, then the 1-hop routes. *)
Definition candidates (st : store) (now : Z) (req : BestRouteRequest)
  : list RouteResult.t :=
  let guard := expiryGuardOf now req in
  (flat_map (fun legs : list OTCQuote.t * list OTCQuote.t =>
               twoHopRoutes now guard (amountIn req) legs.1 legs.2)
     (twoHopResults st now req)
   ++ flat_map (fun legs : list OTCQuote.t * list OTCQuote.t * list OTCQuote.t =>
                  threeHopRoutes now guard (amountIn req) legs.1.1 legs.1.2 legs.2)
        (threeHopResults st now req)
   ++ oneHopRoutes now guard (amountIn req)
        (loadQuotes st now (fromToken req) (toToken req)))%list.

Definition consideredCount (st : store) (now : Z) (req : BestRouteRequest) : nat :=
  (length (loadQuotes st now (fromToken req) (toToken req))
   + list_sum (List.map (fun legs : list OTCQuote.t * list OTCQuote.t =>
                           length legs.1 + length legs.2)
                 (twoHopResults st now req))
   + list_sum (List.map (fun legs : list OTCQuote.t * list OTCQuote.t * list OTCQuote.t =>
                           length legs.1.1 + length legs.1.2 + length legs.2)
                 (threeHopResults st now req)))%nat.

(** *** The field [bestRoute]

    [bestRoute] is a field of the service object, which all calls share.  A
    call sets it to [null] before its first [await], hands its candidates to
    [updateBest] in stretches that run between two [await]s, and returns what
    the field holds at the end of its last stretch.  Another call can run a
    stretch of its own at every [await]. *)

(** [appendLast chunks tail]: [tail] is added to the last chunk. *)
Fixpoint appendLast (chunks : list (list RouteResult.t)) (tail : list RouteResult.t)
  : list (list RouteResult.t) :=
  match chunks with
  | [] => [tail]
  | [chunk] => [(chunk ++ tail)%list]
  | chunk :: rest => chunk :: appendLast rest tail
  end.

(** The candidates of a call, stretch by stretch: the 2-hop routes are
    compared after [await Promise.all(twoHopPromises)]; each pair of
    intermediaries of the 3-hop search is compared after the [await] that
    loads its legs; the 1-hop routes follow the last of these without a
    further [await]. *)
Definition stretches (st : store) (now : Z) (req : BestRouteRequest)
  : list (list RouteResult.t) :=
  let guard := expiryGuardOf now req in
  appendLast
    (flat_map (fun legs : list OTCQuote.t * list OTCQuote.t =>
                 twoHopRoutes now guard (amountIn req) legs.1 legs.2)
       (twoHopResults st now req)
     :: List.map (fun legs : list OTCQuote.t * list OTCQuote.t * list OTCQuote.t =>
                    threeHopRoutes now guard (amountIn req) legs.1.1 legs.1.2 legs.2)
          (threeHopResults st now req))
    (oneHopRoutes now guard (amountIn req)
       (loadQuotes st now (fromToken req) (toToken req))).

(** What a call does to the field in one stretch. *)
Inductive action :=
| Clear
| Compare (routes : list RouteResult.t).

Definition act (a : action) (bestRoute : option RouteResult.t) : option RouteResult.t :=
  match a with
  | Clear => None
  | Compare routes => fold_left updateBest routes bestRoute
  end.

Definition actions (st : store) (now : Z) (req : BestRouteRequest) : list action :=
  Clear :: List.map Compare (stretches st now req).

(** A call that runs all its stretches with no stretch of another call in
    between, from any content of the field: what it returns. *)
Definition alone (bestRoute : option RouteResult.t) (call : list action)
  : option RouteResult.t :=
  fold_left (fun field a => act a field) call bestRoute.

(** Two calls on the same service.  [schedule] tells, stretch by stretch,
    which call runs next ([true]: the first); when it is used up the first
    call runs to its end, then the second.  [r1] and [r2] are the contents of
    the field after the latest stretch of each call: at the end, what each
    call returns. *)
Fixpoint overlap (schedule : list bool) (first second : list action)
    (bestRoute r1 r2 : option RouteResult.t)
  : option RouteResult.t * option RouteResult.t :=
  match schedule with
  | [] =>
      let r1' := match first with [] => r1 | _ => alone bestRoute first end in
      let field := alone bestRoute first in
      let r2' := match second with [] => r2 | _ => alone field second end in
      (r1', r2')
  | true :: rest =>
      match first with
      | [] => overlap rest first second bestRoute r1 r2
      | a :: first' =>
          let field := act a bestRoute in
          overlap rest first' second field field r2
      end
  | false :: rest =>
      match second with
      | [] => overlap rest first second bestRoute r1 r2
      | a :: second' =>
          let field := act a bestRoute in
          overlap rest first second' field r1 field
      end
  end.

(** [getBestRoute] as a call that no other call overlaps. *)
Definition getBestRoute (st : store) (now : Z) (req : BestRouteRequest)
  : BestRouteResponse :=
  {| route := alone None (actions st now req);
     consideredQuotes := consideredCount st now req |}.

End OtcRoutingService.


(** ** SettlementScoringService *)

(** [Math.max(...xs)] of a spread list: [-Infinity] when the list is empty. *)
Inductive maxResult := NegInfinity | Finite (x : Q).

Module SettlementScoringService.

(** The two tables are object literals, indexed with a string of the
    caller. *)
Definition volatilityParams : list (string * Q) :=
  [ ("BRL/EUR", (5 # 1000)%Q);
    ("MXN/USD", (4 # 1000)%Q);
    ("NGN/EUR", (8 # 1000)%Q) ].

Definition counterpartyRisk : list (string * Q) :=
  [ ("otc:brl-eur:provider1", (1 # 1000)%Q);
    ("otc:mxn-usd:provider1", (1 # 1000)%Q);
    ("otc:ngn-eur:provider1", (2 # 1000)%Q);
    ("otc:stablecoin:provider1", (5 # 10000)%Q) ].

Definition Math_max (xs : list Q) : maxResult :=
  fold_left (fun acc x =>
               match acc with
               | NegInfinity => Finite x
               | Finite m => Finite (Js.max m x)
               end) xs NegInfinity.

(** [q.settlementMeta?.settlementDays || 0]. *)
Definition settlementDaysOf (q : OTCQuote.t) : Q :=
  Js.or_else (option_map SettlementMeta.settlementDays (OTCQuote.settlementMeta q)) 0.

(** [q.settlementMeta?.counterpartyRisk || this.counterpartyRisk[q.venueId] || 0.001]. *)
Definition riskOf (q : OTCQuote.t) : Js.num :=
  match OTCQuote.settlementMeta q with
  | Some meta =>
      if Js.truthy (SettlementMeta.counterpartyRisk meta)
      then Js.Num (SettlementMeta.counterpartyRisk meta)
      else Js.lookup_or counterpartyRisk (OTCQuote.venueId q) (1 # 1000)
  | None => Js.lookup_or counterpartyRisk (OTCQuote.venueId q) (1 # 1000)
  end.

(** [risks.reduce((a, b) => a + b, 0) / risks.length]; with an inherited
    member among the risks the sum is a string that is no numeral, and the
    quotient is [NaN]. *)
Definition getAverageCounterpartyRisk (quotes : list OTCQuote.t) : Js.num :=
  match quotes with
  | [] => Js.Num (1 # 1000)
  | _ =>
      let risks := List.map riskOf quotes in
      Js.div (fold_left Js.add risks (Js.Num 0))
        (Js.Num (inject_Z (Z.of_nat (length risks))))
  end.

Definition getVolatilityForRoute (route : RouteResult.t) : Js.num :=
  match RouteResult.steps route with
  | [] => Js.Num (5 # 1000)
  | first :: _ =>
      let final := List.last (RouteResult.steps route) first in
      let pair := RouteStep.fromToken first ++ "/" ++ RouteStep.toToken final in
      Js.lookup_or volatilityParams pair (5 # 1000)
  end.

Section WithSqrt.

(** [Math.sqrt] is kept abstract: the scorer is defined for any
    square-root function on the rationals. *)
Variable Math_sqrt : Q -> Q.

Definition calculateTimePenalty (quotedAmount : Q) (settlementDays : maxResult)
    (dailyVolatility : Js.num) : Js.num :=
  match settlementDays with
  | NegInfinity => Js.Num 0
  | Finite days =>
      if Js.le days 0 then Js.Num 0
      else
        let riskFactor := Js.Num 1 in
        Js.mul
          (Js.mul (Js.mul (Js.Num quotedAmount) dailyVolatility)
             (Js.Num (Math_sqrt days)))
          riskFactor
  end.

Definition calculateNetOutput (quotedOutput : Q) (route : RouteResult.t)
    (quotes : list OTCQuote.t) : Js.num :=
  let maxSettlementDays := Math_max (List.map settlementDaysOf quotes) in
  let avgCounterpartyRisk := getAverageCounterpartyRisk quotes in
  let volatility := getVolatilityForRoute route in
  let timePenalty := calculateTimePenalty quotedOutput maxSettlementDays volatility in
  let counterpartyDiscount := Js.mul (Js.Num quotedOutput) avgCounterpartyRisk in
  let netOutput :=
    Js.sub (Js.sub (Js.Num quotedOutput) timePenalty) counterpartyDiscount in
  Js.maxN (Js.Num 0) netOutput.

Definition getScoringMetadata (route : RouteResult.t) (quotes : list OTCQuote.t)
  : ScoringMeta.t :=
  let maxSettlementDays :=
    match Math_max (List.map settlementDaysOf quotes ++ [0%Q]) with
    | Finite d => d
    | NegInfinity => 0%Q
    end in
  let avgCounterpartyRisk := getAverageCounterpartyRisk quotes in
  let volatility := getVolatilityForRoute route in
  let timePenalty :=
    calculateTimePenalty (RouteResult.totalOut route) (Finite maxSettlementDays) volatility in
  let confidence :=
    Js.maxN (Js.Num 0)
      (Js.minN (Js.Num 1)
         (Js.sub (Js.Num (1 - maxSettlementDays * (1 # 10)))
            (Js.mul avgCounterpartyRisk (Js.Num 10)))) in
  {| ScoringMeta.settlementDays := maxSettlementDays;
     ScoringMeta.counterpartyRisk := avgCounterpartyRisk;
     ScoringMeta.timePenalty := timePenalty;
     ScoringMeta.confidence := Js.maxN (Js.Num (1 # 2)) confidence |}.

End WithSqrt.

End SettlementScoringService.

(** ** Exceptions *)

Inductive exn :=
| NotFoundException (message : string)
| BadRequestException (message : string)
| Error (message : string).

Inductive result (A : Type) :=
| Ok (a : A)
| Throw (e : exn).
Arguments Ok {A} a.
Arguments Throw {A} e.

Definition exn_message (e : exn) : string :=
  match e with
  | NotFoundException m => m
  | BadRequestException m => m
  | Error m => m
  end.

(** ** QuoteLifecycleService *)

Module QuoteLifecycleService.

Definition PROVISIONAL_TTL_SEC : Z := 15.
Definition RESERVED_TTL_SEC : Z := 300.

Definition storeProvisionalQuote (st : store) (now : Z) (uuid : string)
    (route : option RouteResult.t) (amountIn amountOut : Q) (netAmountOut : Js.num)
    (feeBps : Q) (scoringMeta : ScoringMeta.t) (type : QuoteType)
  : store * ProvisionalQuote.t :=
  let quoteId := "quote:" ++ uuid in
  let expiryTs := now + PROVISIONAL_TTL_SEC * 1000 in
  let quote :=
    {| ProvisionalQuote.quoteId := quoteId;
       ProvisionalQuote.route := route;
       ProvisionalQuote.amountIn := amountIn;
       ProvisionalQuote.amountOut := amountOut;
       ProvisionalQuote.netAmountOut := netAmountOut;
       ProvisionalQuote.feeBps := feeBps;
       ProvisionalQuote.expiryTs := expiryTs;
       ProvisionalQuote.createdTs := now;
       ProvisionalQuote.scoringMeta := scoringMeta;
       ProvisionalQuote.type := type |} in
  (Redis.set_ex st now (RedisKey.provisionalQuote quoteId) (VProvisional quote)
     PROVISIONAL_TTL_SEC,
   quote).

(** A value that is not a provisional quote stands for a document that fails
    to parse: the [catch] returns [null]. *)
Definition getProvisionalQuote (st : store) (now : Z) (quoteId : string)
  : option ProvisionalQuote.t :=
  match Redis.get st now (RedisKey.provisionalQuote quoteId) with
  | None => None
  | Some (VProvisional quote) =>
      if ProvisionalQuote.expiryTs quote <=? now then None else Some quote
  | Some _ => None
  end.

Definition reserveQuote (st : store) (now : Z) (uuid : string)
    (quoteId clientId : string) (otcReservationMeta : option OtcReservationMeta.t)
  : result (store * ReservedQuote.t) :=
  match getProvisionalQuote st now quoteId with
  | None =>
      Throw (NotFoundException ("Provisional quote " ++ quoteId ++ " not found or expired"))
  | Some provisional =>
      let reservationId := "reservation:" ++ uuid in
      let reservedUntilTs := now + RESERVED_TTL_SEC * 1000 in
      let reserved :=
        {| ReservedQuote.provisional := provisional;
           ReservedQuote.reservationId := reservationId;
           ReservedQuote.reservedByClient := clientId;
           ReservedQuote.reservedUntilTs := reservedUntilTs;
           ReservedQuote.otcReservationMeta := otcReservationMeta |} in
      (* Store as reserved quote *)
      let st1 := Redis.set_ex st now (RedisKey.reservedQuote quoteId) (VReserved reserved)
                   RESERVED_TTL_SEC in
      (* Remove provisional *)
      let st2 := Redis.del st1 (RedisKey.provisionalQuote quoteId) in
      Ok (st2, reserved)
  end.

(** An expired reserved quote is deleted on read. *)
Definition getReservedQuote (st : store) (now : Z) (quoteId : string)
  : store * option ReservedQuote.t :=
  match Redis.get st now (RedisKey.reservedQuote quoteId) with
  | None => (st, None)
  | Some (VReserved quote) =>
      if ReservedQuote.reservedUntilTs quote <=? now
      then (Redis.del st (RedisKey.reservedQuote quoteId), None)
      else (st, Some quote)
  | Some _ => (st, None)
  end.

End QuoteLifecycleService.

(** ** DepositService *)

Module DepositService.

Definition DEPOSIT_TTL_SEC : Z := 3600.

Definition refKey (paymentReference : string) : string :=
  "deposit:ref:" ++ paymentReference.

Definition methodMap : list (string * string) :=
  [ ("BRL", "PIX");
    ("MXN", "SPEI");
    ("NGN", "bank_transfer");
    ("USD", "bank_transfer");
    ("EUR", "bank_transfer") ].

(** [methodMap[fromToken] || "bank_transfer"]: the table is an object
    literal, and a member of [Object.prototype] is truthy. *)
Definition getPaymentMethod (fromToken : string) : PaymentMethod :=
  match Js.lookup methodMap fromToken with
  | Js.Own EmptyString => Method "bank_transfer"
  | Js.Own name => Method name
  | Js.Inherited => PrototypeMember fromToken
  | Js.Absent => Method "bank_transfer"
  end.

(** [method === name]. *)
Definition isMethod (method : PaymentMethod) (name : string) : bool :=
  match method with
  | Method m => String.eqb m name
  | PrototypeMember _ => false
  end.

Definition getAccountDetails (method : PaymentMethod) (quote : ReservedQuote.t)
  : AccountDetails :=
  if isMethod method "PIX" then PixAccount "mock-pix-key@example.com"
  else if isMethod method "SPEI"
  then SpeiAccount "Mock Bank" "1234567890" "0123456789"
  else IbanAccount "Mock Bank" "1234567890" "GB82WEST12345698765432".

Definition calculatePixCrc (data : string) : string := "ABCD".

(** The text of the QR code before the checksum. *)
Definition pixPayload : string :=
  "00020126580014BR.GOV.BCB.PIX0136mock-pix-key@example.com5204000053039865802BR5913MOCK MERCHANT6009SAO PAULO62070503***6304".

Definition generatePixQrCode (paymentRef : string) (amount : Q) : string :=
  pixPayload ++ calculatePixCrc "mock".

(** [reservedQuote.route?.steps[0]?.fromToken || ""]. *)
Definition sourceToken (reservedQuote : ReservedQuote.t) : string :=
  match ReservedQuote.route reservedQuote with
  | Some route =>
      match RouteResult.steps route with
      | first :: _ => RouteStep.fromToken first
      | [] => ""
      end
  | None => ""
  end.

Definition createDepositInstructions (st : store) (now : Z) (uuid : string)
    (quoteId clientId : string) (reservedQuote : ReservedQuote.t)
  : store * DepositInstructions.t :=
  let paymentRef :=
    "r" ++ Js.substring0 8 (ReservedQuote.reservationId reservedQuote)
        ++ "-" ++ Js.substring0 8 clientId in
  let depositExpiryTs := ReservedQuote.reservedUntilTs reservedQuote in
  let method := getPaymentMethod (sourceToken reservedQuote) in
  let instructions :=
    {| DepositInstructions.method := method;
       DepositInstructions.accountDetails := getAccountDetails method reservedQuote;
       DepositInstructions.amount := ReservedQuote.amountIn reservedQuote;
       DepositInstructions.paymentReference := paymentRef;
       DepositInstructions.qrCodeData :=
         if isMethod method "PIX"
         then Some (generatePixQrCode paymentRef (ReservedQuote.amountIn reservedQuote))
         else None;
       DepositInstructions.depositExpiryTs := depositExpiryTs |} in
  let depositId := "deposit:" ++ uuid in
  let deposit :=
    {| DepositRecord.depositId := depositId;
       DepositRecord.quoteId := quoteId;
       DepositRecord.clientId := clientId;
       DepositRecord.amountExpected := ReservedQuote.amountIn reservedQuote;
       DepositRecord.amountReceived := None;
       DepositRecord.depositInstructions := instructions;
       DepositRecord.status := PENDING;
       DepositRecord.receivedAt := None;
       DepositRecord.bankTxId := None;
       DepositRecord.paymentReference := paymentRef |} in
  let st1 := Redis.set_ex st now (RedisKey.deposit depositId) (VDeposit deposit)
               DEPOSIT_TTL_SEC in
  (* Also store by payment reference for webhook lookup *)
  let st2 := Redis.set_ex st1 now (refKey paymentRef) (VString depositId) DEPOSIT_TTL_SEC in
  (st2, instructions).

(** The record written by [confirmDeposit]:
    [{...deposit, amountReceived, status: "CONFIRMED", receivedAt: Date.now(), bankTxId}]. *)
Definition confirmed (deposit : DepositRecord.t) (now : Z) (amountReceived : Q)
    (bankTxId : option string) : DepositRecord.t :=
  {| DepositRecord.depositId := DepositRecord.depositId deposit;
     DepositRecord.quoteId := DepositRecord.quoteId deposit;
     DepositRecord.clientId := DepositRecord.clientId deposit;
     DepositRecord.amountExpected := DepositRecord.amountExpected deposit;
     DepositRecord.amountReceived := Some amountReceived;
     DepositRecord.depositInstructions := DepositRecord.depositInstructions deposit;
     DepositRecord.status := CONFIRMED;
     DepositRecord.receivedAt := Some now;
     DepositRecord.bankTxId := bankTxId;
     DepositRecord.paymentReference := DepositRecord.paymentReference deposit |}.

(** The condition under which [confirmDeposit] logs its warning. *)
Definition amountMismatch (deposit : DepositRecord.t) (amountReceived : Q) : bool :=
  let tolerance := (DepositRecord.amountExpected deposit * (1 # 1000))%Q in
  Js.gt (Js.abs (amountReceived - DepositRecord.amountExpected deposit)%Q) tolerance.

Record Confirmation := mkConfirmation {
  conf_store : store;
  conf_record : DepositRecord.t;
  (** whether [logger.warn] reported an amount mismatch *)
  conf_warned : bool
}.

(** The index holds the deposit id as a plain string ([!depositIdRaw] is
    also true of the empty string); the record is parsed without a [try], so
    a document of another kind makes the call throw. *)
Definition confirmDeposit (st : store) (now : Z) (paymentReference : string)
    (amountReceived : Q) (bankTxId : option string) : result Confirmation :=
  match Redis.get st now (refKey paymentReference) with
  | Some (VString (String c rest as depositIdRaw)) =>
      match Redis.get st now (RedisKey.deposit depositIdRaw) with
      | None => Throw (NotFoundException ("Deposit " ++ depositIdRaw ++ " not found"))
      | Some (VDeposit deposit) =>
          let warned := amountMismatch deposit amountReceived in
          let updated := confirmed deposit now amountReceived bankTxId in
          let st1 := Redis.set_ex st now (RedisKey.deposit (DepositRecord.depositId deposit))
                       (VDeposit updated) DEPOSIT_TTL_SEC in
          Ok (mkConfirmation st1 updated warned)
      | Some _ => Throw (Error "Unexpected token in JSON")
      end
  | _ =>
      Throw (NotFoundException
               ("Deposit with reference " ++ paymentReference ++ " not found"))
  end.

Definition getDeposit (st : store) (now : Z) (depositId : string)
  : option DepositRecord.t :=
  match Redis.get st now (RedisKey.deposit depositId) with
  | Some (VDeposit d) => Some d
  | _ => None
  end.

Definition getDepositByReference (st : store) (now : Z) (paymentReference : string)
  : option DepositRecord.t :=
  match Redis.get st now (refKey paymentReference) with
  | Some (VString (String c rest as depositIdRaw)) => getDeposit st now depositIdRaw
  | _ => None
  end.

End DepositService.

(** ** ExecutionService *)

(** [Partial<ExecutionRecord>] as passed to [updateExecution]: [None] is a
    key that is not mentioned, [Some v] a key that is set (for an optional
    field, [Some None] sets it to [undefined]). *)
Module Updates.
Record t := mk {
  route : option RouteResult.t;
  status : option ExecutionStatus;
  approvalToken : option (option string);
  transactionHashes : option (option (list string));
  currentStep : option (option nat);
  completedAt : option (option Z);
  error : option (option string)
}.
Definition none : t := mk None None None None None None None.
End Updates.

(** The string value of a member of the [ExecutionStatus] enum. *)
Definition statusName (s : ExecutionStatus) : string :=
  match s with
  | PENDING_APPROVAL => "PENDING_APPROVAL"
  | EXECUTING => "EXECUTING"
  | COMPLETED => "COMPLETED"
  | FAILED => "FAILED"
  | EXPIRED => "EXPIRED"
  end.

Module ExecutionService.

Definition EXECUTION_TTL_SEC : Z := 86400.

Definition execKey (executionId : string) : string := "exec:" ++ executionId.
Definition quoteIndexKey (quoteId : string) : string := "execution:quote:" ++ quoteId.

Definition saveExecution (st : store) (now : Z) (record : ExecutionRecord.t) : store :=
  Redis.set_ex st now (execKey (ExecutionRecord.executionId record)) (VExecution record)
    EXECUTION_TTL_SEC.

Definition requiresApproval (route : RouteResult.t) : bool :=
  existsb (fun s => Js.includes (RouteStep.venueId s) "otc") (RouteResult.steps route).

Definition createExecution (st : store) (now : Z) (uuid uuidToken : string)
    (quoteId : string) (route : RouteResult.t) (fallbackRoute : option RouteResult.t)
  : store * ExecutionRecord.t :=
  let executionId := "exec:" ++ uuid in
  let approvalToken :=
    if requiresApproval route then Some ("approval:" ++ uuidToken) else None in
  let record :=
    {| ExecutionRecord.executionId := executionId;
       ExecutionRecord.quoteId := quoteId;
       ExecutionRecord.route := route;
       ExecutionRecord.status :=
         match approvalToken with
         | Some _ => PENDING_APPROVAL
         | None => EXECUTING
         end;
       ExecutionRecord.approvalToken := approvalToken;
       ExecutionRecord.transactionHashes := Some [];
       ExecutionRecord.currentStep := Some 0%nat;
       ExecutionRecord.createdAt := now;
       ExecutionRecord.completedAt := None;
       ExecutionRecord.error := None;
       ExecutionRecord.fallbackRoute := fallbackRoute |} in
  let st1 := saveExecution st now record in
  (* Store quoteId -> executionId mapping *)
  let st2 := Redis.set_ex st1 now (quoteIndexKey quoteId) (VString executionId)
               EXECUTION_TTL_SEC in
  (st2, record).

Definition getExecution (st : store) (now : Z) (executionId : string)
  : option ExecutionRecord.t :=
  match Redis.get st now (execKey executionId) with
  | Some (VExecution e) => Some e
  | _ => None
  end.

(** [{...existing, ...updates}]. *)
Definition merge (existing : ExecutionRecord.t) (updates : Updates.t) : ExecutionRecord.t :=
  let pick {A} (u : option A) (old : A) : A :=
    match u with Some v => v | None => old end in
  {| ExecutionRecord.executionId := ExecutionRecord.executionId existing;
     ExecutionRecord.quoteId := ExecutionRecord.quoteId existing;
     ExecutionRecord.route := pick (Updates.route updates) (ExecutionRecord.route existing);
     ExecutionRecord.status := pick (Updates.status updates) (ExecutionRecord.status existing);
     ExecutionRecord.approvalToken :=
       pick (Updates.approvalToken updates) (ExecutionRecord.approvalToken existing);
     ExecutionRecord.transactionHashes :=
       pick (Updates.transactionHashes updates) (ExecutionRecord.transactionHashes existing);
     ExecutionRecord.currentStep :=
       pick (Updates.currentStep updates) (ExecutionRecord.currentStep existing);
     ExecutionRecord.createdAt := ExecutionRecord.createdAt existing;
     ExecutionRecord.completedAt :=
       pick (Updates.completedAt updates) (ExecutionRecord.completedAt existing);
     ExecutionRecord.error := pick (Updates.error updates) (ExecutionRecord.error existing);
     ExecutionRecord.fallbackRoute := ExecutionRecord.fallbackRoute existing |}.

Definition updateExecution (st : store) (now : Z) (executionId : string)
    (updates : Updates.t) : result (store * ExecutionRecord.t) :=
  match getExecution st now executionId with
  | None => Throw (NotFoundException ("Execution " ++ executionId ++ " not found"))
  | Some existing =>
      let updated := merge existing updates in
      Ok (saveExecution st now updated, updated)
  end.

Definition approveExecution (st : store) (now : Z) (executionId approvalToken : string)
  : result (store * ExecutionRecord.t) :=
  match getExecution st now executionId with
  | None => Throw (NotFoundException ("Execution " ++ executionId ++ " not found"))
  | Some exec =>
      match ExecutionRecord.status exec with
      | PENDING_APPROVAL =>
          match ExecutionRecord.approvalToken exec with
          | Some tok =>
              if String.eqb tok approvalToken
              then updateExecution st now executionId
                     {| Updates.route := None;
                        Updates.status := Some EXECUTING;
                        Updates.approvalToken := Some None;
                        Updates.transactionHashes := None;
                        Updates.currentStep := None;
                        Updates.completedAt := None;
                        Updates.error := None |}
              else Throw (Error "Invalid approval token")
          | None => Throw (Error "Invalid approval token")
          end
      | other =>
          Throw (Error ("Execution " ++ executionId ++ " is not pending approval (status: "
                        ++ statusName other ++ ")"))
      end
  end.

Definition completeExecution (st : store) (now : Z) (executionId : string)
    (transactionHashes : list string) : result (store * ExecutionRecord.t) :=
  updateExecution st now executionId
    {| Updates.route := None;
       Updates.status := Some COMPLETED;
       Updates.approvalToken := None;
       Updates.transactionHashes := Some (Some transactionHashes);
       Updates.currentStep := Some None;
       Updates.completedAt := Some (Some now);
       Updates.error := None |}.

(** [failExecution(executionId, error, useFallback = false)]; the result
    [Ok (st, None)] is the [return null] of a missing record. *)
Definition failExecution (st : store) (now : Z) (executionId : string) (error : string)
    (useFallback : bool) : result (store * option ExecutionRecord.t) :=
  match getExecution st now executionId with
  | None => Ok (st, None)
  | Some exec =>
      let finish (r : result (store * ExecutionRecord.t)) :=
        match r with
        | Ok (st', rec) => Ok (st', Some rec)
        | Throw e => Throw e
        end in
      match useFallback, ExecutionRecord.fallbackRoute exec with
      | true, Some fallbackRoute =>
          (* Switch to fallback route *)
          finish (updateExecution st now executionId
                    {| Updates.route := Some fallbackRoute;
                       Updates.status := Some EXECUTING;
                       Updates.approvalToken := None;
                       Updates.transactionHashes := Some (Some []);
                       Updates.currentStep := Some (Some 0%nat);
                       Updates.completedAt := None;
                       Updates.error := Some None |})
      | _, _ =>
          finish (updateExecution st now executionId
                    {| Updates.route := None;
                       Updates.status := Some FAILED;
                       Updates.approvalToken := None;
                       Updates.transactionHashes := None;
                       Updates.currentStep := None;
                       Updates.completedAt := Some (Some now);
                       Updates.error := Some (Some error) |})
      end
  end.

End ExecutionService.

(** ** RoutingController *)

(** The step of the execution driver that produces a transaction hash.  The
    controller simulates it; the driver's [try]/[catch] is written for a step
    that may throw, so the step is an argument here. *)
Definition StepExecutor := RouteStep.t -> result string.

(** How a run of [executeRouteAsync] ends.  [retries] counts the recursive
    calls made after a switch to the fallback route. *)
Inductive outcome :=
| Returned (st : store) (now : Z) (retries : nat)
| Rejected (st : store) (now : Z) (retries : nat) (e : exn)
| Unfinished (st : store) (now : Z) (retries : nat).

Module RoutingController.

Definition STEP_DELAY_MS : Z := 2000.

Definition setCurrentStep (i : nat) : Updates.t :=
  {| Updates.route := None; Updates.status := None; Updates.approvalToken := None;
     Updates.transactionHashes := None; Updates.currentStep := Some (Some i);
     Updates.completedAt := None; Updates.error := None |}.

Definition setTransactionHashes (hashes : list string) : Updates.t :=
  {| Updates.route := None; Updates.status := None; Updates.approvalToken := None;
     Updates.transactionHashes := Some (Some hashes); Updates.currentStep := None;
     Updates.completedAt := None; Updates.error := None |}.

Definition setStatus (status : ExecutionStatus) : Updates.t :=
  {| Updates.route := None; Updates.status := Some status; Updates.approvalToken := None;
     Updates.transactionHashes := None; Updates.currentStep := None;
     Updates.completedAt := None; Updates.error := None |}.

(** The [for] loop of the driver from step [i] on.  [hashes] is the
    [transactionHashes] array of the record loaded when the driver started:
    [push] extends that same array when it exists; when the field is absent
    every iteration pushes onto a fresh [[]] and the loaded record keeps no
    array. *)
Fixpoint runSteps (execute : StepExecutor) (executionId : string)
    (steps : list RouteStep.t) (i : nat) (st : store) (now : Z)
    (hashes : option (list string)) : store * Z * result (option (list string)) :=
  match steps with
  | [] => (st, now, Ok hashes)
  | step :: rest =>
      match ExecutionService.updateExecution st now executionId (setCurrentStep i) with
      | Throw e => (st, now, Throw e)
      | Ok (st1, _) =>
          let now1 := now + STEP_DELAY_MS in
          match execute step with
          | Throw e => (st1, now1, Throw e)
          | Ok txHash =>
              let currentHashes :=
                (match hashes with Some l => l | None => [] end ++ [txHash])%list in
              let hashes' :=
                match hashes with Some _ => Some currentHashes | None => None end in
              match ExecutionService.updateExecution st1 now1 executionId
                      (setTransactionHashes currentHashes) with
              | Throw e => (st1, now1, Throw e)
              | Ok (st2, _) => runSteps execute executionId rest (S i) st2 now1 hashes'
              end
          end
      end
  end.

(** The body of the [try]: the loop, then [completeExecution]. *)
Definition tryExecute (execute : StepExecutor) (executionId : string)
    (execution : ExecutionRecord.t) (st : store) (now : Z) : store * Z * option exn :=
  match runSteps execute executionId (RouteResult.steps (ExecutionRecord.route execution))
          0%nat st now (ExecutionRecord.transactionHashes execution) with
  | (st1, now1, Throw e) => (st1, now1, Some e)
  | (st1, now1, Ok hashes) =>
      match ExecutionService.completeExecution st1 now1 executionId
              (match hashes with Some l => l | None => [] end) with
      | Ok (st2, _) => (st2, now1, None)
      | Throw e => (st1, now1, Some e)
      end
  end.

(** [executeRouteAsync]; the recursion "Retry with fallback" is bounded by
    [fuel], and [Unfinished] is returned when the bound is reached. *)
Fixpoint executeRouteAsync (fuel : nat) (execute : StepExecutor) (st : store) (now : Z)
    (executionId : string) (retries : nat) : outcome :=
  match fuel with
  | O => Unfinished st now retries
  | S fuel' =>
      match ExecutionService.getExecution st now executionId with
      | None => Returned st now retries
      | Some execution =>
          match tryExecute execute executionId execution st now with
          | (st1, now1, None) => Returned st1 now1 retries
          | (st1, now1, Some error) =>
              (* Try fallback route if available *)
              let fallback :=
                match ExecutionService.getExecution st1 now1 executionId with
                | Some exec => ExecutionRecord.fallbackRoute exec
                | None => None
                end in
              match fallback with
              | Some _ =>
                  match ExecutionService.failExecution st1 now1 executionId
                          (exn_message error) true with
                  | Throw e => Rejected st1 now1 retries e
                  | Ok (st2, _) =>
                      (* Retry with fallback *)
                      executeRouteAsync fuel' execute st2 now1 executionId (S retries)
                  end
              | None =>
                  match ExecutionService.failExecution st1 now1 executionId
                          (exn_message error) false with
                  | Throw e => Rejected st1 now1 retries e
                  | Ok (st2, _) => Returned st2 now1 retries
                  end
              end
          end
      end
  end.

Definition findExecutionByQuoteId (st : store) (now : Z) (quoteId : string)
  : list ExecutionRecord.t :=
  match Redis.get st now (ExecutionService.quoteIndexKey quoteId) with
  | Some (VString (String c rest as executionId)) =>
      match ExecutionService.getExecution st now executionId with
      | Some exec => [exec]
      | None => []
      end
  | _ => []
  end.

Record DepositWebhookRequest := mkWebhookRequest {
  paymentReference : string;
  amountReceived : Q;
  bankTxId : option string;
  source : option string
}.

Record WebhookResponse := mkWebhookResponse {
  success : bool;
  depositId : option string;
  executionId : option string
}.

(** What a call of the webhook leaves behind: the store, the response, and
    the execution for which [executeRouteAsync] was started, if any. *)
Record WebhookEffect := mkWebhookEffect {
  wh_store : store;
  wh_response : WebhookResponse;
  wh_started : option string
}.

Definition webhookFailed (st : store) : WebhookEffect :=
  mkWebhookEffect st (mkWebhookResponse false None None) None.

Definition depositWebhook (st : store) (now : Z) (request : DepositWebhookRequest)
  : WebhookEffect :=
  match DepositService.confirmDeposit st now (paymentReference request)
          (amountReceived request) (bankTxId request) with
  | Throw _ => webhookFailed st
  | Ok confirmation =>
      let deposit := DepositService.conf_record confirmation in
      (* Get reserved quote *)
      match QuoteLifecycleService.getReservedQuote (DepositService.conf_store confirmation)
              now (DepositRecord.quoteId deposit) with
      | (st1, None) => webhookFailed st1
      | (st1, Some reserved) =>
          (* Get execution *)
          match findExecutionByQuoteId st1 now (DepositRecord.quoteId deposit) with
          | [] => webhookFailed st1
          | execution :: _ =>
              (* Update execution to DEPOSIT_CONFIRMED and start execution *)
              match ExecutionService.updateExecution st1 now
                      (ExecutionRecord.executionId execution) (setStatus EXECUTING) with
              | Throw _ => webhookFailed st1
              | Ok (st2, _) =>
                  mkWebhookEffect st2
                    (mkWebhookResponse true
                       (Some (DepositRecord.depositId deposit))
                       (Some (ExecutionRecord.executionId execution)))
                    (Some (ExecutionRecord.executionId execution))
              end
          end
      end
  end.

(** The key read by [getQuotesForRoute] for one step. *)
Definition scoringKey (step : RouteStep.t) : string :=
  if Js.startsWith (RouteStep.venueId step) "dex:"
  then "routing:edge:solana:" ++ RouteStep.fromToken step ++ ":"
         ++ RouteStep.toToken step ++ ":" ++ RouteStep.venueId step
  else "quote:otc:" ++ RouteStep.fromToken step ++ ":"
         ++ RouteStep.toToken step ++ ":" ++ RouteStep.venueId step.

Definition isEmpty (s : string) : bool :=
  match s with EmptyString => true | _ => false end.

Definition getQuotesForRoute (st : store) (now : Z) (route : RouteResult.t)
  : list OTCQuote.t :=
  flat_map (fun step =>
    if isEmpty (RouteStep.fromToken step) || isEmpty (RouteStep.toToken step)
       || isEmpty (RouteStep.venueId step)
    then []
    else
      match Redis.get st now (scoringKey step) with
      | Some (VQuote parsed) => [parsed]
      | _ => []
      end)
  (RouteResult.steps route).

Definition getRouteType (route : RouteResult.t) : QuoteType :=
  let hasOtc :=
    existsb (fun s => Js.includes (RouteStep.venueId s) "otc") (RouteResult.steps route) in
  let hasDex :=
    existsb (fun s => Js.includes (RouteStep.venueId s) "jup"
                      || Js.includes (RouteStep.venueId s) "dex")
      (RouteResult.steps route) in
  if hasOtc && hasDex then OTC_DEX
  else if hasOtc then OTC
  else DEX.

Record ExecuteRequest := mkExecuteRequest {
  req_quoteId : string;
  req_clientId : string
}.

Record ExecuteResponseV2 := mkExecuteResponseV2 {
  resp_reservationId : string;
  resp_quoteId : string;
  resp_status : ExecutionStatus;
  resp_depositInstructions : DepositInstructions.t;
  resp_reservedUntil : Z;
  resp_otcReservationId : option string
}.

Record Uuids := mkUuids {
  uuidReservation : string;
  uuidDeposit : string;
  uuidExecution : string;
  uuidApproval : string
}.

Definition decimal (z : Z) : string := NilZero.string_of_int (Z.to_int z).

Definition executeV2 (st : store) (now : Z) (ids : Uuids) (request : ExecuteRequest)
  : result (store * ExecuteResponseV2) :=
  if isEmpty (req_quoteId request) then Throw (BadRequestException "quoteId is required")
  else if isEmpty (req_clientId request) then Throw (BadRequestException "clientId is required")
  else
    match QuoteLifecycleService.getProvisionalQuote st now (req_quoteId request) with
    | None =>
        Throw (NotFoundException ("Quote " ++ req_quoteId request ++ " not found or expired"))
    | Some provisional =>
        match ProvisionalQuote.route provisional with
        | None => Throw (BadRequestException "No route available for this quote")
        | Some route =>
            let otcReservationMeta :=
              match ProvisionalQuote.type provisional with
              | OTC | OTC_DEX =>
                  Some {| OtcReservationMeta.otcReservationId :=
                            Some ("otc-reservation-" ++ decimal now);
                          OtcReservationMeta.depositAddress :=
                            match RouteResult.steps route with
                            | first :: _ =>
                                if Js.includes (RouteStep.venueId first) "otc"
                                then Some "mock-deposit-address" else None
                            | [] => None
                            end |}
              | DEX => None
              end in
            match QuoteLifecycleService.reserveQuote st now (uuidReservation ids)
                    (req_quoteId request) (req_clientId request) otcReservationMeta with
            | Throw e => Throw e
            | Ok (st1, reserved) =>
                let '(st2, depositInstructions) :=
                  DepositService.createDepositInstructions st1 now (uuidDeposit ids)
                    (req_quoteId request) (req_clientId request) reserved in
                match ReservedQuote.route reserved with
                | None => Throw (Error "Cannot read properties of null")
                | Some reservedRoute =>
                    let '(st3, execution) :=
                      ExecutionService.createExecution st2 now (uuidExecution ids)
                        (uuidApproval ids) (req_quoteId request) reservedRoute None in
                    (* Update execution status to PENDING_DEPOSIT *)
                    match ExecutionService.updateExecution st3 now
                            (ExecutionRecord.executionId execution)
                            (setStatus PENDING_APPROVAL) with
                    | Throw e => Throw e
                    | Ok (st4, _) =>
                        Ok (st4,
                            {| resp_reservationId := ReservedQuote.reservationId reserved;
                               resp_quoteId := req_quoteId request;
                               resp_status := PENDING_APPROVAL;
                               resp_depositInstructions := depositInstructions;
                               resp_reservedUntil := ReservedQuote.reservedUntilTs reserved;
                               resp_otcReservationId :=
                                 match otcReservationMeta with
                                 | Some m => OtcReservationMeta.otcReservationId m
                                 | None => None
                                 end |})
                    end
                end
            end
        end
    end.

End RoutingController.

(** ** CRC16-CCITT *)

Module Crc16.

(** The reference checksum.  [calculatePixCrc] returns a constant, so the
    checksum that the QR code format calls for, CRC16-CCITT, is written out
    here to compare against: polynomial 0x1021, most significant bit first,
    no reflection, no final xor.  The EMV QR code format starts the register
    at 0xFFFF. *)
Definition POLY : Z := 0x1021.

Definition shift1 (crc : Z) : Z :=
  if Z.testbit crc 15
  then Z.land (Z.lxor (Z.shiftl crc 1) POLY) 0xFFFF
  else Z.land (Z.shiftl crc 1) 0xFFFF.

Definition updateByte (crc : Z) (c : ascii) : Z :=
  Nat.iter 8 shift1 (Z.lxor crc (Z.shiftl (Z.of_nat (nat_of_ascii c)) 8)).

Fixpoint run (crc : Z) (data : string) : Z :=
  match data with
  | EmptyString => crc
  | String c rest => run (updateByte crc c) rest
  end.

Definition crc16_ccitt (data : string) : Z := run 0xFFFF data.

Definition hexDigit (d : Z) : ascii :=
  if d <? 10 then ascii_of_nat (Z.to_nat (48 + d))
  else ascii_of_nat (Z.to_nat (55 + d)).

(** Four upper-case hexadecimal digits. *)
Definition hex4 (v : Z) : string :=
  String (hexDigit (Z.land (Z.shiftr v 12) 15))
    (String (hexDigit (Z.land (Z.shiftr v 8) 15))
       (String (hexDigit (Z.land (Z.shiftr v 4) 15))
          (String (hexDigit (Z.land v 15)) EmptyString))).

End Crc16.


(** ** Well-formed routes and prefetched caches *)




(** A token symbol without the key separator [:]. *)
Fixpoint plain (s : string) : bool :=
  match s with
  | EmptyString => true
  | String c rest => negb (Ascii.eqb c ":") && plain rest
  end.


(** A text that a [MATCH] pattern takes literally: none of [*], [?], [[]
    and the backslash occurs in it. *)
Fixpoint globFree (s : string) : bool :=
  match s with
  | EmptyString => true
  | String c rest => negb (Glob.meta c) && globFree rest
  end.



(** The texts before the final [*] of the two patterns of a pair. *)
Definition otcPrefix (fromToken toToken : string) : string :=
  RedisKey.otcQuote fromToken toToken "".

Definition dexPrefix (fromToken toToken : string) : string :=
  "routing:edge:solana:" ++ fromToken ++ ":" ++ toToken ++ ":dex:".

(** The cache after a run of the prefetcher: batches of quotes, each written
    by [cacheQuotes] at its own instant, starting from an empty store. *)
Definition prefetch (batches : list (Z * list OTCQuote.t)) : store :=
  fold_left (fun st batch => OtcRoutingService.cacheQuotes st batch.1 batch.2) batches ∅.


(** ** Sample data *)

Module Sample.

Definition quote (venue from to : string) (amountIn amountOut : Q) (feeBps : option Q)
  : OTCQuote.t :=
  OTCQuote.mk venue from to amountIn amountOut None feeBps 100000 None 0 None.

(** BRL -> USDC -> EUR over two OTC desks. *)
Definition batches : list (Z * list OTCQuote.t) :=
  [(0, [quote "otc1" "BRL" "USDC" 10000 2000 (Some 40%Q);
        quote "otc2" "USDC" "EUR" 2000 1840 (Some 30%Q)])].

Definition request : OtcRoutingService.BestRouteRequest :=
  OtcRoutingService.mkRequest 10000 "BRL" "EUR" None None.

Definition best : RouteResult.t :=
  Eval vm_compute in
    match OtcRoutingService.route
            (OtcRoutingService.getBestRoute (prefetch batches) 10 request) with
    | Some r => r
    | None => OtcRoutingService.mkRoute [] 0 0 0 0
    end.

(** The same desks and a direct desk BRL -> EUR. *)
Definition directBatches : list (Z * list OTCQuote.t) :=
  [(0, [quote "otc1" "BRL" "USDC" 10000 2000 (Some 40%Q);
        quote "otc2" "USDC" "EUR" 2000 1840 (Some 30%Q);
        quote "otcD" "BRL" "EUR" 10000 1000 None])].

(** A request that arrives while the sample request is being served. *)
Definition otherRequest : OtcRoutingService.BestRouteRequest :=
  OtcRoutingService.mkRequest 500 "MXN" "USD" None None.

(** The call for the sample request clears the field and compares its 2-hop
    routes; while it awaits the legs of its 3-hop search the call for the
    other request starts and clears the field; then the first call runs to
    its end, and the second after it. *)
Definition schedule : list bool := [true; true; false].

(** What the two calls return. *)
Definition overlapped : option RouteResult.t * option RouteResult.t :=
  OtcRoutingService.overlap schedule
    (OtcRoutingService.actions (prefetch directBatches) 10 request)
    (OtcRoutingService.actions (prefetch directBatches) 11 otherRequest)
    None None None.



End Sample.

(** ** A sample run of the pipeline *)

Module Flow.

Definition scoringMeta : ScoringMeta.t :=
  {| ScoringMeta.settlementDays := 0;
     ScoringMeta.counterpartyRisk := 1 # 1000;
     ScoringMeta.timePenalty := 0;
     ScoringMeta.confidence := 99 # 100 |}.

(** A provisional quote for the sample route, stored at instant 10. *)
Definition afterQuote : store * ProvisionalQuote.t :=
  QuoteLifecycleService.storeProvisionalQuote (prefetch Sample.batches) 10 "q-1"
    (Some Sample.best) 10000 (RouteResult.totalOut Sample.best)
    (RouteResult.totalOut Sample.best) (RouteResult.totalFeesBps Sample.best)
    scoringMeta OTC.

Definition quoteId : string := "quote:q-1".

Definition ids : RoutingController.Uuids :=
  RoutingController.mkUuids "res-1" "dep-1" "run-1" "tok-1".

(** The client accepts the quote at instant 20. *)
Definition afterExecute : store :=
  match RoutingController.executeV2 afterQuote.1 20 ids
          (RoutingController.mkExecuteRequest quoteId "client-1") with
  | Ok (st, _) => st
  | Throw _ => ∅
  end.

Definition paymentReference : string := "rreservat-client-1".
Definition executionId : string := "exec:run-1".

(** The bank notifies a deposit of the expected amount. *)
Definition notification : RoutingController.DepositWebhookRequest :=
  RoutingController.mkWebhookRequest paymentReference 10000 (Some "pix-tx-1") (Some "PIX").

(** The bank notifies a deposit far below the expected amount. *)
Definition shortNotification : RoutingController.DepositWebhookRequest :=
  RoutingController.mkWebhookRequest paymentReference 5 (Some "pix-tx-1") (Some "PIX").

(** A step executor that settles every step. *)
Definition settle : StepExecutor := fun step => Ok ("0x" ++ RouteStep.venueId step).

(** A step executor that fails on every step. *)
Definition broken : StepExecutor := fun step => Throw (Error "step failed").

End Flow.

(** ** Idempotence of the deposit webhook, as a property of one store *)


Module FlowRecords.

(** The deposit record awaiting confirmation in the sample run. *)
Definition pending : DepositRecord.t :=
  Eval vm_compute in
    match DepositService.getDepositByReference Flow.afterExecute 30 Flow.paymentReference with
    | Some d => d
    | None =>
        DepositRecord.mk "" "" "" 0 None
          (DepositInstructions.mk "" (PixAccount "") 0 "" None 0) PENDING None None ""
    end.

End FlowRecords.

(** ** An execution with a fallback route *)

Module Retry.

Definition jupiter : OTCQuote.t := Sample.quote "dex:jupiter" "USDC" "EURC" 1000 915 (Some 20%Q).
Definition orca : OTCQuote.t := Sample.quote "dex:orca" "USDC" "EURC" 1000 914 (Some 20%Q).

Definition routeVia (q : OTCQuote.t) : RouteResult.t :=
  let out := OtcRoutingService.computeOutput 1000 q in
  OtcRoutingService.mkRoute [OtcRoutingService.toRouteStep q 1000 out] 1000 out
    (OtcRoutingService.fee q) 0.

Definition primary : RouteResult.t := routeVia jupiter.
Definition fallback : RouteResult.t := routeVia orca.

(** [createExecution(quoteId, route, fallbackRoutes[0])] on an on-chain
    route: the record starts in EXECUTING. *)
Definition started : store :=
  (ExecutionService.createExecution ∅ 0 "run-2" "tok-2" "quote:q-2" primary (Some fallback)).1.

Definition executionId : string := "exec:run-2".

End Retry.

(** ** Invariants used in the proofs *)



(** The record of execution [id] is readable and EXECUTING, runs a route
    with at least one step, and carries the fallback route [fb]. *)
Definition retrying (id : string) (fb : RouteResult.t) (st : store) (now : Z) : Prop :=
  exists e,
    ExecutionService.getExecution st now id = Some e
    /\ ExecutionRecord.executionId e = id
    /\ ExecutionRecord.status e = EXECUTING
    /\ RouteResult.steps (ExecutionRecord.route e) <> []
    /\ ExecutionRecord.fallbackRoute e = Some fb
    /\ RouteResult.steps fb <> [].

(** ** Vocabulary of the scoring formula *)

Definition Qsum (xs : list Q) : Q := fold_right Qplus 0%Q xs.

(** The risk inputs of a quote are non-negative. *)
Definition riskInputsNonNegative (q : OTCQuote.t) : bool :=
  match OTCQuote.settlementMeta q with
  | Some meta =>
      Js.le 0 (SettlementMeta.settlementDays meta)
      && Js.le 0 (SettlementMeta.counterpartyRisk meta)
  | None => true
  end.

(** The risk of the quote is a number: the quote states a risk that is not
    zero, or its venue id is not the name of a member of
    [Object.prototype]. *)
Definition numericRisk (q : OTCQuote.t) : bool :=
  match OTCQuote.settlementMeta q with
  | Some meta => Js.truthy (SettlementMeta.counterpartyRisk meta)
  | None => false
  end
  || negb (Js.inherited (OTCQuote.venueId q)).

(** The quote states no risk of zero: its risk is the risk of its
    settlement data, or it has no settlement data. *)
Definition statesRisk (q : OTCQuote.t) : bool :=
  match OTCQuote.settlementMeta q with
  | Some meta => Js.truthy (SettlementMeta.counterpartyRisk meta)
  | None => true
  end.

(** ** The terms of the net output, as the specification words them *)

Module NetOutputSpec.

(** [settlementMeta.settlementDays], 0 for a quote without
    [settlementMeta]. *)
Definition settlementDays (q : OTCQuote.t) : Q :=
  match OTCQuote.settlementMeta q with
  | Some meta => SettlementMeta.settlementDays meta
  | None => 0%Q
  end.

(** The largest number of a list that is not empty. *)
Definition maximum (xs : list Q) : Q :=
  match xs with
  | [] => 0%Q
  | x :: rest => fold_left Qmax rest x
  end.

Definition maxSettlementDays (quotes : list OTCQuote.t) : Q :=
  maximum (List.map settlementDays quotes).

(** The default of a venue: 0.1 % for the BRL/EUR and MXN/USD desks, 0.2 %
    for the NGN/EUR desk, 0.05 % for the stablecoin desk, and 0.001 for every
    other venue. *)
Definition venueDefault (venueId : string) : Q :=
  if String.eqb venueId "otc:brl-eur:provider1" then (1 # 1000)%Q
  else if String.eqb venueId "otc:mxn-usd:provider1" then (1 # 1000)%Q
  else if String.eqb venueId "otc:ngn-eur:provider1" then (2 # 1000)%Q
  else if String.eqb venueId "otc:stablecoin:provider1" then (5 # 10000)%Q
  else (1 # 1000)%Q.

(** The counterparty risk of a quote: the risk of its [settlementMeta], and
    the default of its venue for a quote without [settlementMeta]. *)
Definition counterpartyRisk (q : OTCQuote.t) : Q :=
  match OTCQuote.settlementMeta q with
  | Some meta => SettlementMeta.counterpartyRisk meta
  | None => venueDefault (OTCQuote.venueId q)
  end.

(** The same, with a stated risk of zero counted as not stated. *)
Definition effectiveRisk (q : OTCQuote.t) : Q :=
  match OTCQuote.settlementMeta q with
  | Some meta =>
      if Qeq_bool (SettlementMeta.counterpartyRisk meta) 0
      then venueDefault (OTCQuote.venueId q)
      else SettlementMeta.counterpartyRisk meta
  | None => venueDefault (OTCQuote.venueId q)
  end.

Definition mean (xs : list Q) : Q :=
  (Qsum xs / inject_Z (Z.of_nat (length xs)))%Q.

(** The daily volatility of a pair [from/to]: 0.5 % for BRL/EUR, 0.4 % for
    MXN/USD, 0.8 % for NGN/EUR, and 0.005 for every other pair. *)
Definition pairVol (pair : string) : Q :=
  if String.eqb pair "BRL/EUR" then (5 # 1000)%Q
  else if String.eqb pair "MXN/USD" then (4 # 1000)%Q
  else if String.eqb pair "NGN/EUR" then (8 # 1000)%Q
  else (5 # 1000)%Q.

(** The pair of a route runs from the source of its first step to the
    destination of its last step. *)
Definition dailyVol (route : RouteResult.t) : Q :=
  match RouteResult.steps route with
  | [] => (5 # 1000)%Q
  | first :: _ =>
      pairVol (RouteStep.fromToken first ++ "/"
               ++ RouteStep.toToken (List.last (RouteResult.steps route) first))
  end.

Section WithSqrt.

Variable Math_sqrt : Q -> Q.

(** [max(0, g - g * dailyVol * sqrt(maxSettlementDays) * 1
            - g * avgCounterpartyRisk)]. *)
Definition netOutput (g : Q) (route : RouteResult.t) (quotes : list OTCQuote.t) : Q :=
  Qmax 0 (g - g * dailyVol route * Math_sqrt (maxSettlementDays quotes) * 1
            - g * mean (List.map counterpartyRisk quotes)).

End WithSqrt.

End NetOutputSpec.

Module ScoringSample.

(** A square root on the rationals, exact to six decimal places:
    [sqrt (n / d) = sqrt (n * d) / d]. *)
Definition sqrt6 (x : Q) : Q :=
  if Qnum x <=? 0 then 0%Q
  else Z.sqrt (Qnum x * Zpos (Qden x) * 10 ^ 12) # (Qden x * 1000000).

Definition meta (days risk : Q) : option SettlementMeta.t :=
  Some (SettlementMeta.mk days risk false (Some ["bank_transfer"])).

(** The two desks of the sample route, with their settlement terms. *)
Definition quotes : list OTCQuote.t :=
  [OTCQuote.mk "otc1" "BRL" "USDC" 10000 2000 None (Some 40%Q) 100000 None 0
     (meta 1 (1 # 1000));
   OTCQuote.mk "otc2" "USDC" "EUR" 2000 1840 None (Some 30%Q) 100000 None 0
     (meta (1 # 2) (1 # 10000))].

(** A desk that states a risk of zero. *)
Definition riskFree : list OTCQuote.t :=
  [OTCQuote.mk "otc1" "BRL" "EUR" 10000 1800 None None 100000 None 0
     (meta 0 0)].

(** A desk whose id is the name of a member of [Object.prototype]. *)
Definition constructorDesk : list OTCQuote.t :=
  [OTCQuote.mk "constructor" "BRL" "EUR" 10000 1800 None None 100000 None 0 None].

End ScoringSample.

(** A route over an OTC desk and a DEX pool. *)
Module MixedSample.

Definition pool : OTCQuote.t :=
  OTCQuote.mk "dex:orca" "USDC" "EUR" 2000 1840 None (Some 30%Q) 100000 None 0
    (ScoringSample.meta 2 (1 # 100)).

Definition batches : list (Z * list OTCQuote.t) :=
  [(0, [Sample.quote "otc1" "BRL" "USDC" 10000 2000 (Some 40%Q); pool])].

(** The route found for the sample request at instant 10. *)
Definition route : RouteResult.t :=
  Eval vm_compute in
    match OtcRoutingService.route
            (OtcRoutingService.getBestRoute (prefetch batches) 10 Sample.request) with
    | Some r => r
    | None => OtcRoutingService.mkRoute [] 0 0 0 0
    end.

End MixedSample.

(** ** Further vocabulary for the router *)

(** [getCachedQuotes]: the quotes of a pair, as loaded for the search. *)
Definition getCachedQuotes (st : store) (now : Z) (fromToken toToken : string)
  : list OTCQuote.t :=
  List.filter (fun _ => true) (OtcRoutingService.loadQuotes st now fromToken toToken).

(** No entry of the store is still alive at [now]. *)
Definition allExpired (st : store) (now : Z) : bool :=
  forallb (fun kv : string * entry => ent_expires kv.2 <=? now) (map_to_list st).

(** Step [s] is priced by a quote that is readable in the cache at [now],
    stays valid beyond [guard], accepts the amount entering the step, and
    yields the positive amount leaving it. *)
Definition pricedBy (st : store) (now guard : Z) (s : RouteStep.t) : Prop :=
  exists q k,
    Redis.get st now k = Some (VQuote q)
    /\ s = OtcRoutingService.toRouteStep q (RouteStep.amountIn s) (RouteStep.amountOut s)
    /\ guard < OTCQuote.expiry q
    /\ OtcRoutingService.tooLarge (RouteStep.amountIn s) q = false
    /\ RouteStep.amountOut s = OtcRoutingService.computeOutput (RouteStep.amountIn s) q
    /\ (0 < RouteStep.amountOut s)%Q.

(** One leg of a route as the search accepts it: the quote outlives the
    guard, accepts the amount [x], and its output for [x] is positive. *)
Definition legAccepted (guard : Z) (x : Q) (q : OTCQuote.t) : Prop :=
  OtcRoutingService.expired guard q = false
  /\ OtcRoutingService.tooLarge x q = false
  /\ Js.le (OtcRoutingService.computeOutput x q) 0 = false.

(** The three shapes of a candidate route. *)
Inductive candidateShape (now guard : Z) (a : Q) (quotes : OTCQuote.t -> Prop)
  : RouteResult.t -> Prop :=
| shape1 (q : OTCQuote.t) :
    quotes q -> legAccepted guard a q ->
    candidateShape now guard a quotes
      (let out := OtcRoutingService.computeOutput a q in
       OtcRoutingService.mkRoute [OtcRoutingService.toRouteStep q a out] a out
         (OtcRoutingService.fee q) now)
| shape2 (q1 q2 : OTCQuote.t) :
    quotes q1 -> quotes q2 ->
    legAccepted guard a q1 ->
    legAccepted guard (OtcRoutingService.computeOutput a q1) q2 ->
    candidateShape now guard a quotes
      (let m := OtcRoutingService.computeOutput a q1 in
       let out := OtcRoutingService.computeOutput m q2 in
       OtcRoutingService.mkRoute
         [OtcRoutingService.toRouteStep q1 a m; OtcRoutingService.toRouteStep q2 m out]
         a out (OtcRoutingService.fee q1 + OtcRoutingService.fee q2)%Q now)
| shape3 (q1 q2 q3 : OTCQuote.t) :
    quotes q1 -> quotes q2 -> quotes q3 ->
    legAccepted guard a q1 ->
    legAccepted guard (OtcRoutingService.computeOutput a q1) q2 ->
    legAccepted guard
      (OtcRoutingService.computeOutput (OtcRoutingService.computeOutput a q1) q2) q3 ->
    candidateShape now guard a quotes
      (let m1 := OtcRoutingService.computeOutput a q1 in
       let m2 := OtcRoutingService.computeOutput m1 q2 in
       let out := OtcRoutingService.computeOutput m2 q3 in
       OtcRoutingService.mkRoute
         [OtcRoutingService.toRouteStep q1 a m1; OtcRoutingService.toRouteStep q2 m1 m2;
          OtcRoutingService.toRouteStep q3 m2 out]
         a out
         (OtcRoutingService.fee q1 + OtcRoutingService.fee q2 + OtcRoutingService.fee q3)%Q
         now).

(** A quote that can be read in the cache at [now]. *)
Definition cachedAt (st : store) (now : Z) (q : OTCQuote.t) : Prop :=
  exists k, Redis.get st now k = Some (VQuote q).

(** The totals of a route agree with its steps. *)
Definition totalsAgree (amountIn : Q) (r : RouteResult.t) : Prop :=
  (1 <= length (RouteResult.steps r) <= 3)%nat
  /\ RouteResult.totalIn r = amountIn
  /\ option_map RouteStep.amountIn (head (RouteResult.steps r)) = Some amountIn
  /\ option_map RouteStep.amountOut (last (RouteResult.steps r))
     = Some (RouteResult.totalOut r)
  /\ (0 < RouteResult.totalOut r)%Q
  /\ (RouteResult.totalFeesBps r
      == Qsum (List.map RouteStep.feeBps (RouteResult.steps r)))%Q
  /\ RouteResult.effectiveRate r = (RouteResult.totalOut r / RouteResult.totalIn r)%Q.

(** ** Further vocabulary for the pipeline *)

(** The deposit record that [createDepositInstructions] stores. *)
Definition pendingDeposit (uuid quoteId clientId : string) (reservedQuote : ReservedQuote.t)
    (instructions : DepositInstructions.t) : DepositRecord.t :=
  {| DepositRecord.depositId := "deposit:" ++ uuid;
     DepositRecord.quoteId := quoteId;
     DepositRecord.clientId := clientId;
     DepositRecord.amountExpected := ReservedQuote.amountIn reservedQuote;
     DepositRecord.amountReceived := None;
     DepositRecord.depositInstructions := instructions;
     DepositRecord.status := PENDING;
     DepositRecord.receivedAt := None;
     DepositRecord.bankTxId := None;
     DepositRecord.paymentReference := DepositInstructions.paymentReference instructions |}.

(** ** Further vocabulary for executions *)

(** The store in which a run of the driver ends. *)
Definition outcomeStore (o : outcome) : store :=
  match o with
  | Returned st _ _ => st
  | Rejected st _ _ _ => st
  | Unfinished st _ _ => st
  end.

(** The transaction hashes that an executor produces for a list of steps. *)
Definition hashesOf (execute : StepExecutor) (steps : list RouteStep.t) : list string :=
  omap (fun step => match execute step with Ok h => Some h | Throw _ => None end) steps.

(** The executor settles every step of the list. *)
Definition settlesAll (execute : StepExecutor) (steps : list RouteStep.t) : bool :=
  forallb (fun step => match execute step with Ok _ => true | Throw _ => false end) steps.

Module Approval.

(** An execution of the sample route, which runs over OTC desks and
    therefore waits for approval. *)
Definition created : store * ExecutionRecord.t :=
  ExecutionService.createExecution ∅ 0 "run-3" "tok-3" "quote:q-3" Sample.best None.

Definition executionId : string := "exec:run-3".
Definition token : string := "approval:tok-3".

End Approval.

(** The part of a record that the driver's loop rewrites: the current step
    and the transaction hashes. *)
Definition progress (currentStep : option nat) (hashes : option (list string)) : Updates.t :=
  {| Updates.route := None; Updates.status := None; Updates.approvalToken := None;
     Updates.transactionHashes := Some hashes; Updates.currentStep := Some currentStep;
     Updates.completedAt := None; Updates.error := None |}.

(** The update written when a run ends well. *)
Definition completion (hashes : list string) (at_ : Z) : Updates.t :=
  {| Updates.route := None; Updates.status := Some COMPLETED;
     Updates.approvalToken := None;
     Updates.transactionHashes := Some (Some hashes);
     Updates.currentStep := Some None;
     Updates.completedAt := Some (Some at_); Updates.error := None |}.

(** The state of a record that failed at step [i] with [hashes] collected. *)
Definition failure (i : nat) (hashes : list string) (message : string) (at_ : Z) : Updates.t :=
  {| Updates.route := None; Updates.status := Some FAILED;
     Updates.approvalToken := None;
     Updates.transactionHashes := Some (Some hashes);
     Updates.currentStep := Some (Some i);
     Updates.completedAt := Some (Some at_); Updates.error := Some (Some message) |}.

(** The record after the switch to the fallback route [fb]. *)
Definition switched (e : ExecutionRecord.t) (fb : RouteResult.t) : ExecutionRecord.t :=
  ExecutionService.merge e
    {| Updates.route := Some fb; Updates.status := Some EXECUTING;
       Updates.approvalToken := None;
       Updates.transactionHashes := Some (Some []);
       Updates.currentStep := Some (Some 0%nat);
       Updates.completedAt := None; Updates.error := Some None |}.

(** The instant reached after [n] steps, each preceded by the 2 s delay. *)
Definition afterSteps (now : Z) (n : nat) : Z := now + 2000 * Z.of_nat n.

Module Runs.

(** A step executor on which the venue [dex:jupiter] fails and every other
    venue settles. *)
Definition picky : StepExecutor :=
  fun step =>
    if String.eqb (RouteStep.venueId step) "dex:jupiter"
    then Throw (Error "slippage exceeded")
    else Ok ("0x" ++ RouteStep.venueId step).

(** The record of the execution of [Retry.started]. *)
Definition record : ExecutionRecord.t :=
  (ExecutionService.createExecution ∅ 0 "run-2" "tok-2" "quote:q-2" Retry.primary
     (Some Retry.fallback)).2.

(** The same execution without a fallback route. *)
Definition alone : store * ExecutionRecord.t :=
  ExecutionService.createExecution ∅ 0 "run-4" "tok-4" "quote:q-4" Retry.primary None.

End Runs.

(** ** Vocabulary for an accepted quote *)

(** The reservation written when the quote [p] is accepted at [now]. *)
Definition reservationOf (now : Z) (ids : RoutingController.Uuids)
    (request : RoutingController.ExecuteRequest) (p : ProvisionalQuote.t)
    (meta : option OtcReservationMeta.t) : ReservedQuote.t :=
  {| ReservedQuote.provisional := p;
     ReservedQuote.reservationId := "reservation:" ++ RoutingController.uuidReservation ids;
     ReservedQuote.reservedByClient := RoutingController.req_clientId request;
     ReservedQuote.reservedUntilTs := now + 300000;
     ReservedQuote.otcReservationMeta := meta |}.

(** The store after the reservation of [p]. *)
Definition reservedStore (st : store) (now : Z) (ids : RoutingController.Uuids)
    (request : RoutingController.ExecuteRequest) (p : ProvisionalQuote.t)
    (meta : option OtcReservationMeta.t) : store :=
  Redis.del
    (Redis.set_ex st now (RedisKey.reservedQuote (RoutingController.req_quoteId request))
       (VReserved (reservationOf now ids request p meta))
       QuoteLifecycleService.RESERVED_TTL_SEC)
    (RedisKey.provisionalQuote (RoutingController.req_quoteId request)).

(** The deposit instructions created for that reservation, with the store
    that holds the deposit record. *)
Definition depositOf (st : store) (now : Z) (ids : RoutingController.Uuids)
    (request : RoutingController.ExecuteRequest) (p : ProvisionalQuote.t)
    (meta : option OtcReservationMeta.t) : store * DepositInstructions.t :=
  DepositService.createDepositInstructions (reservedStore st now ids request p meta) now
    (RoutingController.uuidDeposit ids) (RoutingController.req_quoteId request)
    (RoutingController.req_clientId request) (reservationOf now ids request p meta).

(** The execution record created for the route [r] of the quote. *)
Definition executionOf (st : store) (now : Z) (ids : RoutingController.Uuids)
    (request : RoutingController.ExecuteRequest) (p : ProvisionalQuote.t)
    (r : RouteResult.t) (meta : option OtcReservationMeta.t)
  : store * ExecutionRecord.t :=
  ExecutionService.createExecution (depositOf st now ids request p meta).1 now
    (RoutingController.uuidExecution ids) (RoutingController.uuidApproval ids)
    (RoutingController.req_quoteId request) r None.

(** The record as the acceptance leaves it, waiting for the deposit. *)
Definition awaitingDeposit (st : store) (now : Z) (ids : RoutingController.Uuids)
    (request : RoutingController.ExecuteRequest) (p : ProvisionalQuote.t)
    (r : RouteResult.t) (meta : option OtcReservationMeta.t) : ExecutionRecord.t :=
  ExecutionService.merge (executionOf st now ids request p r meta).2
    (RoutingController.setStatus PENDING_APPROVAL).

(** The store that the acceptance leaves behind. *)
Definition acceptedStore (st : store) (now : Z) (ids : RoutingController.Uuids)
    (request : RoutingController.ExecuteRequest) (p : ProvisionalQuote.t)
    (r : RouteResult.t) (meta : option OtcReservationMeta.t) : store :=
  ExecutionService.saveExecution (executionOf st now ids request p r meta).1 now
    (awaitingDeposit st now ids request p r meta).

(** The store after a deposit notification that arrives in time. *)
Definition paidStore (st : store) (now t : Z) (ids : RoutingController.Uuids)
    (request : RoutingController.ExecuteRequest) (p : ProvisionalQuote.t)
    (r : RouteResult.t) (meta : option OtcReservationMeta.t)
    (amount : Q) (tx : option string) : store :=
  ExecutionService.saveExecution
    (Redis.set_ex (acceptedStore st now ids request p r meta) t
       (RedisKey.deposit ("deposit:" ++ RoutingController.uuidDeposit ids))
       (VDeposit
          (DepositService.confirmed
             (pendingDeposit (RoutingController.uuidDeposit ids)
                (RoutingController.req_quoteId request)
                (RoutingController.req_clientId request)
                (reservationOf now ids request p meta)
                (depositOf st now ids request p meta).2)
             t amount tx))
       DepositService.DEPOSIT_TTL_SEC)
    t (ExecutionService.merge (awaitingDeposit st now ids request p r meta)
         (RoutingController.setStatus EXECUTING)).

(** ** Vocabulary for the scoring lookup *)



(** ** The quote endpoint *)

Module QuoteEndpoint.

Record QuoteRequest := mkQuoteRequest {
  amountIn : Q;
  fromToken : string;
  toToken : string;
  intermediates : option (list string);
  minExpiryMs : option Z
}.

Record ScoringSummary := mkScoringSummary {
  settlementDays : Q;
  counterpartyRisk : Js.num;
  timePenalty : Js.num
}.

(** One entry of [QuoteResponseV2.quotes]. *)
Record QuoteV2 := mkQuoteV2 {
  quoteId : string;
  route : RouteResult.t;
  amountOut : Q;
  netAmountOut : Js.num;
  expiryTs : Z;
  type : QuoteType;
  confidence : Js.num;
  scoringMeta : ScoringSummary
}.

(** [request.minExpiryMs || 5000]. *)
Definition minExpiryOf (request : QuoteRequest) : Z :=
  match minExpiryMs request with
  | Some m => if m =? 0 then 5000 else m
  | None => 5000
  end.

(** The request that [getFallbackRoutes] sends for one intermediary. *)
Definition fallbackRequest (request : QuoteRequest) (intermediate : string)
  : OtcRoutingService.BestRouteRequest :=
  OtcRoutingService.mkRequest (amountIn request) (fromToken request) (toToken request)
    (Some [intermediate]) (Some (minExpiryOf request)).

(** The loop of [getFallbackRoutes] over the intermediaries still to try,
    with the routes collected so far.  [search] is what the routing service
    answers to each request of the loop: [(await getBestRoute(...)).route]. *)
Fixpoint fallbackLoop
    (search : OtcRoutingService.BestRouteRequest -> option RouteResult.t)
    (request : QuoteRequest) (intermediaries : list string)
    (fallbacks : list RouteResult.t)
  : list RouteResult.t :=
  match intermediaries with
  | [] => fallbacks
  | intermediate :: rest =>
      if String.eqb intermediate (fromToken request)
         || String.eqb intermediate (toToken request)
      then fallbackLoop search request rest fallbacks
      else
        match search (fallbackRequest request intermediate) with
        | Some route =>
            let fallbacks' := (fallbacks ++ [route])%list in
            (* Limit to 2 fallbacks *)
            if (2 <=? length fallbacks')%nat then fallbacks'
            else fallbackLoop search request rest fallbacks'
        | None => fallbackLoop search request rest fallbacks
        end
  end.

Definition getFallbackRoutes
    (search : OtcRoutingService.BestRouteRequest -> option RouteResult.t)
    (request : QuoteRequest) : list RouteResult.t :=
  fallbackLoop search request ["USDC"; "USDT"; "EURC"; "EUR"] [].

(** The answers of the routing service to searches that no other call
    overlaps, in the cache [st] at the instant [now]. *)
Definition undisturbed (st : store) (now : Z)
    (req : OtcRoutingService.BestRouteRequest) : option RouteResult.t :=
  OtcRoutingService.route (OtcRoutingService.getBestRoute st now req).

(** [quotes.sort((a, b) => b.netAmountOut - a.netAmountOut)]: the sort is
    stable, so a quote is placed behind the quotes with a larger net amount
    and ahead of the later quotes with the same net amount.  A difference
    that is [NaN] counts as 0 for the sort; the comparison is then not an
    order, and the language leaves the resulting order to the engine: the
    theorems speak of the order only for net amounts that are numbers. *)
Fixpoint insertQuote (x : QuoteV2) (sorted : list QuoteV2) : list QuoteV2 :=
  match sorted with
  | [] => [x]
  | y :: rest =>
      if Js.gtN (netAmountOut y) (netAmountOut x) then y :: insertQuote x rest
      else x :: y :: rest
  end.

Definition sortQuotes (quotes : list QuoteV2) : list QuoteV2 :=
  fold_right insertQuote [] quotes.

Section WithSqrt.

Variable Math_sqrt : Q -> Q.

(** The block that [getQuotesV2] runs for the primary route and for each
    fallback route: look up the quotes of the route, score it, store the
    provisional quote, and build the entry of the response. *)
Definition quoteRoute (st : store) (now : Z) (uuid : string) (request : QuoteRequest)
    (route : RouteResult.t) : store * QuoteV2 :=
  let routeQuotes := RoutingController.getQuotesForRoute st now route in
  let scoringMeta :=
    SettlementScoringService.getScoringMetadata Math_sqrt route routeQuotes in
  let netAmountOut :=
    SettlementScoringService.calculateNetOutput Math_sqrt (RouteResult.totalOut route)
      route routeQuotes in
  let '(st1, provisional) :=
    QuoteLifecycleService.storeProvisionalQuote st now uuid (Some route)
      (amountIn request) (RouteResult.totalOut route) netAmountOut
      (RouteResult.totalFeesBps route) scoringMeta
      (RoutingController.getRouteType route) in
  (st1,
   {| quoteId := ProvisionalQuote.quoteId provisional;
      route := route;
      amountOut := RouteResult.totalOut route;
      netAmountOut := netAmountOut;
      expiryTs := ProvisionalQuote.expiryTs provisional;
      type := ProvisionalQuote.type provisional;
      confidence := ScoringMeta.confidence scoringMeta;
      scoringMeta :=
        {| settlementDays := ScoringMeta.settlementDays scoringMeta;
           counterpartyRisk := ScoringMeta.counterpartyRisk scoringMeta;
           timePenalty := ScoringMeta.timePenalty scoringMeta |} |}).

(** The state of the call while it collects quotes: the store, the quotes
    pushed so far, and the number of quote ids drawn. *)
Definition pushQuote (now : Z) (uuid : nat -> string) (request : QuoteRequest)
    (acc : store * list QuoteV2 * nat) (route : RouteResult.t)
  : store * list QuoteV2 * nat :=
  let '(st, quotes, n) := acc in
  let '(st1, quote) := quoteRoute st now (uuid n) request route in
  (st1, (quotes ++ [quote])%list, S n).

(** [getQuotesV2]; [uuid n] is the n-th id drawn by [uuidv4()] during the
    call, and the call is taken to run within the instant [now], with no
    other call overlapping its searches. *)
Definition getQuotesV2 (st : store) (now : Z) (uuid : nat -> string)
    (request : QuoteRequest) : result (store * list QuoteV2) :=
  if negb (Js.truthy (amountIn request)) || Js.le (amountIn request) 0
  then Throw (BadRequestException "amountIn must be positive")
  else if RoutingController.isEmpty (fromToken request)
          || RoutingController.isEmpty (toToken request)
  then Throw (BadRequestException "fromToken and toToken are required")
  else
    (* Get primary route *)
    let routeResult :=
      OtcRoutingService.getBestRoute st now
        (OtcRoutingService.mkRequest (amountIn request) (fromToken request)
           (toToken request) (intermediates request) (Some (minExpiryOf request))) in
    let primary :=
      match OtcRoutingService.route routeResult with
      | Some route => pushQuote now uuid request (st, [], 0%nat) route
      | None => (st, [], 0%nat)
      end in
    (* Get fallback routes *)
    let fallbackRoutes := getFallbackRoutes (undisturbed primary.1.1 now) request in
    let '(st2, quotes, _) :=
      fold_left (pushQuote now uuid request) (firstn 2 fallbackRoutes) primary in
    (* Sort by netAmountOut (best first) *)
    Ok (st2, sortQuotes quotes).

End WithSqrt.

End QuoteEndpoint.

(** ** Vocabulary for the quote endpoint *)

(** The provisional quote that stands behind an entry of the response. *)
Definition provisionalOf (now : Z) (request : QuoteEndpoint.QuoteRequest)
    (quote : QuoteEndpoint.QuoteV2) : ProvisionalQuote.t :=
  {| ProvisionalQuote.quoteId := QuoteEndpoint.quoteId quote;
     ProvisionalQuote.route := Some (QuoteEndpoint.route quote);
     ProvisionalQuote.amountIn := QuoteEndpoint.amountIn request;
     ProvisionalQuote.amountOut := QuoteEndpoint.amountOut quote;
     ProvisionalQuote.netAmountOut := QuoteEndpoint.netAmountOut quote;
     ProvisionalQuote.feeBps := RouteResult.totalFeesBps (QuoteEndpoint.route quote);
     ProvisionalQuote.expiryTs := QuoteEndpoint.expiryTs quote;
     ProvisionalQuote.createdTs := now;
     ProvisionalQuote.scoringMeta :=
       {| ScoringMeta.settlementDays :=
            QuoteEndpoint.settlementDays (QuoteEndpoint.scoringMeta quote);
          ScoringMeta.counterpartyRisk :=
            QuoteEndpoint.counterpartyRisk (QuoteEndpoint.scoringMeta quote);
          ScoringMeta.timePenalty :=
            QuoteEndpoint.timePenalty (QuoteEndpoint.scoringMeta quote);
          ScoringMeta.confidence := QuoteEndpoint.confidence quote |};
     ProvisionalQuote.type := QuoteEndpoint.type quote |}.




Module QuoteSample.

Definition uuid (n : nat) : string :=
  match n with
  | O => "q-1"
  | S O => "q-2"
  | _ => "q-3"
  end.

(** BRL to USDC, quoted directly by two desks. *)
Definition batches : list (Z * list OTCQuote.t) :=
  [(0, [Sample.quote "otc1" "BRL" "USDC" 10000 2000 (Some 40%Q);
        Sample.quote "dex:orca" "BRL" "USDC" 10000 1990 (Some 20%Q);
        Sample.quote "otc2" "BRL" "EURC" 10000 1800 None;
        Sample.quote "dex:jupiter" "EURC" "USDC" 1800 1995 (Some 10%Q)])].

Definition request : QuoteEndpoint.QuoteRequest :=
  QuoteEndpoint.mkQuoteRequest 10000 "BRL" "USDC" None None.

End QuoteSample.


(** The fields of an entry that are read off its route. *)
Definition quoteShaped (now : Z) (quote : QuoteEndpoint.QuoteV2) : Prop :=
  QuoteEndpoint.expiryTs quote = now + 15000
  /\ QuoteEndpoint.type quote = RoutingController.getRouteType (QuoteEndpoint.route quote)
  /\ QuoteEndpoint.amountOut quote = RouteResult.totalOut (QuoteEndpoint.route quote).


(** The request that [getQuote] and [getQuotesV2] send for the primary
    route. *)
Definition primaryRequest (request : QuoteEndpoint.QuoteRequest)
  : OtcRoutingService.BestRouteRequest :=
  OtcRoutingService.mkRequest (QuoteEndpoint.amountIn request)
    (QuoteEndpoint.fromToken request) (QuoteEndpoint.toToken request)
    (QuoteEndpoint.intermediates request) (Some (QuoteEndpoint.minExpiryOf request)).

(** The request names no intermediaries, so that the primary search uses
    USDC, USDT and EURC. *)
Definition usesDefaults (request : QuoteEndpoint.QuoteRequest) : bool :=
  match QuoteEndpoint.intermediates request with
  | Some (_ :: _) => false
  | _ => true
  end.

(** [route] is the answer of the routing service to the fallback request
    for the intermediary [mid], which is one of the four tried and not an
    endpoint. *)
Definition fallbackVia
    (search : OtcRoutingService.BestRouteRequest -> option RouteResult.t)
    (request : QuoteEndpoint.QuoteRequest) (mid : string) (route : RouteResult.t)
  : Prop :=
  In mid ["USDC"; "USDT"; "EURC"; "EUR"]
  /\ mid <> QuoteEndpoint.fromToken request
  /\ mid <> QuoteEndpoint.toToken request
  /\ search (QuoteEndpoint.fallbackRequest request mid) = Some route.

Module QuoteRun.

(** The answer to the sample request at instant 10. *)
Definition result : store * list QuoteEndpoint.QuoteV2 :=
  match QuoteEndpoint.getQuotesV2 ScoringSample.sqrt6 (prefetch QuoteSample.batches) 10
          QuoteSample.uuid QuoteSample.request with
  | Ok answer => answer
  | Throw _ => (∅, [])
  end.

End QuoteRun.

Module GlobSample.

(** Quotes whose symbols are read as patterns by a scan. *)
Definition bracket : OTCQuote.t := Sample.quote "otc1" "US[D]" "EUR" 1000 900 None.
Definition usd : OTCQuote.t := Sample.quote "otc1" "USD" "EUR" 1000 900 None.

(** A request whose source symbol ends in [*], served from the sample
    cache, whose quotes start at BRL. *)
Definition request : OtcRoutingService.BestRouteRequest :=
  OtcRoutingService.mkRequest 10000 "B*" "USDC" None None.

End GlobSample.

(** * Properties *)

(** ** Comparisons and truthiness *)

Lemma truthy_true (x : Q) : Js.truthy x = true <-> ~ (x == 0)%Q.
Proof.
  unfold Js.truthy. rewrite negb_true_iff, <- not_true_iff_false, Qeq_bool_iff. tauto.
Qed.

Lemma truthy_false (x : Q) : Js.truthy x = false <-> (x == 0)%Q.
Proof.
  unfold Js.truthy. rewrite negb_false_iff, Qeq_bool_iff. tauto.
Qed.

Lemma le_true (a b : Q) : Js.le a b = true <-> (a <= b)%Q.
Proof. unfold Js.le. apply Qle_bool_iff. Qed.

Lemma le_false (a b : Q) : Js.le a b = false <-> (b < a)%Q.
Proof.
  unfold Js.le. rewrite <- not_true_iff_false, Qle_bool_iff. split.
  - apply Qnot_le_lt.
  - apply Qlt_not_le.
Qed.

Lemma gt_true (a b : Q) : Js.gt a b = true <-> (b < a)%Q.
Proof. unfold Js.gt. rewrite negb_true_iff. apply le_false. Qed.

Lemma gt_false (a b : Q) : Js.gt a b = false <-> (a <= b)%Q.
Proof. unfold Js.gt. rewrite negb_false_iff. apply le_true. Qed.

Lemma max_cases (a b : Q) :
  ((a <= b)%Q /\ Js.max a b = b) \/ ((b < a)%Q /\ Js.max a b = a).
Proof.
  unfold Js.max. destruct (Qle_bool a b) eqn:E.
  - left. split; [ now apply Qle_bool_iff | reflexivity ].
  - right. split; [ now apply le_false | reflexivity ].
Qed.

(** ** The router *)

Section Router.

Import OtcRoutingService.

(** C4.  For a quote with a positive reference size and any positive input
    [x], the per-leg output is [x * (amountOut / amountIn) * (1 - f / 10000)],
    where [f] is the quote's fee in basis points and a missing fee counts as
    zero. *)
Theorem computeOutput_formula (q : OTCQuote.t) (x : Q) :
  (0 < OTCQuote.amountIn q)%Q ->
  (0 < x)%Q ->
  (computeOutput x q ==
   x * (OTCQuote.amountOut q / OTCQuote.amountIn q)
     * (1 - Js.nullish (OTCQuote.feeBps q) 0 / 10000))%Q.
Proof.
  intros Ha _. unfold computeOutput.
  assert (Ht : Js.truthy (OTCQuote.amountIn q) = true).
  { apply truthy_true. intros E. rewrite E in Ha. now apply Qlt_irrefl in Ha. }
  assert (Hl : Js.le (OTCQuote.amountIn q) 0 = false) by now apply le_false.
  rewrite Ht, Hl. cbn [negb orb].
  destruct (OTCQuote.feeBps q) as [f|]; cbn [Js.nullish].
  - destruct (Js.truthy f) eqn:Hf.
    + field. intros E. rewrite E in Ha. now apply Qlt_irrefl in Ha.
    + apply truthy_false in Hf. rewrite Hf. field.
      intros E. rewrite E in Ha. now apply Qlt_irrefl in Ha.
  - field. intros E. rewrite E in Ha. now apply Qlt_irrefl in Ha.
Qed.

Lemma computeOutput_formula_witness :
  (computeOutput 10000
     (OTCQuote.mk "otc1" "BRL" "USDC" 10000 2000 None (Some 40%Q) 100000 None 0 None)
   == 10000 * (2000 / 10000) * (1 - 40 / 10000))%Q.
Proof.
  apply (computeOutput_formula
           (OTCQuote.mk "otc1" "BRL" "USDC" 10000 2000 None (Some 40%Q) 100000 None 0 None)
           10000); reflexivity.
Defined.

(** [updateBest] folded over a list keeps a route of the list (or the
    starting one) whose output is not below any route seen. *)
Lemma updateBest_fold (l : list RouteResult.t) (b0 : RouteResult.t) :
  exists r, fold_left updateBest l (Some b0) = Some r
            /\ (r = b0 \/ In r l)
            /\ (RouteResult.totalOut b0 <= RouteResult.totalOut r)%Q
            /\ (forall c, In c l -> (RouteResult.totalOut c <= RouteResult.totalOut r)%Q).
Proof.
  revert b0. induction l as [|c l IH]; intros b0; cbn [fold_left].
  - exists b0. repeat split; auto using Qle_refl. intros c [].
  - unfold updateBest at 2.
    destruct (Js.gt (RouteResult.totalOut c) (RouteResult.totalOut b0)) eqn:G.
    + apply gt_true in G.
      destruct (IH c) as (r & Hr & Hin & Hle & Hall).
      exists r. repeat split; auto.
      * destruct Hin as [->|Hin]; right; [ now left | now right ].
      * apply Qle_trans with (RouteResult.totalOut c); auto using Qlt_le_weak.
      * intros c' [<-|Hc']; auto.
    + apply gt_false in G.
      destruct (IH b0) as (r & Hr & Hin & Hle & Hall).
      exists r. repeat split; auto.
      * destruct Hin as [->|Hin]; [ now left | right; now right ].
      * intros c' [<-|Hc']; auto. now apply Qle_trans with (RouteResult.totalOut b0).
Qed.

Lemma updateBest_fold_none (l : list RouteResult.t) (best : RouteResult.t) :
  fold_left updateBest l None = Some best ->
  In best l /\ forall c, In c l -> (RouteResult.totalOut c <= RouteResult.totalOut best)%Q.
Proof.
  destruct l as [|c l]; cbn [fold_left updateBest]; [ discriminate | ].
  intros H. destruct (updateBest_fold l c) as (r & Hr & Hin & Hle & Hall).
  rewrite Hr in H. injection H as <-. split.
  - destruct Hin as [->|Hin]; [ now left | now right ].
  - intros c' [<-|Hc']; auto.
Qed.

Lemma concat_appendLast (chunks : list (list RouteResult.t)) (chunk tail : list RouteResult.t) :
  concat (appendLast (chunk :: chunks) tail) = (concat (chunk :: chunks) ++ tail)%list.
Proof.
  revert chunk. induction chunks as [|c chunks IH]; intros chunk.
  - cbn. now rewrite !app_nil_r.
  - change (appendLast (chunk :: c :: chunks) tail)
      with (chunk :: appendLast (c :: chunks) tail).
    cbn [concat]. rewrite IH. cbn [concat]. now rewrite app_assoc.
Qed.

(** The stretches of a call hold its candidates, in order. *)
Lemma concat_stretches (st : store) (now : Z) (req : BestRouteRequest) :
  concat (stretches st now req) = candidates st now req.
Proof.
  unfold stretches, candidates. cbv zeta. rewrite concat_appendLast.
  cbn [concat]. rewrite <- flat_map_concat_map. now rewrite <- app_assoc.
Qed.

Lemma alone_compare (chunks : list (list RouteResult.t)) (field : option RouteResult.t) :
  alone field (List.map Compare chunks) = fold_left updateBest (concat chunks) field.
Proof.
  unfold alone. revert field. induction chunks as [|c chunks IH]; intros field;
    [ reflexivity | ].
  cbn [List.map fold_left concat act]. now rewrite IH, fold_left_app.
Qed.

(** A call that runs alone compares all its candidates, starting from an
    empty field whatever the field held before. *)
Lemma alone_actions (st : store) (now : Z) (req : BestRouteRequest)
    (field : option RouteResult.t) :
  alone field (actions st now req) = fold_left updateBest (candidates st now req) None.
Proof.
  unfold actions.
  change (alone field (Clear :: List.map Compare (stretches st now req)))
    with (alone None (List.map Compare (stretches st now req))).
  now rewrite alone_compare, concat_stretches.
Qed.

Lemma getBestRoute_route (st : store) (now : Z) (req : BestRouteRequest) :
  route (getBestRoute st now req) = fold_left updateBest (candidates st now req) None.
Proof. apply alone_actions. Qed.

(** A call that runs alone returns one of its candidates, and none of them
    has a larger output. *)
Lemma alone_optimal (st : store) (now : Z) (req : BestRouteRequest)
    (field : option RouteResult.t) (best : RouteResult.t) :
  alone field (actions st now req) = Some best ->
  In best (candidates st now req)
  /\ forall c, In c (candidates st now req) ->
               (RouteResult.totalOut c <= RouteResult.totalOut best)%Q.
Proof. rewrite alone_actions. apply updateBest_fold_none. Qed.

(** Two calls of which the second starts after the first has returned:
    each runs alone. *)
Lemma overlap_sequential (first second : list action)
    (field r1 r2 : option RouteResult.t) :
  first <> [] -> second <> [] ->
  overlap [] first second field r1 r2
  = (alone field first, alone (alone field first) second).
Proof. destruct first, second; try congruence. reflexivity. Qed.

(** C3.  The best route so far is kept in a field of the service, which
    every call clears when it starts.  A call that no other call overlaps
    returns one of the candidates built by its 1-, 2- and 3-hop searches, and
    no candidate of the call has a larger [totalOut], whatever the field held
    before.  A call that is overlapped can return less than a candidate it
    built: with the desks BRL -> USDC -> EUR and a direct desk BRL -> EUR in
    the cache, the call for 10000 BRL builds the 2-hop route, which yields
    1827.14208 EUR; a second call that starts while the first awaits the legs
    of its 3-hop search clears the field, and the first call returns the
    direct route, which yields 1000 EUR.  The second call, for MXN -> USD,
    builds no candidate and returns that same route. *)
Theorem getBestRoute_overlapped :
  (forall (st : store) (now : Z) (req : BestRouteRequest)
          (field : option RouteResult.t) (best : RouteResult.t),
      alone field (actions st now req) = Some best ->
      In best (candidates st now req)
      /\ forall c, In c (candidates st now req) ->
                   (RouteResult.totalOut c <= RouteResult.totalOut best)%Q)
  /\ exists returned built,
       Sample.overlapped.1 = Some returned
       /\ In built (candidates (prefetch Sample.directBatches) 10 Sample.request)
       /\ List.map RouteStep.venueId (RouteResult.steps returned) = ["otcD"]
       /\ List.map RouteStep.venueId (RouteResult.steps built) = ["otc1"; "otc2"]
       /\ (RouteResult.totalOut returned == 1000)%Q
       /\ (RouteResult.totalOut built == 182714208 # 100000)%Q
       /\ (RouteResult.totalOut returned < RouteResult.totalOut built)%Q
       /\ candidates (prefetch Sample.directBatches) 11 Sample.otherRequest = []
       /\ Sample.overlapped.2 = Some returned.
Proof.
  split; [ exact alone_optimal | ].
  destruct (Sample.overlapped.1) as [returned|] eqn:E;
    [ | vm_compute in E; discriminate ].
  exists returned, Sample.best. split; [ reflexivity | ].
  vm_compute in E. injection E as <-.
  split; [ vm_compute; left; reflexivity | ].
  repeat split; vm_compute; reflexivity.
Qed.

End Router.

(** ** Keys of the edge cache *)

Section EdgeKeys.

Import OtcRoutingService.

Lemma prefix_cons (a b : ascii) (s t : string) :
  String.prefix (String a s) (String b t)
  = if ascii_dec a b then String.prefix s t else false.
Proof. reflexivity. Qed.

Lemma append_cons (a : ascii) (s t : string) : String a s ++ t = String a (s ++ t).
Proof. reflexivity. Qed.

Lemma append_nil (t : string) : "" ++ t = t.
Proof. reflexivity. Qed.

Lemma prefix_app_same (p s t : string) :
  String.prefix (p ++ s) (p ++ t) = String.prefix s t.
Proof.
  induction p as [|a p IH]; [ reflexivity | ].
  rewrite !append_cons, prefix_cons.
  destruct (ascii_dec a a); [ exact IH | congruence ].
Qed.



(** *** Patterns that match by their prefix *)

Lemma star_all (k : string) : Glob.matches "*" k = true.
Proof.
  induction k as [|c k IH]; [ reflexivity | ].
  change (Glob.matches "*" (String c k)) with (false || Glob.matches "*" k).
  exact IH.
Qed.

Lemma matches_literal_cons (a : ascii) (p k : string) :
  Glob.meta a = false ->
  Glob.matches (String a p) k
  = match k with
    | EmptyString => false
    | String c k' => Ascii.eqb a c && Glob.matches p k'
    end.
Proof.
  unfold Glob.meta. rewrite !orb_false_iff. intros [[[H1 H2] H3] H4].
  destruct k as [|c k']; cbn [Glob.matches]; rewrite H1; [ reflexivity | ].
  now rewrite H2, H3, H4.
Qed.

(** A pattern made of a text without metacharacters and a final [*]
    matches the keys that start with the text. *)
Lemma matches_prefix_star (p k : string) :
  globFree p = true -> Glob.matches (p ++ "*") k = String.prefix p k.
Proof.
  revert k. induction p as [|a p IH]; intros k Hp.
  - rewrite append_nil, star_all. now destruct k.
  - cbn [globFree] in Hp. apply andb_true_iff in Hp as [Ha Hp].
    apply negb_true_iff in Ha. rewrite append_cons, matches_literal_cons by exact Ha.
    destruct k as [|c k]; [ reflexivity | ].
    rewrite prefix_cons, IH by exact Hp.
    destruct (ascii_dec a c) as [->|Hne].
    + now rewrite Ascii.eqb_refl.
    + apply Ascii.eqb_neq in Hne. now rewrite Hne.
Qed.

Lemma globFree_app (s t : string) :
  globFree (s ++ t) = globFree s && globFree t.
Proof.
  induction s as [|a s IH]; [ reflexivity | ].
  rewrite append_cons. cbn [globFree]. now rewrite IH, andb_assoc.
Qed.


Lemma string_app_assoc (s t u : string) : (s ++ t) ++ u = s ++ t ++ u.
Proof.
  induction s as [|a s IH]; [ reflexivity | ].
  rewrite !append_cons. now rewrite IH.
Qed.

Lemma otcPattern_prefix (F T k : string) :
  globFree F = true -> globFree T = true ->
  Glob.matches (otcPattern F T) k = String.prefix (otcPrefix F T) k.
Proof.
  intros HF HT.
  replace (otcPattern F T) with (otcPrefix F T ++ "*").
  - apply matches_prefix_star. unfold otcPrefix, RedisKey.otcQuote.
    rewrite !globFree_app, HF, HT. reflexivity.
  - unfold otcPattern, otcPrefix, RedisKey.otcQuote.
    rewrite !string_app_assoc. reflexivity.
Qed.

Lemma dexPattern_prefix (F T k : string) :
  globFree F = true -> globFree T = true ->
  Glob.matches (dexPattern F T) k = String.prefix (dexPrefix F T) k.
Proof.
  intros HF HT.
  replace (dexPattern F T) with (dexPrefix F T ++ "*").
  - apply matches_prefix_star. unfold dexPrefix.
    rewrite !globFree_app, HF, HT. reflexivity.
  - unfold dexPattern, dexPrefix. rewrite !string_app_assoc. reflexivity.
Qed.












End EdgeKeys.

(** ** Shape of the routes of a call *)

Section Chains.

Import OtcRoutingService.

Ltac skip_guards H :=
  repeat match type of H with
         | In _ (if ?c then [] else _) => destruct c; [ destruct H | ]
         end.

Lemma oneHopRoutes_steps (now guard : Z) (a : Q) (qs : list OTCQuote.t) (r : RouteResult.t) :
  In r (oneHopRoutes now guard a qs) ->
  exists q out, In q qs /\ RouteResult.steps r = [toRouteStep q a out].
Proof.
  unfold oneHopRoutes. rewrite in_flat_map. intros (q & Hq & H).
  cbv zeta in H. skip_guards H. destruct H as [<-|[]]. eauto.
Qed.

Lemma twoHopRoutes_steps (now guard : Z) (a : Q) (l1 l2 : list OTCQuote.t)
    (r : RouteResult.t) :
  In r (twoHopRoutes now guard a l1 l2) ->
  exists q1 q2 m out, In q1 l1 /\ In q2 l2
    /\ RouteResult.steps r = [toRouteStep q1 a m; toRouteStep q2 m out].
Proof.
  unfold twoHopRoutes. rewrite in_flat_map. intros (q1 & Hq1 & H).
  cbv zeta in H. skip_guards H. rewrite in_flat_map in H. destruct H as (q2 & Hq2 & H).
  skip_guards H. destruct H as [<-|[]]. eauto 8.
Qed.









(** A requested symbol is read as a pattern: the request for ["B*"] is
    served with the quotes of BRL, and the route starts at BRL. *)
Example getBestRoute_glob_request :
  plain (fromToken GlobSample.request) = true
  /\ option_map (fun r => List.map RouteStep.fromToken (RouteResult.steps r))
       (route (getBestRoute (prefetch Sample.batches) 10 GlobSample.request))
     = Some ["BRL"].
Proof. split; vm_compute; reflexivity. Qed.

End Chains.

(** ** Reads after writes in the store *)

Lemma get_set_ex_same (st : store) (now now' : Z) (k : string) (v : value) (ttl : Z) :
  Redis.get (Redis.set_ex st now k v ttl) now' k
  = if now' <? now + ttl * 1000 then Some v else None.
Proof.
  unfold Redis.get, Redis.set_ex, Redis.set_px. now rewrite lookup_insert_eq.
Qed.

Lemma get_set_ex_other (st : store) (now now' : Z) (k k' : string) (v : value) (ttl : Z) :
  k <> k' ->
  Redis.get (Redis.set_ex st now k v ttl) now' k' = Redis.get st now' k'.
Proof.
  intros H. unfold Redis.get, Redis.set_ex, Redis.set_px.
  now rewrite lookup_insert_ne.
Qed.

Lemma get_del_same (st : store) (now : Z) (k : string) :
  Redis.get (Redis.del st k) now k = None.
Proof. unfold Redis.get, Redis.del. now rewrite lookup_delete_eq. Qed.

Lemma get_del_other (st : store) (now : Z) (k k' : string) :
  k <> k' -> Redis.get (Redis.del st k) now k' = Redis.get st now k'.
Proof. intros H. unfold Redis.get, Redis.del. now rewrite lookup_delete_ne. Qed.

(** Keys of different families are different strings. *)
Ltac distinct_keys :=
  let H := fresh in
  intros H;
  repeat (unfold RedisKey.provisionalQuote, RedisKey.reservedQuote, RedisKey.deposit,
          DepositService.refKey, ExecutionService.execKey,
          ExecutionService.quoteIndexKey in H);
  rewrite ?append_cons, ?append_nil in H; congruence.

Lemma reserved_not_provisional (a b : string) :
  RedisKey.reservedQuote a <> RedisKey.provisionalQuote b.
Proof. distinct_keys. Qed.

Lemma deposit_not_reserved (a b : string) : RedisKey.deposit a <> RedisKey.reservedQuote b.
Proof. distinct_keys. Qed.

Lemma deposit_not_exec (a b : string) : RedisKey.deposit a <> ExecutionService.execKey b.
Proof. distinct_keys. Qed.

Lemma deposit_not_index (a b : string) :
  RedisKey.deposit a <> ExecutionService.quoteIndexKey b.
Proof. distinct_keys. Qed.

Lemma reserved_not_exec (a b : string) :
  RedisKey.reservedQuote a <> ExecutionService.execKey b.
Proof. distinct_keys. Qed.

Lemma reserved_not_index (a b : string) :
  RedisKey.reservedQuote a <> ExecutionService.quoteIndexKey b.
Proof. distinct_keys. Qed.

Lemma exec_not_index (a b : string) :
  ExecutionService.execKey a <> ExecutionService.quoteIndexKey b.
Proof. distinct_keys. Qed.

(** ** Reservation *)

Section Reservation.

Import QuoteLifecycleService.

(** C7.  When the provisional quote exists and has not expired,
    [reserveQuote] succeeds; it writes the reserved record and then deletes
    the provisional key, so that afterwards [getProvisionalQuote] finds
    nothing, at any instant, while the reserved quote can be read. *)
Theorem reserveQuote_removes_provisional (st : store) (now : Z) (uuid quoteId clientId : string)
    (meta : option OtcReservationMeta.t) (p : ProvisionalQuote.t) :
  getProvisionalQuote st now quoteId = Some p ->
  exists st' reserved,
    reserveQuote st now uuid quoteId clientId meta = Ok (st', reserved)
    /\ ReservedQuote.provisional reserved = p
    /\ st' = Redis.del
               (Redis.set_ex st now (RedisKey.reservedQuote quoteId) (VReserved reserved)
                  RESERVED_TTL_SEC)
               (RedisKey.provisionalQuote quoteId)
    /\ (forall now', getProvisionalQuote st' now' quoteId = None)
    /\ getReservedQuote st' now quoteId = (st', Some reserved).
Proof.
  intros Hp. unfold reserveQuote. rewrite Hp.
  eexists _, _. split; [ reflexivity | ]. split; [ reflexivity | ].
  split; [ reflexivity | ]. split.
  - intros now'. unfold getProvisionalQuote. now rewrite get_del_same.
  - unfold getReservedQuote.
    rewrite get_del_other by (apply not_eq_sym, reserved_not_provisional).
    rewrite get_set_ex_same. unfold RESERVED_TTL_SEC.
    replace (now <? now + 300 * 1000) with true by (symmetry; apply Z.ltb_lt; lia).
    cbn [ReservedQuote.reservedUntilTs]. unfold RESERVED_TTL_SEC.
    replace (now + 300 * 1000 <=? now) with false by (symmetry; apply Z.leb_gt; lia).
    reflexivity.
Qed.

Lemma reserveQuote_removes_provisional_witness :
  exists st' reserved,
    reserveQuote Flow.afterQuote.1 20 "res-1" Flow.quoteId "client-1" None = Ok (st', reserved)
    /\ ReservedQuote.provisional reserved = Flow.afterQuote.2
    /\ st' = Redis.del
               (Redis.set_ex Flow.afterQuote.1 20 (RedisKey.reservedQuote Flow.quoteId)
                  (VReserved reserved) RESERVED_TTL_SEC)
               (RedisKey.provisionalQuote Flow.quoteId)
    /\ (forall now', getProvisionalQuote st' now' Flow.quoteId = None)
    /\ getReservedQuote st' 20 Flow.quoteId = (st', Some reserved).
Proof.
  apply (reserveQuote_removes_provisional Flow.afterQuote.1 20 "res-1" Flow.quoteId
           "client-1" None Flow.afterQuote.2).
  vm_compute. reflexivity.
Defined.

End Reservation.

(** ** Deposit confirmation *)

Section Deposits.

Import DepositService.

Lemma abs_Qabs (a : Q) : (Js.abs a == Qabs a)%Q.
Proof.
  unfold Js.abs. destruct (Qle_bool 0 a) eqn:E.
  - apply Qle_bool_iff in E. symmetry. now apply Qabs_pos.
  - apply le_false in E. symmetry. apply Qabs_neg. now apply Qlt_le_weak.
Qed.

(** The warning is logged exactly when the received amount is off by more
    than 0.1% of the expected amount. *)
Lemma amountMismatch_spec (d : DepositRecord.t) (amt : Q) :
  amountMismatch d amt = true
  <-> (DepositRecord.amountExpected d * (1 # 1000)
       < Qabs (amt - DepositRecord.amountExpected d))%Q.
Proof.
  unfold amountMismatch. cbv zeta. rewrite gt_true.
  now rewrite abs_Qabs.
Qed.

Lemma getDepositByReference_inv (st : store) (now : Z) (ref : string) (d : DepositRecord.t) :
  getDepositByReference st now ref = Some d ->
  exists c rest,
    Redis.get st now (refKey ref) = Some (VString (String c rest))
    /\ Redis.get st now (RedisKey.deposit (String c rest)) = Some (VDeposit d).
Proof.
  unfold getDepositByReference, getDeposit.
  destruct (Redis.get st now (refKey ref)) as [[q|q|r|d'|e|[|c rest]]|]; try discriminate.
  destruct (Redis.get st now (RedisKey.deposit (String c rest)))
    as [[q|q|r|d'|e|s]|] eqn:E; try discriminate.
  intros [= ->]. eauto.
Qed.

(** C8.  For a payment reference with a deposit record, [confirmDeposit]
    succeeds whatever amount was received: it returns (and stores) the record
    with status CONFIRMED and the received amount, and an amount that is off
    by more than 0.1% of the expected amount only raises the warning. *)
Theorem confirmDeposit_never_rejects (st : store) (now : Z) (ref : string) (amt : Q)
    (bankTxId : option string) (d : DepositRecord.t) :
  getDepositByReference st now ref = Some d ->
  exists c,
    confirmDeposit st now ref amt bankTxId = Ok c
    /\ conf_record c = confirmed d now amt bankTxId
    /\ DepositRecord.status (conf_record c) = CONFIRMED
    /\ DepositRecord.amountReceived (conf_record c) = Some amt
    /\ getDeposit (conf_store c) now (DepositRecord.depositId d) = Some (conf_record c)
    /\ (conf_warned c = true
        <-> (DepositRecord.amountExpected d * (1 # 1000)
             < Qabs (amt - DepositRecord.amountExpected d))%Q).
Proof.
  intros H. apply getDepositByReference_inv in H as (c & rest & Href & Hdep).
  unfold confirmDeposit. rewrite Href, Hdep.
  eexists. split; [ reflexivity | ]. cbn [conf_record conf_store conf_warned].
  repeat split; try reflexivity.
  - unfold getDeposit. rewrite get_set_ex_same. unfold DEPOSIT_TTL_SEC.
    replace (now <? now + 3600 * 1000) with true by (symmetry; apply Z.ltb_lt; lia).
    reflexivity.
  - apply amountMismatch_spec.
  - apply amountMismatch_spec.
Qed.

End Deposits.

Section DepositsWitness.

Import DepositService.

Lemma confirmDeposit_never_rejects_witness :
  exists c,
    confirmDeposit Flow.afterExecute 30 Flow.paymentReference 5 (Some "pix-tx-1") = Ok c
    /\ DepositRecord.status (conf_record c) = CONFIRMED
    /\ conf_warned c = true.
Proof.
  destruct (confirmDeposit_never_rejects Flow.afterExecute 30 Flow.paymentReference 5
              (Some "pix-tx-1") FlowRecords.pending)
    as (c & Hc & _ & Hs & _ & _ & Hw).
  - vm_compute. reflexivity.
  - exists c. repeat split; auto. apply Hw. vm_compute. reflexivity.
Defined.

End DepositsWitness.

(** ** The deposit webhook called twice *)

Section Webhook.

Import DepositService ExecutionService RoutingController.




Lemma updateExecution_inv (st st' : store) (t : Z) (id : string) (u : Updates.t)
    (updated : ExecutionRecord.t) :
  updateExecution st t id u = Ok (st', updated) ->
  exists existing, getExecution st t id = Some existing
                   /\ updated = merge existing u
                   /\ st' = saveExecution st t updated.
Proof.
  unfold updateExecution. destruct (getExecution st t id) as [existing|]; [ | discriminate ].
  intros [= <- <-]. eauto.
Qed.






(** The second call also reopens a finished execution: between the two calls
    the driver runs the route to completion, and the second call puts the
    COMPLETED record back to EXECUTING. *)
Example depositWebhook_reopens_completed :
  let first := depositWebhook Flow.afterExecute 30 Flow.notification in
  exists stRun nowRun,
    executeRouteAsync 3 Flow.settle (wh_store first) 30 Flow.executionId 0
    = Returned stRun nowRun 0
    /\ option_map ExecutionRecord.status (getExecution Flow.afterExecute 30 Flow.executionId)
       = Some PENDING_APPROVAL
    /\ option_map ExecutionRecord.status (getExecution (wh_store first) 30 Flow.executionId)
       = Some EXECUTING
    /\ option_map ExecutionRecord.status (getExecution stRun nowRun Flow.executionId)
       = Some COMPLETED
    /\ let second := depositWebhook stRun nowRun Flow.notification in
       wh_started second = Some Flow.executionId
       /\ option_map ExecutionRecord.status
            (getExecution (wh_store second) nowRun Flow.executionId)
          = Some EXECUTING.
Proof.
  cbv zeta. eexists _, _. split; [ vm_compute; reflexivity | ].
  repeat split; vm_compute; reflexivity.
Qed.

End Webhook.

(** ** The driver under repeated failure *)

Section Driver.

Import ExecutionService RoutingController.

Lemma getExecution_saved_later (st : store) (t t' : Z) (record : ExecutionRecord.t) :
  t' < t + 86400000 ->
  getExecution (saveExecution st t record) t' (ExecutionRecord.executionId record)
  = Some record.
Proof.
  intros H. unfold getExecution, saveExecution. rewrite get_set_ex_same.
  unfold EXECUTION_TTL_SEC.
  replace (t' <? t + 86400 * 1000) with true by (symmetry; apply Z.ltb_lt; lia).
  reflexivity.
Qed.

(** With a step executor that always throws, every failure switches the
    record to the fallback route and retries: the driver never gets to mark
    the record FAILED, however deep the recursion is allowed to go. *)
Lemma executeRouteAsync_keeps_retrying (execute : StepExecutor) (id : string)
    (fb : RouteResult.t) :
  (forall step, exists e, execute step = Throw e) ->
  forall (n : nat) (st : store) (now : Z) (retries : nat),
    retrying id fb st now ->
    exists st' now',
      executeRouteAsync n execute st now id retries = Unfinished st' now' (retries + n)
      /\ retrying id fb st' now'.
Proof.
  intros Hfail. induction n as [|n IH]; intros st now retries Hinv.
  - exists st, now. cbn [executeRouteAsync]. rewrite Nat.add_0_r. auto.
  - destruct Hinv as (e & Hget & Hid & Hstatus & Hsteps & Hfb & Hfbsteps).
    cbn [executeRouteAsync]. rewrite Hget. unfold tryExecute.
    destruct (RouteResult.steps (ExecutionRecord.route e)) as [|step rest] eqn:Es;
      [ congruence | ].
    cbn [runSteps]. unfold updateExecution at 1. rewrite Hget.
    destruct (Hfail step) as [err ->].
    set (e1 := merge e (setCurrentStep 0)).
    assert (Hid1 : ExecutionRecord.executionId e1 = id) by exact Hid.
    assert (Hget1 : getExecution (saveExecution st now e1) (now + STEP_DELAY_MS) id = Some e1).
    { rewrite <- Hid1. apply getExecution_saved_later. unfold STEP_DELAY_MS. lia. }
    rewrite Hget1. change (ExecutionRecord.fallbackRoute e1) with (ExecutionRecord.fallbackRoute e).
    rewrite Hfb. unfold failExecution. rewrite Hget1.
    change (ExecutionRecord.fallbackRoute e1) with (ExecutionRecord.fallbackRoute e).
    rewrite Hfb. unfold updateExecution. rewrite Hget1.
    match goal with
    | |- context [saveExecution ?s ?t (merge e1 ?u)] =>
        set (e2 := merge e1 u); set (st2 := saveExecution s t e2)
    end.
    destruct (IH st2 (now + STEP_DELAY_MS) (S retries)) as (st' & now' & Hrun & Hinv').
    + exists e2. split; [ | repeat split; auto ].
      unfold st2. rewrite <- Hid.
      apply (getExecution_saved_later _ _ _ e2). lia.
    + exists st', now'. rewrite Hrun. split; [ f_equal; lia | exact Hinv' ].
Qed.

End Driver.

Section DriverEvaluation.

Import ExecutionService RoutingController.

(** C2, evaluated on the code.  An execution with a fallback route whose
    steps keep failing: whatever depth [n] the recursion is given, the driver
    has switched to the fallback route [n] times and is still retrying, with
    the record EXECUTING and its fallback route still in place; the record is
    never marked FAILED.  At depth 3 the record, on its third switch, is
    EXECUTING the fallback route from step 0. *)
Theorem fallback_switches_unbounded :
  (forall n : nat,
      exists st now e,
        executeRouteAsync n Flow.broken Retry.started 0 Retry.executionId 0
        = Unfinished st now n
        /\ getExecution st now Retry.executionId = Some e
        /\ ExecutionRecord.status e = EXECUTING
        /\ ExecutionRecord.fallbackRoute e = Some Retry.fallback)
  /\ exists st now e,
       executeRouteAsync 3 Flow.broken Retry.started 0 Retry.executionId 0
       = Unfinished st now 3
       /\ getExecution st now Retry.executionId = Some e
       /\ ExecutionRecord.status e = EXECUTING
       /\ ExecutionRecord.route e = Retry.fallback
       /\ ExecutionRecord.fallbackRoute e = Some Retry.fallback
       /\ ExecutionRecord.currentStep e = Some 0%nat
       /\ ExecutionRecord.transactionHashes e = Some [].
Proof.
  split.
  - intros n.
    destruct (executeRouteAsync_keeps_retrying Flow.broken Retry.executionId Retry.fallback)
      with (n := n) (st := Retry.started) (now := 0) (retries := 0%nat)
      as (st & now & Hrun & e & Hget & _ & Hstatus & _ & Hfb & _).
    + intros step. eexists. reflexivity.
    + eexists. repeat split; try (vm_compute; reflexivity); discriminate.
    + exists st, now, e. auto.
  - eexists _, _, _. split; [ vm_compute; reflexivity | ].
    repeat split; vm_compute; reflexivity.
Qed.

(** With a single failure the fallback does its work: the primary route
    fails once, the fallback settles, and the record ends COMPLETED. *)
Example fallback_after_one_failure :
  let flaky : StepExecutor :=
    fun step => if String.eqb (RouteStep.venueId step) "dex:jupiter"
                then Throw (Error "step failed") else Ok "0xabc" in
  exists st now e,
    executeRouteAsync 5 flaky Retry.started 0 Retry.executionId 0 = Returned st now 1
    /\ getExecution st now Retry.executionId = Some e
    /\ ExecutionRecord.status e = COMPLETED
    /\ ExecutionRecord.transactionHashes e = Some ["0xabc"].
Proof.
  cbv zeta. eexists _, _, _. split; [ vm_compute; reflexivity | ].
  repeat split; vm_compute; reflexivity.
Qed.

End DriverEvaluation.

(** ** The PIX QR code *)

Section Pix.

Import DepositService.

Example crc16_ccitt_check : Crc16.hex4 (Crc16.crc16_ccitt "123456789") = "29B1".
Proof. vm_compute. reflexivity. Qed.

(** C9, evaluated on the code.  Whatever the payment reference and the
    amount, the QR code is the fixed payload followed by the four characters
    ["ABCD"], while the CRC16-CCITT of that payload is 0x4C54 (and 0x0132
    when the register starts at zero): the last four characters are not the
    checksum of what precedes them.  The sample PIX deposit carries this QR
    code. *)
Theorem pix_crc_is_constant :
  (forall (paymentRef : string) (amount : Q),
      generatePixQrCode paymentRef amount = pixPayload ++ "ABCD")
  /\ Crc16.hex4 (Crc16.crc16_ccitt pixPayload) = "4C54"
  /\ Crc16.hex4 (Crc16.run 0 pixPayload) = "0132"
  /\ calculatePixCrc "mock" <> Crc16.hex4 (Crc16.crc16_ccitt pixPayload)
  /\ DepositInstructions.method (DepositRecord.depositInstructions FlowRecords.pending)
     = "PIX"
  /\ DepositInstructions.qrCodeData (DepositRecord.depositInstructions FlowRecords.pending)
     = Some (pixPayload ++ "ABCD").
Proof.
  repeat split; try (vm_compute; reflexivity).
  vm_compute. discriminate.
Qed.

End Pix.

(** ** The scoring lookup *)

Section ScoringLookup.

Import OtcRoutingService RoutingController.












End ScoringLookup.

(** ** The settlement scorer *)

Section Scoring.

Import SettlementScoringService.

Variable Math_sqrt : Q -> Q.
Hypothesis sqrt_nonneg : forall x : Q, (0 <= x)%Q -> (0 <= Math_sqrt x)%Q.
Hypothesis sqrt_zero : forall x : Q, (x == 0)%Q -> (Math_sqrt x == 0)%Q.

Lemma Math_max_from (l : list Q) (a : Q) :
  exists m,
    fold_left (fun acc x =>
                 match acc with
                 | NegInfinity => Finite x
                 | Finite m => Finite (Js.max m x)
                 end) l (Finite a) = Finite m
    /\ (m = a \/ In m l)
    /\ (a <= m)%Q
    /\ (forall x, In x l -> (x <= m)%Q).
Proof.
  revert a. induction l as [|y l IH]; intros a; cbn [fold_left].
  - exists a. repeat split; auto using Qle_refl. intros x [].
  - destruct (IH (Js.max a y)) as (m & Hm & Hin & Hle & Hall).
    exists m. split; [ exact Hm | ].
    destruct (max_cases a y) as [[Hay E]|[Hya E]]; rewrite E in *.
    + repeat split.
      * destruct Hin as [->|Hin]; right; [ now left | now right ].
      * now apply Qle_trans with y.
      * intros x [<-|Hx]; auto.
    + repeat split.
      * destruct Hin as [->|Hin]; [ now left | right; now right ].
      * exact Hle.
      * intros x [<-|Hx]; auto.
        apply Qle_trans with a; auto using Qlt_le_weak.
Qed.

(** [Math.max] of a non-empty spread is the largest element. *)
Lemma Math_max_spec (l : list Q) :
  l <> [] ->
  exists m, Math_max l = Finite m /\ In m l /\ forall x, In x l -> (x <= m)%Q.
Proof.
  destruct l as [|a l]; [ congruence | ]. intros _.
  unfold Math_max. cbn [fold_left].
  destruct (Math_max_from l a) as (m & Hm & Hin & Hle & Hall).
  exists m. repeat split; auto.
  - destruct Hin as [->|Hin]; [ now left | now right ].
  - intros x [<-|Hx]; auto.
Qed.

Lemma max_Qmax (a b : Q) : (Js.max a b == Qmax a b)%Q.
Proof.
  destruct (max_cases a b) as [[H E]|[H E]]; rewrite E; symmetry.
  - now apply Q.max_r.
  - apply Q.max_l. now apply Qlt_le_weak.
Qed.

(** The delay that the scorer reads from a quote is the delay of its
    settlement data, and 0 without them. *)
Lemma settlementDaysOf_spec (q : OTCQuote.t) :
  (settlementDaysOf q == NetOutputSpec.settlementDays q)%Q.
Proof.
  unfold settlementDaysOf, NetOutputSpec.settlementDays, Js.or_else.
  destruct (OTCQuote.settlementMeta q) as [meta|]; cbn [option_map]; [ | reflexivity ].
  destruct (Js.truthy (SettlementMeta.settlementDays meta)) eqn:E; [ reflexivity | ].
  apply truthy_false in E. now symmetry.
Qed.

Lemma Math_max_maximum_from (quotes : list OTCQuote.t) (a b : Q) :
  (a == b)%Q ->
  exists m,
    fold_left (fun acc x =>
                 match acc with
                 | NegInfinity => Finite x
                 | Finite m => Finite (Js.max m x)
                 end) (List.map settlementDaysOf quotes) (Finite a) = Finite m
    /\ (m == fold_left Qmax (List.map NetOutputSpec.settlementDays quotes) b)%Q.
Proof.
  revert a b. induction quotes as [|q quotes IH]; intros a b Hab; cbn [List.map fold_left].
  - exists a. split; [ reflexivity | exact Hab ].
  - apply IH. rewrite max_Qmax. apply Q.max_compat; [ exact Hab | ].
    apply settlementDaysOf_spec.
Qed.

(** [Math.max] over the quotes is the largest settlement delay. *)
Lemma Math_max_maximum (quotes : list OTCQuote.t) :
  quotes <> [] ->
  exists m,
    Math_max (List.map settlementDaysOf quotes) = Finite m
    /\ (m == NetOutputSpec.maxSettlementDays quotes)%Q.
Proof.
  destruct quotes as [|q quotes]; [ congruence | ]. intros _.
  unfold Math_max, NetOutputSpec.maxSettlementDays, NetOutputSpec.maximum.
  cbn [List.map fold_left]. apply Math_max_maximum_from, settlementDaysOf_spec.
Qed.

Lemma maximum_from (l : list Q) (a : Q) :
  ((a <= fold_left Qmax l a)%Q
   /\ (forall x, In x l -> (x <= fold_left Qmax l a)%Q))
  /\ (fold_left Qmax l a == a \/ exists x, In x l /\ fold_left Qmax l a == x)%Q.
Proof.
  revert a. induction l as [|y l IH]; intros a; cbn [fold_left].
  - split; [ split; [ apply Qle_refl | intros x [] ] | left; reflexivity ].
  - destruct (IH (Qmax a y)) as [[Hle Hall] Hin]. split; [ split | ].
    + eapply Qle_trans; [ apply Q.le_max_l | exact Hle ].
    + intros x [<-|Hx]; [ | now apply Hall ].
      eapply Qle_trans; [ apply Q.le_max_r | exact Hle ].
    + destruct Hin as [E|(x & Hx & E)].
      * destruct (Q.max_spec a y) as [[_ E']|[_ E']].
        -- right. exists y. split; [ now left | exact (Qeq_trans _ _ _ E E') ].
        -- left. exact (Qeq_trans _ _ _ E E').
      * right. exists x. split; [ now right | exact E ].
Qed.

(** The largest number of a list is one of its numbers, and none is larger. *)
Lemma maximum_spec (l : list Q) :
  l <> [] ->
  (exists x, In x l /\ NetOutputSpec.maximum l == x)%Q
  /\ forall x, In x l -> (x <= NetOutputSpec.maximum l)%Q.
Proof.
  destruct l as [|a l]; [ congruence | ]. intros _. unfold NetOutputSpec.maximum.
  destruct (maximum_from l a) as [[Hle Hall] Hin]. split.
  - destruct Hin as [E|(x & Hx & E)].
    + exists a. split; [ now left | exact E ].
    + exists x. split; [ now right | exact E ].
  - intros x [<-|Hx]; auto.
Qed.

Lemma eqb_sym (a b : string) : String.eqb a b = String.eqb b a.
Proof.
  destruct (String.eqb a b) eqn:E.
  - apply String.eqb_eq in E. subst. symmetry. apply String.eqb_refl.
  - symmetry. apply String.eqb_neq. apply String.eqb_neq in E. congruence.
Qed.

(** The venue table, read at a name that no object inherits. *)
Lemma counterpartyRisk_lookup (venueId : string) :
  Js.lookup_or counterpartyRisk venueId (1 # 1000)
  = if Js.inherited venueId then Js.NaN
    else Js.Num (NetOutputSpec.venueDefault venueId).
Proof.
  unfold Js.lookup_or, Js.lookup, counterpartyRisk, NetOutputSpec.venueDefault.
  cbn [List.find fst snd].
  rewrite !(eqb_sym venueId).
  destruct (String.eqb "otc:brl-eur:provider1" venueId) eqn:E1;
    [ apply String.eqb_eq in E1; subst; reflexivity | ].
  destruct (String.eqb "otc:mxn-usd:provider1" venueId) eqn:E2;
    [ apply String.eqb_eq in E2; subst; reflexivity | ].
  destruct (String.eqb "otc:ngn-eur:provider1" venueId) eqn:E3;
    [ apply String.eqb_eq in E3; subst; reflexivity | ].
  destruct (String.eqb "otc:stablecoin:provider1" venueId) eqn:E4;
    [ apply String.eqb_eq in E4; subst; reflexivity | ].
  destruct (Js.inherited venueId); reflexivity.
Qed.

(** The risk that the scorer reads from a quote: the quote's own unless it
    is zero, else the default of the venue; no number when the venue id
    names an inherited member. *)
Lemma riskOf_spec (q : OTCQuote.t) :
  riskOf q = if numericRisk q then Js.Num (NetOutputSpec.effectiveRisk q) else Js.NaN.
Proof.
  unfold riskOf, numericRisk, NetOutputSpec.effectiveRisk.
  destruct (OTCQuote.settlementMeta q) as [meta|].
  - unfold Js.truthy. destruct (Qeq_bool (SettlementMeta.counterpartyRisk meta) 0);
      cbn [negb orb]; [ | reflexivity ].
    rewrite counterpartyRisk_lookup. now destruct (Js.inherited (OTCQuote.venueId q)).
  - cbn [orb]. rewrite counterpartyRisk_lookup.
    now destruct (Js.inherited (OTCQuote.venueId q)).
Qed.

Lemma fold_left_Qplus (l : list Q) (a : Q) : (fold_left Qplus l a == a + Qsum l)%Q.
Proof.
  revert a. induction l as [|x l IH]; intros a; cbn [fold_left Qsum fold_right].
  - ring.
  - rewrite IH. fold (Qsum l). ring.
Qed.

Lemma fold_left_add_NaN (l : list Js.num) : fold_left Js.add l Js.NaN = Js.NaN.
Proof. induction l as [|x l IH]; [ reflexivity | exact IH ]. Qed.

(** The sum of the risks: a number when every risk is one. *)
Lemma fold_left_add (quotes : list OTCQuote.t) (a : Q) :
  fold_left Js.add (List.map riskOf quotes) (Js.Num a)
  = if forallb numericRisk quotes
    then Js.Num (fold_left Qplus (List.map NetOutputSpec.effectiveRisk quotes) a)
    else Js.NaN.
Proof.
  revert a. induction quotes as [|q quotes IH]; intros a; [ reflexivity | ].
  cbn [List.map fold_left forallb]. rewrite riskOf_spec.
  destruct (numericRisk q); cbn [Js.add Js.arith andb].
  - apply IH.
  - apply fold_left_add_NaN.
Qed.

Lemma Qsum_nonneg (l : list Q) : (forall x, In x l -> (0 <= x)%Q) -> (0 <= Qsum l)%Q.
Proof.
  induction l as [|x l IH]; intros H; cbn [Qsum fold_right].
  - apply Qle_refl.
  - fold (Qsum l).
    assert (Hx : (0 <= x)%Q) by (apply H; now left).
    assert (Hl : (0 <= Qsum l)%Q) by (apply IH; intros y Hy; apply H; now right).
    lra.
Qed.

(** The average risk of a quote list that is not empty: the mean of the
    per-quote risks, and no number as soon as one risk is none. *)
Lemma getAverageCounterpartyRisk_mean (quotes : list OTCQuote.t) :
  quotes <> [] ->
  if forallb numericRisk quotes
  then exists avg,
         getAverageCounterpartyRisk quotes = Js.Num avg
         /\ (avg == NetOutputSpec.mean (List.map NetOutputSpec.effectiveRisk quotes))%Q
  else getAverageCounterpartyRisk quotes = Js.NaN.
Proof.
  destruct quotes as [|q qs]; [ congruence | ]. intros _.
  unfold getAverageCounterpartyRisk. rewrite fold_left_add.
  destruct (forallb numericRisk (q :: qs)); [ | reflexivity ].
  eexists. split; [ reflexivity | ].
  unfold NetOutputSpec.mean. rewrite fold_left_Qplus, !length_map.
  rewrite Qplus_0_l. reflexivity.
Qed.

(** The average risk of any quote list. *)
Lemma getAverageCounterpartyRisk_number (quotes : list OTCQuote.t) :
  if forallb numericRisk quotes
  then exists avg, getAverageCounterpartyRisk quotes = Js.Num avg
  else getAverageCounterpartyRisk quotes = Js.NaN.
Proof.
  destruct quotes as [|q qs]; [ now exists (1 # 1000)%Q | ].
  pose proof (getAverageCounterpartyRisk_mean (q :: qs)) as H.
  destruct (forallb numericRisk (q :: qs)).
  - destruct H as (avg & E & _); [ discriminate | ]. now exists avg.
  - apply H. discriminate.
Qed.

Lemma slash_free (a b s : string) :
  forallb (fun c => negb (Ascii.eqb c "/")) (list_ascii_of_string s) = true ->
  a ++ "/" ++ b <> s.
Proof.
  revert s. induction a as [|c a IH]; intros s Hs E; subst s.
  - cbn in Hs. discriminate.
  - cbn [String.append list_ascii_of_string forallb] in Hs.
    apply andb_true_iff in Hs as [_ Hs]. now apply (IH _ Hs).
Qed.

Lemma pair_not_inherited (a b : string) : Js.inherited (a ++ "/" ++ b) = false.
Proof.
  unfold Js.inherited, Js.prototypeMembers. cbn [existsb].
  repeat match goal with
         | |- context [String.eqb (a ++ "/" ++ b) ?m] =>
             replace (String.eqb (a ++ "/" ++ b) m) with false
               by (symmetry; apply String.eqb_neq, slash_free; reflexivity)
         end.
  reflexivity.
Qed.

(** The volatility of a route is the volatility of its pair. *)
Lemma getVolatilityForRoute_spec (route : RouteResult.t) :
  getVolatilityForRoute route = Js.Num (NetOutputSpec.dailyVol route).
Proof.
  unfold getVolatilityForRoute, NetOutputSpec.dailyVol.
  destruct (RouteResult.steps route) as [|first rest]; [ reflexivity | ].
  cbv zeta.
  set (pair := RouteStep.fromToken first ++ "/"
               ++ RouteStep.toToken (List.last (first :: rest) first)).
  assert (Hpair : Js.inherited pair = false) by apply pair_not_inherited.
  clearbody pair.
  unfold Js.lookup_or, Js.lookup, volatilityParams, NetOutputSpec.pairVol.
  cbn [List.find fst snd]. rewrite !(eqb_sym pair).
  destruct (String.eqb "BRL/EUR" pair); [ reflexivity | ].
  destruct (String.eqb "MXN/USD" pair); [ reflexivity | ].
  destruct (String.eqb "NGN/EUR" pair); [ reflexivity | ].
  now rewrite Hpair.
Qed.

Lemma dailyVol_nonneg (route : RouteResult.t) : (0 <= NetOutputSpec.dailyVol route)%Q.
Proof.
  unfold NetOutputSpec.dailyVol, NetOutputSpec.pairVol.
  destruct (RouteResult.steps route) as [|first rest]; [ discriminate | ].
  repeat match goal with
         | |- context [String.eqb ?a ?b] => destruct (String.eqb a b)
         end; discriminate.
Qed.

Lemma venueDefault_nonneg (venueId : string) : (0 <= NetOutputSpec.venueDefault venueId)%Q.
Proof.
  unfold NetOutputSpec.venueDefault.
  repeat match goal with
         | |- context [String.eqb ?a ?b] => destruct (String.eqb a b)
         end; discriminate.
Qed.

Lemma effectiveRisk_nonneg (q : OTCQuote.t) :
  riskInputsNonNegative q = true -> (0 <= NetOutputSpec.effectiveRisk q)%Q.
Proof.
  unfold riskInputsNonNegative, NetOutputSpec.effectiveRisk. intros H.
  destruct (OTCQuote.settlementMeta q) as [meta|]; [ | apply venueDefault_nonneg ].
  apply andb_true_iff in H as [_ H]. apply le_true in H.
  destruct (Qeq_bool (SettlementMeta.counterpartyRisk meta) 0);
    [ apply venueDefault_nonneg | exact H ].
Qed.

Lemma settlementDays_nonneg (q : OTCQuote.t) :
  riskInputsNonNegative q = true -> (0 <= NetOutputSpec.settlementDays q)%Q.
Proof.
  unfold riskInputsNonNegative, NetOutputSpec.settlementDays. intros H.
  destruct (OTCQuote.settlementMeta q) as [meta|]; [ | apply Qle_refl ].
  apply andb_true_iff in H as [H _]. now apply le_true in H.
Qed.

(** A stated risk that is not zero is the risk that counts. *)
Lemma effectiveRisk_stated (q : OTCQuote.t) :
  statesRisk q = true -> NetOutputSpec.effectiveRisk q = NetOutputSpec.counterpartyRisk q.
Proof.
  unfold statesRisk, NetOutputSpec.effectiveRisk, NetOutputSpec.counterpartyRisk.
  destruct (OTCQuote.settlementMeta q) as [meta|]; [ | reflexivity ].
  unfold Js.truthy. now destruct (Qeq_bool (SettlementMeta.counterpartyRisk meta) 0).
Qed.

(** The net output of a quote list that is not empty. *)
Lemma calculateNetOutput_spec (g : Q) (route : RouteResult.t) (quotes : list OTCQuote.t) :
  quotes <> [] ->
  forallb numericRisk quotes = true ->
  exists m avg,
    Math_max (List.map settlementDaysOf quotes) = Finite m
    /\ (m == NetOutputSpec.maxSettlementDays quotes)%Q
    /\ getAverageCounterpartyRisk quotes = Js.Num avg
    /\ (avg == NetOutputSpec.mean (List.map NetOutputSpec.effectiveRisk quotes))%Q
    /\ calculateNetOutput Math_sqrt g route quotes
       = Js.Num (Js.max 0
                   (g - (if Js.le m 0 then 0
                         else g * NetOutputSpec.dailyVol route * Math_sqrt m * 1)
                    - g * avg)).
Proof.
  intros Hne Hnum.
  destruct (Math_max_maximum quotes Hne) as (m & Hm & Hmax).
  pose proof (getAverageCounterpartyRisk_mean quotes Hne) as Havg.
  rewrite Hnum in Havg. destruct Havg as (avg & Havg & Hmean).
  exists m, avg. repeat (split; [ assumption | ]).
  unfold calculateNetOutput. cbv zeta.
  rewrite Hm, Havg, getVolatilityForRoute_spec. unfold calculateTimePenalty.
  destruct (Js.le m 0); reflexivity.
Qed.


(** C6, as amended.  For a non-empty set of participating quotes in which
    no venue id that the risk table is asked for names a member of
    [Object.prototype], the net output is a number.  With [m] the largest
    [settlementMeta.settlementDays] among the quotes (0 for a quote without
    [settlementMeta]) and [avg] the mean over the quotes of the risk that
    counts (the risk of [settlementMeta] unless it is zero, else the default
    of the venue, else 0.001), the net output is
    [max(0, g - g * dailyVol * sqrt(m) * 1 - g * avg)] when [m] is not
    negative, and [max(0, g - g * avg)], without time penalty, when [m] is
    not positive; [avg] is the mean of the stated risks when no quote states
    a risk of zero; and the net output does not exceed a gross output that
    is not negative when the risk inputs are not negative. *)
Theorem calculateNetOutput_formula (g : Q) (route : RouteResult.t)
    (quotes : list OTCQuote.t) :
  quotes <> [] ->
  forallb numericRisk quotes = true ->
  exists m avg net,
    (m == NetOutputSpec.maxSettlementDays quotes)%Q
    /\ (avg == NetOutputSpec.mean (List.map NetOutputSpec.effectiveRisk quotes))%Q
    /\ (forallb statesRisk quotes = true ->
        (avg == NetOutputSpec.mean (List.map NetOutputSpec.counterpartyRisk quotes))%Q)
    /\ calculateNetOutput Math_sqrt g route quotes = Js.Num net
    /\ ((0 <= m)%Q ->
        (net == Qmax 0 (g - g * NetOutputSpec.dailyVol route * Math_sqrt m * 1
                          - g * avg))%Q)
    /\ ((m <= 0)%Q -> (net == Qmax 0 (g - g * avg))%Q)
    /\ (forallb riskInputsNonNegative quotes = true -> (0 <= g)%Q -> (net <= g)%Q).
Proof.
  intros Hne Hnum.
  destruct (calculateNetOutput_spec g route quotes Hne Hnum)
    as (m & avg & Hm & Hmax & Havg & Hmean & Hnet).
  exists m, avg. eexists. split; [ exact Hmax | ]. split; [ exact Hmean | ]. split.
  { intros Hstated. rewrite Hmean.
    replace (List.map NetOutputSpec.effectiveRisk quotes)
      with (List.map NetOutputSpec.counterpartyRisk quotes); [ reflexivity | ].
    apply map_ext_in. intros q Hq. symmetry. apply effectiveRisk_stated.
    rewrite forallb_forall in Hstated. auto. }
  split; [ exact Hnet | ]. split.
  - intros Hm0. rewrite max_Qmax.
    destruct (Js.le m 0) eqn:E; [ | reflexivity ].
    apply le_true in E.
    assert (Hz : (m == 0)%Q) by now apply Qle_antisym.
    apply sqrt_zero in Hz. rewrite Hz. apply Q.max_compat; [ reflexivity | ring ].
  - split.
    { intros Hm0. rewrite max_Qmax. apply le_true in Hm0. rewrite Hm0.
      apply Q.max_compat; [ reflexivity | ring ]. }
    intros Hrisk Hg.
    assert (Hvol := dailyVol_nonneg route).
    assert (Havg0 : (0 <= avg)%Q).
    { rewrite Hmean. unfold NetOutputSpec.mean. apply Qle_shift_div_l.
      - rewrite length_map. destruct quotes; [ congruence | ]. reflexivity.
      - rewrite Qmult_0_l. apply Qsum_nonneg. intros x Hx.
        apply in_map_iff in Hx as (q & <- & Hq). apply effectiveRisk_nonneg.
        rewrite forallb_forall in Hrisk. auto. }
    assert (Hdisc : (0 <= g * avg)%Q) by now apply Qmult_le_0_compat.
    assert (Hpen : (0 <= (if Js.le m 0 then 0
                          else g * NetOutputSpec.dailyVol route * Math_sqrt m * 1))%Q).
    { destruct (Js.le m 0) eqn:E; [ apply Qle_refl | ].
      apply le_false in E.
      repeat apply Qmult_le_0_compat; auto; [ | discriminate ].
      apply sqrt_nonneg. now apply Qlt_le_weak. }
    set (discount := (g * avg)%Q) in *.
    set (penalty := (if Js.le m 0 then 0
                     else g * NetOutputSpec.dailyVol route * Math_sqrt m * 1)%Q) in *.
    match goal with
    | |- (Js.max 0 ?x <= g)%Q => destruct (max_cases 0 x) as [[H E]|[H E]]; rewrite E
    end; lra.
Qed.

End Scoring.

Section ScoringWitness.

Import SettlementScoringService.

Lemma sqrt6_nonneg (x : Q) : (0 <= x)%Q -> (0 <= ScoringSample.sqrt6 x)%Q.
Proof.
  intros _. unfold ScoringSample.sqrt6. destruct (Qnum x <=? 0); [ apply Qle_refl | ].
  unfold Qle. cbn [Qnum Qden]. rewrite Z.mul_0_l, Z.mul_1_r. apply Z.sqrt_nonneg.
Qed.

Lemma sqrt6_zero (x : Q) : (x == 0)%Q -> (ScoringSample.sqrt6 x == 0)%Q.
Proof.
  unfold Qeq. cbn [Qnum Qden]. rewrite Z.mul_0_l, Z.mul_1_r. intros E.
  unfold ScoringSample.sqrt6. rewrite E. reflexivity.
Qed.

Lemma calculateNetOutput_formula_witness :
  exists m avg net,
    (m == NetOutputSpec.maxSettlementDays ScoringSample.quotes)%Q
    /\ (avg == NetOutputSpec.mean
                 (List.map NetOutputSpec.effectiveRisk ScoringSample.quotes))%Q
    /\ (forallb statesRisk ScoringSample.quotes = true ->
        (avg == NetOutputSpec.mean
                  (List.map NetOutputSpec.counterpartyRisk ScoringSample.quotes))%Q)
    /\ calculateNetOutput ScoringSample.sqrt6 1000 Sample.best ScoringSample.quotes
       = Js.Num net
    /\ ((0 <= m)%Q ->
        (net == Qmax 0 (1000 - 1000 * NetOutputSpec.dailyVol Sample.best
                                * ScoringSample.sqrt6 m * 1
                          - 1000 * avg))%Q)
    /\ ((m <= 0)%Q -> (net == Qmax 0 (1000 - 1000 * avg))%Q)
    /\ (forallb riskInputsNonNegative ScoringSample.quotes = true ->
        (0 <= 1000)%Q -> (net <= 1000)%Q).
Proof.
  apply (calculateNetOutput_formula ScoringSample.sqrt6 sqrt6_nonneg sqrt6_zero
           1000 Sample.best ScoringSample.quotes).
  - discriminate.
  - vm_compute. reflexivity.
Defined.

(** On the sample route: volatility 0.005 for BRL/EUR, one day of settlement,
    mean risk 0.00055; 1000 gross gives 994.45 net. *)
Example calculateNetOutput_sample :
  exists net,
    calculateNetOutput ScoringSample.sqrt6 1000 Sample.best ScoringSample.quotes
    = Js.Num net
    /\ (net == 99445 # 100)%Q.
Proof. eexists. split; vm_compute; reflexivity. Qed.

(** C6, as stated, fails on two inputs.  A desk that states a risk of
    zero is scored with the default 0.001: 1000 gross gives 999 net,
    where the formula with the stated risk gives 1000.  A desk without
    settlement data whose id is [constructor] has no number for a risk: the
    net output is [NaN], where the formula with the default 0.001 gives
    999.  And a negative gross output, with risk inputs that are not
    negative, has the net output 0 above it. *)
Lemma calculateNetOutput_counterexample :
  (exists net,
     calculateNetOutput ScoringSample.sqrt6 1000 Sample.best ScoringSample.riskFree
     = Js.Num net
     /\ (net == 999)%Q)
  /\ (NetOutputSpec.netOutput ScoringSample.sqrt6 1000 Sample.best ScoringSample.riskFree
      == 1000)%Q
  /\ calculateNetOutput ScoringSample.sqrt6 1000 Sample.best
       ScoringSample.constructorDesk
     = Js.NaN
  /\ (NetOutputSpec.netOutput ScoringSample.sqrt6 1000 Sample.best
        ScoringSample.constructorDesk
      == 999)%Q
  /\ forallb riskInputsNonNegative ScoringSample.quotes = true
  /\ exists net,
       calculateNetOutput ScoringSample.sqrt6 (-1) Sample.best ScoringSample.quotes
       = Js.Num net
       /\ (-1 < net)%Q.
Proof.
  split; [ eexists; split; vm_compute; reflexivity | ].
  split; [ vm_compute; reflexivity | ].
  split; [ vm_compute; reflexivity | ].
  split; [ vm_compute; reflexivity | ].
  split; [ vm_compute; reflexivity | ].
  eexists. split; vm_compute; reflexivity.
Qed.

End ScoringWitness.

(** * Further properties of the code *)

(** ** The edge cache read back *)

Section CacheReadBack.

Import OtcRoutingService.

Lemma prefix_nil (s : string) : String.prefix "" s = true.
Proof. destruct s; reflexivity. Qed.

Lemma prefix_split (p s : string) :
  String.prefix p s = true -> exists r, s = p ++ r.
Proof.
  revert s. induction p as [|a p IH]; intros s H.
  - exists s. reflexivity.
  - destruct s as [|b s]; [ discriminate | ].
    rewrite prefix_cons in H. destruct (ascii_dec a b) as [->|]; [ | discriminate ].
    destruct (IH s H) as [r ->]. exists r. reflexivity.
Qed.

(** The key under which a quote is cached starts with one of the two
    prefixes scanned for the quote's own pair. *)
Lemma quoteKey_prefix (q : OTCQuote.t) :
  String.prefix (otcPrefix (OTCQuote.fromToken q) (OTCQuote.toToken q)) (quoteKey q) = true
  \/ String.prefix (dexPrefix (OTCQuote.fromToken q) (OTCQuote.toToken q)) (quoteKey q)
     = true.
Proof.
  unfold quoteKey. destruct (Js.startsWith (OTCQuote.venueId q) "dex:") eqn:E.
  - right. apply prefix_split in E as [r ->].
    unfold dexPrefix, RedisKey.routingEdge.
    change ("routing:edge:" ++ "solana" ++ ":" ++ OTCQuote.fromToken q ++ ":"
              ++ OTCQuote.toToken q ++ ":" ++ "dex:" ++ r)
      with ("routing:edge:solana:" ++ OTCQuote.fromToken q ++ ":"
              ++ OTCQuote.toToken q ++ ":" ++ "dex:" ++ r).
    change (":dex:") with (":" ++ "dex:" ++ "").
    rewrite !prefix_app_same. apply prefix_nil.
  - left. unfold otcPrefix, RedisKey.otcQuote.
    rewrite !prefix_app_same. apply prefix_nil.
Qed.

(** When the token symbols of a quote hold no glob metacharacter, its key
    matches one of the two patterns scanned for its pair. *)
Lemma quoteKey_matches (q : OTCQuote.t) :
  globFree (OTCQuote.fromToken q) = true -> globFree (OTCQuote.toToken q) = true ->
  Glob.matches (otcPattern (OTCQuote.fromToken q) (OTCQuote.toToken q)) (quoteKey q) = true
  \/ Glob.matches (dexPattern (OTCQuote.fromToken q) (OTCQuote.toToken q)) (quoteKey q)
     = true.
Proof.
  intros Hf Ht. rewrite otcPattern_prefix, dexPattern_prefix by assumption.
  apply quoteKey_prefix.
Qed.

Lemma scan_intro (st : store) (now : Z) (pattern k : string) (e : entry) :
  st !! k = Some e -> now < ent_expires e -> Glob.matches pattern k = true ->
  k ∈ Redis.scan st now pattern.
Proof.
  intros Hk Hlive Hp. unfold Redis.scan. apply list_elem_of_omap.
  exists (k, e). split; [ now apply elem_of_map_to_list | ].
  cbn [fst snd]. rewrite Hp. apply Z.ltb_lt in Hlive. now rewrite Hlive.
Qed.

Lemma loadQuotes_intro (st : store) (now : Z) (F T k : string) (e : entry)
    (q : OTCQuote.t) :
  st !! k = Some e -> ent_value e = VQuote q -> now < ent_expires e ->
  Glob.matches (otcPattern F T) k = true \/ Glob.matches (dexPattern F T) k = true ->
  In q (loadQuotes st now F T).
Proof.
  intros Hk Hv Hlive Hp. unfold loadQuotes, Redis.mget.
  apply list_elem_of_In, list_elem_of_omap.
  exists (Redis.get st now k). split.
  - apply list_elem_of_In, in_map, list_elem_of_In, elem_of_app.
    destruct Hp as [Hp|Hp]; [ left | right ];
      exact (scan_intro st now _ k e Hk Hlive Hp).
  - unfold Redis.get. rewrite Hk. apply Z.ltb_lt in Hlive. rewrite Hlive, Hv.
    reflexivity.
Qed.

Lemma loadQuotes_get (st : store) (now : Z) (F T : string) (q : OTCQuote.t) :
  In q (loadQuotes st now F T) -> exists k, Redis.get st now k = Some (VQuote q).
Proof.
  unfold loadQuotes, Redis.mget. rewrite <- list_elem_of_In, list_elem_of_omap.
  intros (raw & Hraw & Hparse).
  rewrite list_elem_of_In, in_map_iff in Hraw. destruct Hraw as (k & <- & _).
  exists k. destruct (Redis.get st now k) as [[q'|p|r|d|e|s]|]; try discriminate.
  cbn in Hparse. congruence.
Qed.

(** X1.  A cached quote is read back, provided its token symbols hold no
    glob metacharacter ([*], [?], [[], backslash): from the instant it is
    cached until its time to live runs out (the time to its expiry, and at
    least one second), [loadQuotes] and [getCachedQuotes] for the quote's own
    pair return it, whatever else the cache holds.  The symbols go into the
    [MATCH] pattern as they are, so the proviso is needed:
    [cacheQuote_glob_symbol] shows a quote that its own pair does not find. *)
Theorem cacheQuote_read_back (st : store) (now now' : Z) (q : OTCQuote.t) :
  globFree (OTCQuote.fromToken q) = true ->
  globFree (OTCQuote.toToken q) = true ->
  now' < now + Z.max MIN_TTL_MS (OTCQuote.expiry q - now) ->
  In q (loadQuotes (cacheQuote st now q) now' (OTCQuote.fromToken q) (OTCQuote.toToken q))
  /\ In q (getCachedQuotes (cacheQuote st now q) now'
             (OTCQuote.fromToken q) (OTCQuote.toToken q)).
Proof.
  intros Hfrom Hto Hlive.
  assert (H : In q (loadQuotes (cacheQuote st now q) now'
                      (OTCQuote.fromToken q) (OTCQuote.toToken q))).
  { eapply loadQuotes_intro with (k := quoteKey q).
    - unfold cacheQuote, Redis.set_px. apply lookup_insert_eq.
    - reflexivity.
    - exact Hlive.
    - now apply quoteKey_matches. }
  split; [ exact H | ]. unfold getCachedQuotes. apply filter_In. auto.
Qed.

Lemma cacheQuote_read_back_witness :
  In Retry.jupiter (loadQuotes (cacheQuote ∅ 0 Retry.jupiter) 99999 "USDC" "EURC")
  /\ In Retry.jupiter (getCachedQuotes (cacheQuote ∅ 0 Retry.jupiter) 99999 "USDC" "EURC").
Proof.
  apply (cacheQuote_read_back ∅ 0 99999 Retry.jupiter); vm_compute; reflexivity.
Defined.

(** A quote whose source symbol holds a character class is cached under the
    symbol as written, and the scan for its own pair, which reads the class as
    a pattern, does not find it; the scan for [USD] does. *)
Lemma cacheQuote_glob_symbol :
  Redis.get (cacheQuote ∅ 0 GlobSample.bracket) 10 (quoteKey GlobSample.bracket)
  = Some (VQuote GlobSample.bracket)
  /\ loadQuotes (cacheQuote ∅ 0 GlobSample.bracket) 10 "US[D]" "EUR" = []
  /\ loadQuotes (cacheQuote ∅ 0 GlobSample.usd) 10 "US[D]" "EUR" = [GlobSample.usd].
Proof. repeat split; vm_compute; reflexivity. Qed.


End CacheReadBack.

(** ** What a returned route is made of *)

Section RouteShape.

Import OtcRoutingService.

Ltac open_guards H :=
  repeat match type of H with
         | In _ (if ?c then [] else _) =>
             let E := fresh "G" in destruct c eqn:E; [ destruct H | ]
         end.

Lemma oneHopRoutes_shape (now guard : Z) (a : Q) (qs : list OTCQuote.t)
    (quotes : OTCQuote.t -> Prop) (r : RouteResult.t) :
  (forall q, In q qs -> quotes q) ->
  In r (oneHopRoutes now guard a qs) -> candidateShape now guard a quotes r.
Proof.
  intros Hqs. unfold oneHopRoutes. rewrite in_flat_map. intros (q & Hq & H).
  cbv zeta in H. open_guards H. destruct H as [<-|[]].
  apply (shape1 now guard a quotes q); [ auto | repeat split; assumption ].
Qed.

Lemma twoHopRoutes_shape (now guard : Z) (a : Q) (l1 l2 : list OTCQuote.t)
    (quotes : OTCQuote.t -> Prop) (r : RouteResult.t) :
  (forall q, In q l1 -> quotes q) -> (forall q, In q l2 -> quotes q) ->
  In r (twoHopRoutes now guard a l1 l2) -> candidateShape now guard a quotes r.
Proof.
  intros H1 H2. unfold twoHopRoutes. rewrite in_flat_map. intros (q1 & Hq1 & H).
  cbv zeta in H. open_guards H. rewrite in_flat_map in H. destruct H as (q2 & Hq2 & H).
  open_guards H. destruct H as [<-|[]].
  apply (shape2 now guard a quotes q1 q2); auto; repeat split; assumption.
Qed.

Lemma threeHopRoutes_shape (now guard : Z) (a : Q) (l1 l2 l3 : list OTCQuote.t)
    (quotes : OTCQuote.t -> Prop) (r : RouteResult.t) :
  (forall q, In q l1 -> quotes q) -> (forall q, In q l2 -> quotes q) ->
  (forall q, In q l3 -> quotes q) ->
  In r (threeHopRoutes now guard a l1 l2 l3) -> candidateShape now guard a quotes r.
Proof.
  intros H1 H2 H3. unfold threeHopRoutes. rewrite in_flat_map. intros (q1 & Hq1 & H).
  cbv zeta in H. open_guards H. rewrite in_flat_map in H. destruct H as (q2 & Hq2 & H).
  open_guards H. rewrite in_flat_map in H. destruct H as (q3 & Hq3 & H).
  open_guards H. destruct H as [<-|[]].
  apply (shape3 now guard a quotes q1 q2 q3); auto; repeat split; assumption.
Qed.

(** Every candidate of a call has one of the three shapes, over quotes that
    are readable in the cache. *)
Lemma candidates_shape (st : store) (now : Z) (req : BestRouteRequest) (r : RouteResult.t) :
  In r (candidates st now req) ->
  candidateShape now (expiryGuardOf now req) (amountIn req) (cachedAt st now) r.
Proof.
  assert (Hload : forall F T q, In q (loadQuotes st now F T) -> cachedAt st now q).
  { intros F T q Hq. now apply loadQuotes_get in Hq. }
  unfold candidates. cbv zeta. rewrite !in_app_iff. intros [H|[H|H]].
  - rewrite in_flat_map in H. destruct H as ([l1 l2] & Hlegs & H).
    unfold twoHopResults in Hlegs. rewrite in_map_iff in Hlegs.
    destruct Hlegs as (mid & E & _). injection E as <- <-.
    eapply twoHopRoutes_shape; [ | | exact H ]; cbn [fst snd]; eauto.
  - rewrite in_flat_map in H. destruct H as ([[l1 l2] l3] & Hlegs & H).
    unfold threeHopResults in Hlegs. cbv zeta in Hlegs.
    rewrite in_flat_map in Hlegs. destruct Hlegs as (mid1 & _ & Hlegs).
    destruct (isEndpoint req mid1); [ destruct Hlegs | ].
    rewrite in_flat_map in Hlegs. destruct Hlegs as (mid2 & _ & Hlegs).
    destruct (isEndpoint req mid2 || String.eqb mid2 mid1); [ destruct Hlegs | ].
    destruct Hlegs as [E|[]]. injection E as <- <- <-.
    eapply threeHopRoutes_shape; [ | | | exact H ]; cbn [fst snd]; eauto.
  - eapply oneHopRoutes_shape; [ | exact H ]; eauto.
Qed.

Lemma legAccepted_priced (st : store) (now guard : Z) (x : Q) (q : OTCQuote.t) :
  cachedAt st now q -> legAccepted guard x q ->
  pricedBy st now guard (toRouteStep q x (computeOutput x q)).
Proof.
  intros [k Hk] (He & Hm & Ho). exists q, k. cbn [toRouteStep RouteStep.amountIn
    RouteStep.amountOut]. repeat split; auto.
  - unfold expired in He. now apply Z.leb_gt in He.
  - now apply le_false in Ho.
Qed.


Lemma alone_is_candidate (st : store) (now : Z) (req : BestRouteRequest)
    (field : option RouteResult.t) (r : RouteResult.t) :
  alone field (actions st now req) = Some r -> In r (candidates st now req).
Proof.
  rewrite alone_actions. intros H. now apply updateBest_fold_none in H.
Qed.

(** X3.  The per-leg filter.  When no other call overlaps a call of
    [getBestRoute], then, whatever the field of the service held before,
    every step of the route that the call returns is priced by a quote that
    is readable in the cache at the time of the call, expires after
    [now + minExpiryMs], has no (non-zero) [maxAmountIn] below the amount
    entering the step, and turns that amount into the strictly positive
    amount leaving the step. *)
Theorem getBestRoute_steps_priced (st : store) (now : Z) (req : BestRouteRequest)
    (field : option RouteResult.t) :
  match alone field (actions st now req) with
  | Some r => Forall (pricedBy st now (expiryGuardOf now req)) (RouteResult.steps r)
  | None => True
  end.
Proof.
  destruct (alone field (actions st now req)) as [r|] eqn:E; [ | exact I ].
  apply alone_is_candidate, candidates_shape in E.
  destruct E; cbv zeta; cbn [mkRoute RouteResult.steps];
    repeat (apply Forall_cons_2); try apply Forall_nil_2;
    apply legAccepted_priced; assumption.
Qed.

(** X4.  The totals of a returned route agree with its steps.  When no
    other call overlaps a call of [getBestRoute], then, whatever the field of
    the service held before, the route that the call returns has one to three
    steps, the first takes in the requested amount, [totalIn] is the
    requested amount, [totalOut] is what the last step puts out and is
    strictly positive, [totalFeesBps] is the sum of the steps' fees, and
    [effectiveRate] is [totalOut / totalIn]. *)
Theorem getBestRoute_totals (st : store) (now : Z) (req : BestRouteRequest)
    (field : option RouteResult.t) :
  match alone field (actions st now req) with
  | Some r => totalsAgree (amountIn req) r
  | None => True
  end.
Proof.
  destruct (alone field (actions st now req)) as [r|] eqn:E; [ | exact I ].
  apply alone_is_candidate, candidates_shape in E.
  destruct E as [q Hq (_ & _ & Ho)
                |q1 q2 Hq1 Hq2 _ (_ & _ & Ho)
                |q1 q2 q3 Hq1 Hq2 Hq3 _ _ (_ & _ & Ho)];
    apply le_false in Ho; cbv zeta; unfold totalsAgree;
    cbn [mkRoute RouteResult.steps RouteResult.totalIn RouteResult.totalOut
         RouteResult.totalFeesBps RouteResult.effectiveRate length head last
         option_map List.map toRouteStep RouteStep.amountIn RouteStep.amountOut
         RouteStep.feeBps Qsum fold_right];
    repeat split; try lia; try assumption; unfold fee; ring.
Qed.

End RouteShape.

(** ** Empty results and ties *)

Section RouteChoice.

Import OtcRoutingService.

Lemma scan_allExpired (st : store) (now : Z) (pfx : string) :
  allExpired st now = true -> Redis.scan st now pfx = [].
Proof.
  unfold allExpired, Redis.scan. induction (map_to_list st) as [|[k e] l IH];
    [ reflexivity | ].
  cbn [forallb omap list_omap]. intros H. apply andb_true_iff in H as [He Hl].
  cbn [fst snd] in *. apply Z.leb_le in He.
  replace (now <? ent_expires e) with false by (symmetry; apply Z.ltb_ge; lia).
  rewrite andb_false_r. now apply IH.
Qed.

Lemma loadQuotes_allExpired (st : store) (now : Z) (F T : string) :
  allExpired st now = true -> loadQuotes st now F T = [].
Proof.
  intros H. unfold loadQuotes. now rewrite !scan_allExpired.
Qed.

Lemma flat_map_all_nil {A B} (f : A -> list B) (l : list A) :
  (forall x, In x l -> f x = []) -> flat_map f l = [].
Proof.
  induction l as [|x l IH]; intros H; [ reflexivity | ].
  cbn [flat_map]. rewrite (H x) by now left. apply IH. intros y Hy. apply H. now right.
Qed.

Lemma list_sum_all_zero {A} (f : A -> nat) (l : list A) :
  (forall x, In x l -> f x = 0%nat) -> list_sum (List.map f l) = 0%nat.
Proof.
  induction l as [|x l IH]; intros H; [ reflexivity | ].
  cbn [List.map list_sum]. rewrite (H x) by now left. apply IH.
  intros y Hy. apply H. now right.
Qed.

(** Nothing is found in a cache without a live entry. *)
Lemma getBestRoute_nothing_live (st : store) (now : Z) (req : BestRouteRequest) :
  allExpired st now = true ->
  getBestRoute st now req = mkResponse None 0.
Proof.
  intros H.
  assert (H2 : forall legs, In legs (twoHopResults st now req) -> legs = ([], [])).
  { intros legs Hin. unfold twoHopResults in Hin. apply in_map_iff in Hin as (mid & <- & _).
    now rewrite !loadQuotes_allExpired. }
  assert (H3 : forall legs, In legs (threeHopResults st now req) -> legs = ([], [], [])).
  { intros legs Hin. unfold threeHopResults in Hin. cbv zeta in Hin.
    apply in_flat_map in Hin as (mid1 & _ & Hin).
    destruct (isEndpoint req mid1); [ destruct Hin | ].
    apply in_flat_map in Hin as (mid2 & _ & Hin).
    destruct (isEndpoint req mid2 || String.eqb mid2 mid1); [ destruct Hin | ].
    destruct Hin as [<-|[]]. now rewrite !loadQuotes_allExpired. }
  unfold getBestRoute. rewrite alone_actions.
  unfold candidates, consideredCount. cbv zeta.
  rewrite loadQuotes_allExpired by exact H.
  rewrite (flat_map_all_nil _ (twoHopResults st now req))
    by (intros legs Hin; now rewrite (H2 legs Hin)).
  rewrite (flat_map_all_nil _ (threeHopResults st now req))
    by (intros legs Hin; now rewrite (H3 legs Hin)).
  rewrite (list_sum_all_zero _ (twoHopResults st now req))
    by (intros legs Hin; now rewrite (H2 legs Hin)).
  rewrite (list_sum_all_zero _ (threeHopResults st now req))
    by (intros legs Hin; now rewrite (H3 legs Hin)).
  reflexivity.
Qed.

(** X5.  When every entry of the cache has outlived its time to live, the
    router finds nothing: [getBestRoute] returns no route and reports zero
    considered quotes, for any request. *)
Theorem getBestRoute_expired_cache (st : store) (now : Z) (req : BestRouteRequest) :
  allExpired st now = true ->
  getBestRoute st now req = mkResponse None 0.
Proof. apply getBestRoute_nothing_live. Qed.

Lemma getBestRoute_expired_cache_witness :
  getBestRoute (prefetch Sample.batches) 100000 Sample.request = mkResponse None 0.
Proof.
  apply (getBestRoute_expired_cache (prefetch Sample.batches) 100000 Sample.request).
  vm_compute. reflexivity.
Defined.

(** [updateBest] keeps the first route that reaches the largest output. *)
Lemma updateBest_first_max (l : list RouteResult.t) (b0 : RouteResult.t) :
  exists r,
    fold_left updateBest l (Some b0) = Some r
    /\ ((r = b0 /\ forall c, In c l -> (RouteResult.totalOut c <= RouteResult.totalOut r)%Q)
        \/ exists l1 l2,
             l = (l1 ++ r :: l2)%list
             /\ (RouteResult.totalOut b0 < RouteResult.totalOut r)%Q
             /\ (forall c, In c l1 -> (RouteResult.totalOut c < RouteResult.totalOut r)%Q)
             /\ (forall c, In c l2 -> (RouteResult.totalOut c <= RouteResult.totalOut r)%Q)).
Proof.
  revert b0. induction l as [|c l IH]; intros b0; cbn [fold_left].
  - exists b0. split; [ reflexivity | ]. left. split; [ reflexivity | intros c [] ].
  - unfold updateBest at 2.
    destruct (Js.gt (RouteResult.totalOut c) (RouteResult.totalOut b0)) eqn:G.
    + apply gt_true in G. destruct (IH c) as (r & Hr & Hcase).
      exists r. split; [ exact Hr | ]. right.
      destruct Hcase as [[-> Hall]|(l1 & l2 & -> & Hlt & H1 & H2)].
      * exists [], l. repeat split; auto. intros c' [].
      * exists (c :: l1), l2. repeat split; auto.
        -- now apply Qlt_trans with (RouteResult.totalOut c).
        -- intros c' [<-|Hc']; auto.
    + apply gt_false in G. destruct (IH b0) as (r & Hr & Hcase).
      exists r. split; [ exact Hr | ].
      destruct Hcase as [[-> Hall]|(l1 & l2 & -> & Hlt & H1 & H2)].
      * left. split; [ reflexivity | ]. intros c' [<-|Hc']; auto.
      * right. exists (c :: l1), l2. repeat split; auto.
        intros c' [<-|Hc']; auto.
        now apply Qle_lt_trans with (RouteResult.totalOut b0).
Qed.

(** X6.  Ties go to the route found first.  The routes are compared in the
    order 2-hop, 3-hop, 1-hop.  When no other call overlaps the call, then,
    whatever the field of the service held before, the route returned is the
    first one in that order that reaches the largest output: every candidate
    before it yields strictly less, every candidate after it yields no more;
    and no route is returned only when the call has no candidate at all. *)
Theorem getBestRoute_first_best (st : store) (now : Z) (req : BestRouteRequest)
    (field : option RouteResult.t) :
  match alone field (actions st now req) with
  | Some r =>
      exists before after,
        candidates st now req = (before ++ r :: after)%list
        /\ Forall (fun c => (RouteResult.totalOut c < RouteResult.totalOut r)%Q) before
        /\ Forall (fun c => (RouteResult.totalOut c <= RouteResult.totalOut r)%Q) after
  | None => candidates st now req = []
  end.
Proof.
  rewrite alone_actions. destruct (candidates st now req) as [|c l];
    [ reflexivity | ].
  cbn [fold_left updateBest].
  destruct (updateBest_first_max l c) as (r & -> & Hcase).
  destruct Hcase as [[-> Hall]|(l1 & l2 & -> & Hlt & H1 & H2)].
  - exists [], l. repeat split; [ apply Forall_nil_2 | ].
    apply Forall_forall. intros c' Hc'. apply Hall. now apply list_elem_of_In.
  - exists (c :: l1), l2. repeat split.
    + apply Forall_forall. intros c' Hc'. apply list_elem_of_In in Hc'.
      destruct Hc' as [<-|Hc']; auto.
    + apply Forall_forall. intros c' Hc'. apply H2. now apply list_elem_of_In.
Qed.

End RouteChoice.

(** ** Bounds of the scorer *)

Section ScoringBounds.

Import SettlementScoringService.

Variable Math_sqrt : Q -> Q.

Lemma min_cases (a b : Q) :
  ((a <= b)%Q /\ Js.min a b = a) \/ ((b < a)%Q /\ Js.min a b = b).
Proof.
  unfold Js.min. destruct (Qle_bool a b) eqn:E.
  - left. split; [ now apply Qle_bool_iff | reflexivity ].
  - right. split; [ now apply le_false | reflexivity ].
Qed.

(** X7.  The confidence reported by [getScoringMetadata] lies between 0.5
    and 1, whatever the route, the quotes and their risk data, as long as
    the risk of every quote is a number; it is [NaN] as soon as the risk
    table is asked for a venue id that names a member of
    [Object.prototype]. *)
Theorem getScoringMetadata_confidence (route : RouteResult.t) (quotes : list OTCQuote.t) :
  let confidence := ScoringMeta.confidence (getScoringMetadata Math_sqrt route quotes) in
  if forallb numericRisk quotes
  then exists c, confidence = Js.Num c /\ ((1 # 2) <= c <= 1)%Q
  else confidence = Js.NaN.
Proof.
  cbv zeta. unfold getScoringMetadata. cbv zeta. cbn [ScoringMeta.confidence].
  pose proof (getAverageCounterpartyRisk_number quotes) as Havg.
  destruct (forallb numericRisk quotes).
  - destruct Havg as (avg & ->). cbn [Js.mul Js.sub Js.minN Js.maxN Js.arith].
    eexists. split; [ reflexivity | ].
    match goal with
    | |- context [Js.min 1 ?x] => generalize x
    end.
    intros x.
    destruct (min_cases 1 x) as [[H1 E1]|[H1 E1]]; rewrite E1;
      match goal with
      | |- context [Js.max 0 ?y] =>
          destruct (max_cases 0 y) as [[H2 E2]|[H2 E2]]; rewrite E2
      end;
      match goal with
      | |- context [Js.max (1 # 2) ?y] =>
          destruct (max_cases (1 # 2) y) as [[H3 E3]|[H3 E3]]; rewrite E3
      end; split; lra.
  - rewrite Havg. reflexivity.
Qed.

Lemma Math_max_snoc (l : list Q) (x : Q) :
  Math_max (l ++ [x])
  = Finite (match Math_max l with
            | NegInfinity => x
            | Finite m => Js.max m x
            end).
Proof.
  unfold Math_max. rewrite fold_left_app. cbn [fold_left].
  destruct (fold_left _ l NegInfinity); reflexivity.
Qed.

(** X8.  The two scoring functions agree: for the output of the route
    itself, [calculateNetOutput] is
    [max(0, totalOut - timePenalty - totalOut * counterpartyRisk)] with the
    time penalty and the counterparty risk that [getScoringMetadata] reports
    (also for an empty quote list, where [Math.max()] is [-Infinity]), and
    the reported settlement delay is not negative.  The net output is a
    number that is not negative as long as the risk of every quote is a
    number; it is [NaN] as soon as the risk table is asked for a venue id
    that names a member of [Object.prototype]. *)
Theorem scoring_functions_agree (route : RouteResult.t) (quotes : list OTCQuote.t) :
  let meta := getScoringMetadata Math_sqrt route quotes in
  let net := calculateNetOutput Math_sqrt (RouteResult.totalOut route) route quotes in
  net = Js.maxN (Js.Num 0)
          (Js.sub (Js.sub (Js.Num (RouteResult.totalOut route))
                          (ScoringMeta.timePenalty meta))
                  (Js.mul (Js.Num (RouteResult.totalOut route))
                          (ScoringMeta.counterpartyRisk meta)))
  /\ (0 <= ScoringMeta.settlementDays meta)%Q
  /\ (if forallb numericRisk quotes
      then exists n, net = Js.Num n /\ (0 <= n)%Q
      else net = Js.NaN).
Proof.
  cbv zeta. unfold getScoringMetadata, calculateNetOutput. cbv zeta.
  cbn [ScoringMeta.timePenalty ScoringMeta.counterpartyRisk ScoringMeta.settlementDays].
  rewrite Math_max_snoc.
  assert (Hpen : forall g v,
             calculateTimePenalty Math_sqrt g (Math_max (List.map settlementDaysOf quotes)) v
             = calculateTimePenalty Math_sqrt g
                 (Finite match Math_max (List.map settlementDaysOf quotes) with
                         | NegInfinity => 0%Q
                         | Finite m => Js.max m 0
                         end) v).
  { intros g v. destruct (Math_max (List.map settlementDaysOf quotes)) as [|m];
      [ reflexivity | ].
    unfold calculateTimePenalty, Js.max, Js.le.
    destruct (Qle_bool m 0) eqn:E; [ reflexivity | now rewrite E ]. }
  rewrite Hpen. split; [ reflexivity | ]. split.
  - destruct (Math_max (List.map settlementDaysOf quotes)) as [|m]; [ apply Qle_refl | ].
    destruct (max_cases m 0) as [[H E]|[H E]]; rewrite E;
      [ apply Qle_refl | now apply Qlt_le_weak ].
  - pose proof (getAverageCounterpartyRisk_number quotes) as Havg.
    rewrite getVolatilityForRoute_spec.
    destruct (forallb numericRisk quotes).
    + destruct Havg as (avg & ->).
      match goal with
      | |- context [calculateTimePenalty ?s ?g ?d ?v] =>
          assert (Hp : exists p, calculateTimePenalty s g d v = Js.Num p)
      end.
      { unfold calculateTimePenalty.
        match goal with
        | |- context [Js.le ?m 0] => destruct (Js.le m 0)
        end; eexists; reflexivity. }
      destruct Hp as (p & ->). cbn [Js.mul Js.sub Js.maxN Js.arith].
      eexists. split; [ reflexivity | ].
      match goal with
      | |- (0 <= Js.max 0 ?y)%Q => destruct (max_cases 0 y) as [[H E]|[H E]]; rewrite E
      end; [ exact H | apply Qle_refl ].
    + rewrite Havg.
      match goal with
      | |- context [calculateTimePenalty ?s ?g ?d ?v] =>
          destruct (calculateTimePenalty s g d v)
      end; reflexivity.
Qed.

End ScoringBounds.

(** ** Provisional and reserved quotes over time *)

Section QuoteWindows.

Import QuoteLifecycleService.

(** X9.  A provisional quote lives for 15 seconds: [storeProvisionalQuote]
    names it ["quote:" ++ uuid] and sets its expiry 15 s ahead, and
    [getProvisionalQuote] returns exactly the stored quote at every instant
    before that expiry and nothing from the expiry on. *)
Theorem storeProvisionalQuote_window (st : store) (now : Z) (uuid : string)
    (route : option RouteResult.t) (amountIn amountOut : Q) (netAmountOut : Js.num)
    (feeBps : Q) (scoringMeta : ScoringMeta.t) (type : QuoteType) :
  let stored :=
    storeProvisionalQuote st now uuid route amountIn amountOut netAmountOut feeBps
      scoringMeta type in
  ProvisionalQuote.quoteId stored.2 = "quote:" ++ uuid
  /\ ProvisionalQuote.expiryTs stored.2 = now + 15000
  /\ forall now',
       getProvisionalQuote stored.1 now' (ProvisionalQuote.quoteId stored.2)
       = if now' <? now + 15000 then Some stored.2 else None.
Proof.
  cbv zeta. unfold storeProvisionalQuote. cbn [fst snd ProvisionalQuote.quoteId
    ProvisionalQuote.expiryTs]. unfold PROVISIONAL_TTL_SEC.
  split; [ reflexivity | ]. split; [ reflexivity | ]. intros now'.
  unfold getProvisionalQuote. rewrite get_set_ex_same.
  change (now + 15 * 1000) with (now + 15000).
  destruct (now' <? now + 15000) eqn:E; [ | reflexivity ].
  cbn [ProvisionalQuote.expiryTs]. apply Z.ltb_lt in E.
  replace (now + 15000 <=? now') with false by (symmetry; apply Z.leb_gt; lia).
  reflexivity.
Qed.


(** X11.  A reservation can be read for 300 seconds: after [reserveQuote]
    succeeds, [getReservedQuote] returns the reservation at every instant
    before [reservedUntilTs], leaving the store as it is, and nothing from
    then on.  A reservation that is still in the store when its
    [reservedUntilTs] has come (the TTL of the key starts when Redis runs the
    [SET], after the timestamp was taken) is deleted by the read, which
    returns nothing; in any store, a reservation read before its
    [reservedUntilTs] is returned and the store is left as it is. *)
Theorem getReservedQuote_window (st : store) (now : Z) (uuid quoteId clientId : string)
    (meta : option OtcReservationMeta.t) :
  match reserveQuote st now uuid quoteId clientId meta with
  | Throw _ => True
  | Ok (st', reserved) =>
      forall now',
        (getReservedQuote st' now' quoteId).2
        = (if now' <? ReservedQuote.reservedUntilTs reserved
           then Some reserved else None)
        /\ (now' < ReservedQuote.reservedUntilTs reserved ->
            (getReservedQuote st' now' quoteId).1 = st')
  end
  /\ forall (held : store) (now' : Z) (reserved : ReservedQuote.t),
       Redis.get held now' (RedisKey.reservedQuote quoteId) = Some (VReserved reserved) ->
       getReservedQuote held now' quoteId
       = if ReservedQuote.reservedUntilTs reserved <=? now'
         then (Redis.del held (RedisKey.reservedQuote quoteId), None)
         else (held, Some reserved).
Proof.
  split.
  - unfold reserveQuote.
    destruct (getProvisionalQuote st now quoteId) as [p|]; [ | exact I ].
    intros now'. unfold getReservedQuote.
    rewrite get_del_other by (apply not_eq_sym, reserved_not_provisional).
    rewrite get_set_ex_same. cbn [ReservedQuote.reservedUntilTs].
    unfold RESERVED_TTL_SEC.
    destruct (now' <? now + 300 * 1000) eqn:E.
    + apply Z.ltb_lt in E. cbv beta iota. cbn [ReservedQuote.reservedUntilTs].
      replace (now + 300 * 1000 <=? now') with false by (symmetry; apply Z.leb_gt; lia).
      split; reflexivity.
    + split; [ reflexivity | ]. apply Z.ltb_ge in E. intros Hlt. lia.
  - intros held now' reserved Hget. unfold getReservedQuote. now rewrite Hget.
Qed.

(** A reservation stamped at instant 10 whose key Redis set at instant 12:
    read at instant 300011 it is still in the store, and the read deletes
    it. *)
Example getReservedQuote_deletes :
  let reserved :=
    ReservedQuote.mk Flow.afterQuote.2 "reservation:res-1" "client-1" 300010 None in
  let held :=
    Redis.set_ex ∅ 12 (RedisKey.reservedQuote Flow.quoteId) (VReserved reserved)
      RESERVED_TTL_SEC in
  Redis.get held 300011 (RedisKey.reservedQuote Flow.quoteId) = Some (VReserved reserved)
  /\ getReservedQuote held 300011 Flow.quoteId = (∅, None).
Proof.
  cbv zeta. split; vm_compute; reflexivity.
Qed.

End QuoteWindows.

(** ** Deposit instructions *)

Section DepositInstructionsProps.

Import DepositService.

Lemma ref_not_deposit_id (ref uuid : string) :
  refKey ref <> RedisKey.deposit ("deposit:" ++ uuid).
Proof. distinct_keys. Qed.

Lemma getDeposit_created (st : store) (now now' : Z) (uuid k : string) (d : DepositRecord.t) :
  k <> RedisKey.deposit ("deposit:" ++ uuid) ->
  getDeposit
    (Redis.set_ex
       (Redis.set_ex st now (RedisKey.deposit ("deposit:" ++ uuid)) (VDeposit d)
          DEPOSIT_TTL_SEC)
       now k (VString ("deposit:" ++ uuid)) DEPOSIT_TTL_SEC)
    now' ("deposit:" ++ uuid)
  = if now' <? now + 3600000 then Some d else None.
Proof.
  intros Hk. unfold getDeposit. rewrite get_set_ex_other by exact Hk.
  rewrite get_set_ex_same. unfold DEPOSIT_TTL_SEC.
  change (now + 3600 * 1000) with (now + 3600000).
  destruct (now' <? now + 3600000); reflexivity.
Qed.

Lemma getDepositByReference_created (st : store) (now now' : Z)
    (uuid quoteId clientId : string) (reservedQuote : ReservedQuote.t) :
  let created := createDepositInstructions st now uuid quoteId clientId reservedQuote in
  getDepositByReference created.1 now' (DepositInstructions.paymentReference created.2)
  = if now' <? now + 3600000
    then Some (pendingDeposit uuid quoteId clientId reservedQuote created.2)
    else None.
Proof.
  cbv zeta. unfold createDepositInstructions. cbv zeta. cbn [fst snd].
  cbn [DepositInstructions.paymentReference].
  unfold getDepositByReference. rewrite get_set_ex_same. unfold DEPOSIT_TTL_SEC.
  change (now + 3600 * 1000) with (now + 3600000).
  destruct (now' <? now + 3600000) eqn:E; [ | reflexivity ].
  etransitivity; [ apply getDeposit_created, ref_not_deposit_id | ].
  rewrite E. reflexivity.
Qed.

(** X12.  Deposit instructions are found by their payment reference for one
    hour.  [createDepositInstructions] asks for the amount of the reserved
    quote, payable until the reservation ends; for 3600 s from its creation
    [getDepositByReference] on the returned payment reference and
    [getDeposit] on the deposit id both return the PENDING record that
    carries these instructions, and from then on they return nothing. *)
Theorem createDepositInstructions_lookup (st : store) (now : Z)
    (uuid quoteId clientId : string) (reservedQuote : ReservedQuote.t) :
  let created := createDepositInstructions st now uuid quoteId clientId reservedQuote in
  let record := pendingDeposit uuid quoteId clientId reservedQuote created.2 in
  DepositInstructions.amount created.2 = ReservedQuote.amountIn reservedQuote
  /\ DepositInstructions.depositExpiryTs created.2
     = ReservedQuote.reservedUntilTs reservedQuote
  /\ forall now',
       getDepositByReference created.1 now' (DepositInstructions.paymentReference created.2)
       = (if now' <? now + 3600000 then Some record else None)
       /\ getDeposit created.1 now' ("deposit:" ++ uuid)
          = (if now' <? now + 3600000 then Some record else None).
Proof.
  cbv zeta. unfold createDepositInstructions. cbv zeta. cbn [fst snd].
  split; [ reflexivity | ]. split; [ reflexivity | ]. intros now'.
  split.
  - apply (getDepositByReference_created st now now' uuid quoteId clientId reservedQuote).
  - apply getDeposit_created, ref_not_deposit_id.
Qed.

(** The method table, read at a name that no object inherits. *)
Lemma getPaymentMethod_plain (fromToken : string) :
  fromToken <> "BRL" -> fromToken <> "MXN" -> Js.inherited fromToken = false ->
  getPaymentMethod fromToken = Method "bank_transfer".
Proof.
  intros Hbrl Hmxn Hown. unfold getPaymentMethod, Js.lookup, methodMap.
  cbn [List.find fst snd].
  replace (String.eqb "BRL" fromToken) with false
    by (symmetry; apply String.eqb_neq; congruence).
  replace (String.eqb "MXN" fromToken) with false
    by (symmetry; apply String.eqb_neq; congruence).
  destruct (String.eqb "NGN" fromToken); [ reflexivity | ].
  destruct (String.eqb "USD" fromToken); [ reflexivity | ].
  destruct (String.eqb "EUR" fromToken); [ reflexivity | ].
  now rewrite Hown.
Qed.

(** The method table, read at the name of a member of [Object.prototype]. *)
Lemma getPaymentMethod_inherited (fromToken : string) :
  Js.inherited fromToken = true ->
  getPaymentMethod fromToken = PrototypeMember fromToken.
Proof.
  intros Hin. unfold getPaymentMethod, Js.lookup, methodMap. cbn [List.find fst snd].
  assert (Hne : forall own, Js.inherited own = false -> String.eqb own fromToken = false).
  { intros own Hown. apply String.eqb_neq. intros ->. congruence. }
  rewrite !Hne by reflexivity. now rewrite Hin.
Qed.

(** X13.  The payment method follows the source token of the reserved
    route, which is the source of its first step, and the empty string for a
    quote without route or with a route without steps.  BRL is paid by PIX,
    with a PIX key and a QR code; MXN by SPEI, with bank account details and
    no QR code; every other source that is not the name of a member of
    [Object.prototype], the empty one included, by bank transfer to an IBAN
    account, with no QR code.  For a source that is such a name
    ([constructor], [toString], ...) the method is no string but that
    member; the account is the IBAN account, with no QR code. *)
Theorem createDepositInstructions_method (st : store) (now : Z)
    (uuid quoteId clientId : string) (reservedQuote : ReservedQuote.t) :
  let instructions :=
    (createDepositInstructions st now uuid quoteId clientId reservedQuote).2 in
  let source := sourceToken reservedQuote in
  (source = "BRL" ->
   DepositInstructions.method instructions = "PIX"
   /\ DepositInstructions.accountDetails instructions = PixAccount "mock-pix-key@example.com"
   /\ DepositInstructions.qrCodeData instructions
      = Some (generatePixQrCode (DepositInstructions.paymentReference instructions)
                (ReservedQuote.amountIn reservedQuote)))
  /\ (source = "MXN" ->
      DepositInstructions.method instructions = "SPEI"
      /\ DepositInstructions.accountDetails instructions
         = SpeiAccount "Mock Bank" "1234567890" "0123456789"
      /\ DepositInstructions.qrCodeData instructions = None)
  /\ (source <> "BRL" -> source <> "MXN" -> Js.inherited source = false ->
      DepositInstructions.method instructions = "bank_transfer"
      /\ DepositInstructions.accountDetails instructions
         = IbanAccount "Mock Bank" "1234567890" "GB82WEST12345698765432"
      /\ DepositInstructions.qrCodeData instructions = None)
  /\ (Js.inherited source = true ->
      DepositInstructions.method instructions = PrototypeMember source
      /\ DepositInstructions.accountDetails instructions
         = IbanAccount "Mock Bank" "1234567890" "GB82WEST12345698765432"
      /\ DepositInstructions.qrCodeData instructions = None)
  /\ match ReservedQuote.route reservedQuote with
     | Some route =>
         match RouteResult.steps route with
         | first :: _ => source = RouteStep.fromToken first
         | [] =>
             source = EmptyString
             /\ DepositInstructions.method instructions = "bank_transfer"
             /\ DepositInstructions.accountDetails instructions
                = IbanAccount "Mock Bank" "1234567890" "GB82WEST12345698765432"
             /\ DepositInstructions.qrCodeData instructions = None
         end
     | None =>
         source = EmptyString
         /\ DepositInstructions.method instructions = "bank_transfer"
         /\ DepositInstructions.accountDetails instructions
            = IbanAccount "Mock Bank" "1234567890" "GB82WEST12345698765432"
         /\ DepositInstructions.qrCodeData instructions = None
     end.
Proof.
  cbv zeta. unfold createDepositInstructions. cbv zeta.
  cbn [snd DepositInstructions.method DepositInstructions.accountDetails
       DepositInstructions.qrCodeData DepositInstructions.paymentReference].
  split; [ | split; [ | split; [ | split ] ] ].
  - intros ->. repeat split.
  - intros ->. repeat split.
  - intros Hbrl Hmxn Hown. rewrite (getPaymentMethod_plain _ Hbrl Hmxn Hown).
    repeat split.
  - intros Hin. rewrite (getPaymentMethod_inherited _ Hin). repeat split.
  - unfold sourceToken.
    destruct (ReservedQuote.route reservedQuote) as [route|]; [ | repeat split ].
    destruct (RouteResult.steps route) as [|first rest]; [ repeat split | reflexivity ].
Qed.

Lemma createDepositInstructions_method_witness :
  let reserved :=
    ReservedQuote.mk Flow.afterQuote.2 "reservation:res-1" "client-1" 300020 None in
  let instructions :=
    (createDepositInstructions ∅ 20 "dep-1" Flow.quoteId "client-1" reserved).2 in
  DepositInstructions.method instructions = "PIX"
  /\ DepositInstructions.accountDetails instructions = PixAccount "mock-pix-key@example.com"
  /\ DepositInstructions.qrCodeData instructions
     = Some (generatePixQrCode (DepositInstructions.paymentReference instructions)
               (ReservedQuote.amountIn reserved)).
Proof.
  intros reserved instructions.
  apply (createDepositInstructions_method ∅ 20 "dep-1" Flow.quoteId "client-1" reserved).
  vm_compute. reflexivity.
Defined.

Lemma deposit_id_inj (uuid1 uuid2 : string) :
  uuid1 <> uuid2 ->
  RedisKey.deposit ("deposit:" ++ uuid2) <> RedisKey.deposit ("deposit:" ++ uuid1).
Proof.
  intros Hne H. unfold RedisKey.deposit in H.
  rewrite ?append_cons, ?append_nil in H. congruence.
Qed.

(** X14.  The payment reference does not identify the reservation.  For a
    reservation made by [reserveQuote] the reference is ["rreservat-"]
    followed by the first eight characters of the client id: the eight
    characters taken from the reservation id are always the start of the
    word "reservation".  When a second deposit is created under a reference
    already in use, the reference index is pointed at the second deposit:
    [getDepositByReference] then returns the second record.  The first
    record stays where it was: after the second creation, under whatever
    reference, [getDeposit] on the id of the first deposit still returns the
    first record, for 3600 s from its own creation, provided the two deposit
    ids differ. *)
Theorem paymentReference_collides (st : store) (now1 now2 : Z)
    (uuid1 uuid2 quote1 quote2 client1 client2 : string) (r1 r2 : ReservedQuote.t) :
  let first := createDepositInstructions st now1 uuid1 quote1 client1 r1 in
  let second := createDepositInstructions first.1 now2 uuid2 quote2 client2 r2 in
  (forall uuid, ReservedQuote.reservationId r1 = "reservation:" ++ uuid ->
                DepositInstructions.paymentReference first.2
                = "rreservat-" ++ Js.substring0 8 client1)
  /\ (DepositInstructions.paymentReference first.2
      = DepositInstructions.paymentReference second.2 ->
      forall now', now' < now2 + 3600000 ->
        getDepositByReference second.1 now' (DepositInstructions.paymentReference first.2)
        = Some (pendingDeposit uuid2 quote2 client2 r2 second.2))
  /\ (uuid1 <> uuid2 ->
      forall now',
        getDeposit second.1 now' ("deposit:" ++ uuid1)
        = if now' <? now1 + 3600000
          then Some (pendingDeposit uuid1 quote1 client1 r1 first.2)
          else None).
Proof.
  intros first second. split; [ | split ].
  - intros uuid E. unfold first, createDepositInstructions. cbv zeta.
    cbn [snd DepositInstructions.paymentReference]. rewrite E. reflexivity.
  - intros E now' Hlive. rewrite E.
    pose proof (getDepositByReference_created first.1 now2 now' uuid2 quote2 client2 r2)
      as H.
    cbv zeta in H. fold second in H. rewrite H. apply Z.ltb_lt in Hlive.
    now rewrite Hlive.
  - intros Hne now'. unfold second, createDepositInstructions at 1. cbv zeta.
    cbn [fst]. unfold getDeposit at 1.
    rewrite get_set_ex_other by apply ref_not_deposit_id.
    rewrite get_set_ex_other by now apply deposit_id_inj.
    fold (getDeposit first.1 now' ("deposit:" ++ uuid1)).
    unfold first, createDepositInstructions. cbv zeta. cbn [fst snd].
    apply getDeposit_created, ref_not_deposit_id.
Qed.

Lemma paymentReference_collides_witness :
  let r1 := ReservedQuote.mk Flow.afterQuote.2 "reservation:res-1" "client-1" 300020 None in
  let r2 := ReservedQuote.mk Flow.afterQuote.2 "reservation:res-2" "client-1" 300050 None in
  let first := createDepositInstructions ∅ 20 "dep-1" "quote:q-1" "client-1" r1 in
  let second := createDepositInstructions first.1 50 "dep-2" "quote:q-2" "client-1" r2 in
  DepositInstructions.paymentReference first.2 = "rreservat-client-1"
  /\ option_map DepositRecord.quoteId
       (getDepositByReference second.1 60 (DepositInstructions.paymentReference first.2))
     = Some "quote:q-2"
  /\ option_map DepositRecord.quoteId (getDeposit second.1 60 "deposit:dep-1")
     = Some "quote:q-1".
Proof.
  intros r1 r2 first second.
  destruct (paymentReference_collides ∅ 20 50 "dep-1" "dep-2" "quote:q-1" "quote:q-2"
              "client-1" "client-1" r1 r2) as (Href & Hsecond & Hfirst).
  split; [ | split ].
  - apply (Href "res-1"). reflexivity.
  - fold first second in Hsecond. rewrite Hsecond; [ reflexivity | vm_compute; reflexivity | lia ].
  - fold first second in Hfirst.
    change "deposit:dep-1" with ("deposit:" ++ "dep-1").
    rewrite Hfirst; [ reflexivity | discriminate ].
Defined.

End DepositInstructionsProps.

(** ** The deposit webhook on its failure paths *)

Section WebhookFailures.

Import DepositService ExecutionService RoutingController.

Lemma confirmDeposit_throws (st : store) (now : Z) (ref : string) (amt : Q)
    (tx : option string) :
  getDepositByReference st now ref = None ->
  exists e, confirmDeposit st now ref amt tx = Throw e.
Proof.
  unfold getDepositByReference, getDeposit, confirmDeposit.
  destruct (Redis.get st now (refKey ref)) as [[q|q|r|d'|e|[|c rest]]|]; eauto.
  destruct (Redis.get st now (RedisKey.deposit (String c rest))) as [[q|q|r|d'|e|s]|];
    eauto. discriminate.
Qed.

(** X15.  A notification for an unknown payment reference changes nothing:
    when [getDepositByReference] finds no record, [confirmDeposit] throws (a
    NotFound naming the reference when the reference index has no entry), and
    the webhook answers [{success: false}] without ids, leaves the store as it
    was and starts no execution. *)
Theorem depositWebhook_unknown_reference (st : store) (now : Z)
    (request : DepositWebhookRequest) :
  getDepositByReference st now (paymentReference request) = None ->
  (exists e, confirmDeposit st now (paymentReference request) (amountReceived request)
               (bankTxId request) = Throw e)
  /\ (Redis.get st now (refKey (paymentReference request)) = None ->
      confirmDeposit st now (paymentReference request) (amountReceived request)
        (bankTxId request)
      = Throw (NotFoundException
                 ("Deposit with reference " ++ paymentReference request ++ " not found")))
  /\ depositWebhook st now request
     = mkWebhookEffect st (mkWebhookResponse false None None) None.
Proof.
  intros H. split; [ now apply confirmDeposit_throws | ]. split.
  - intros Hnone. unfold confirmDeposit. now rewrite Hnone.
  - unfold depositWebhook.
    destruct (confirmDeposit_throws st now (paymentReference request)
                (amountReceived request) (bankTxId request) H) as [e ->].
    reflexivity.
Qed.

Lemma depositWebhook_unknown_reference_witness :
  depositWebhook Flow.afterExecute 30
    (mkWebhookRequest "rreservat-client-2" 10000 None None)
  = mkWebhookEffect Flow.afterExecute (mkWebhookResponse false None None) None.
Proof.
  apply (depositWebhook_unknown_reference Flow.afterExecute 30
           (mkWebhookRequest "rreservat-client-2" 10000 None None)).
  vm_compute. reflexivity.
Defined.



End WebhookFailures.

(** ** Execution records *)

Section ExecutionRecords.

Import ExecutionService RoutingController.

Lemma index_not_exec (a b : string) : quoteIndexKey a <> execKey b.
Proof. apply not_eq_sym, exec_not_index. Qed.

(** X17.  A new execution can be found by its id and by its quote id for
    24 hours.  [createExecution] names the record ["exec:" ++ uuid]; the
    record waits for approval, with a fresh approval token, exactly when some
    venue of the route contains ["otc"], and is EXECUTING without a token
    otherwise; it starts at step 0 with no hashes.  Until 86400 s have passed
    [getExecution] and [findExecutionByQuoteId] return this record, and
    afterwards nothing. *)
Theorem createExecution_lookup (st : store) (now : Z) (uuid uuidToken quoteId : string)
    (route : RouteResult.t) (fallbackRoute : option RouteResult.t) :
  let created := createExecution st now uuid uuidToken quoteId route fallbackRoute in
  ExecutionRecord.executionId created.2 = "exec:" ++ uuid
  /\ ExecutionRecord.quoteId created.2 = quoteId
  /\ ExecutionRecord.route created.2 = route
  /\ ExecutionRecord.fallbackRoute created.2 = fallbackRoute
  /\ ExecutionRecord.currentStep created.2 = Some 0%nat
  /\ ExecutionRecord.transactionHashes created.2 = Some []
  /\ (ExecutionRecord.status created.2, ExecutionRecord.approvalToken created.2)
     = (if requiresApproval route
        then (PENDING_APPROVAL, Some ("approval:" ++ uuidToken))
        else (EXECUTING, None))
  /\ forall now',
       getExecution created.1 now' ("exec:" ++ uuid)
       = (if now' <? now + 86400000 then Some created.2 else None)
       /\ findExecutionByQuoteId created.1 now' quoteId
          = (if now' <? now + 86400000 then [created.2] else []).
Proof.
  cbv zeta. unfold createExecution. cbv zeta. cbn [fst snd].
  cbn [ExecutionRecord.executionId ExecutionRecord.quoteId ExecutionRecord.route
       ExecutionRecord.fallbackRoute ExecutionRecord.currentStep
       ExecutionRecord.transactionHashes ExecutionRecord.status
       ExecutionRecord.approvalToken].
  repeat (split; [ reflexivity | ]). split.
  { destruct (requiresApproval route); reflexivity. }
  intros now'.
  match goal with
  | |- context [saveExecution st now ?r] => set (record := r)
  end.
  assert (Hget : getExecution
                   (Redis.set_ex (saveExecution st now record) now (quoteIndexKey quoteId)
                      (VString ("exec:" ++ uuid)) EXECUTION_TTL_SEC)
                   now' ("exec:" ++ uuid)
                 = if now' <? now + 86400000 then Some record else None).
  { unfold getExecution. rewrite get_set_ex_other by apply index_not_exec.
    unfold saveExecution. change (ExecutionRecord.executionId record) with ("exec:" ++ uuid).
    rewrite get_set_ex_same. unfold EXECUTION_TTL_SEC.
    change (now + 86400 * 1000) with (now + 86400000).
    destruct (now' <? now + 86400000); reflexivity. }
  split; [ exact Hget | ].
  unfold findExecutionByQuoteId. rewrite get_set_ex_same. unfold EXECUTION_TTL_SEC in *.
  change (now + 86400 * 1000) with (now + 86400000).
  destruct (now' <? now + 86400000) eqn:E; [ | reflexivity ].
  change (VString ("exec:" ++ uuid)) with (VString (String "e" ("xec:" ++ uuid))).
  cbv beta iota. change (String "e" ("xec:" ++ uuid)) with ("exec:" ++ uuid).
  rewrite Hget. reflexivity.
Qed.

Lemma getExecution_saved_at (st : store) (t t' : Z) (id : string) (record : ExecutionRecord.t) :
  ExecutionRecord.executionId record = id -> t' < t + 86400000 ->
  getExecution (saveExecution st t record) t' id = Some record.
Proof. intros <- H. now apply getExecution_saved_later. Qed.

(** X18.  Approval works once and only with the right token.  For a record
    that waits for approval, filed under its own id: [approveExecution] with
    any other token throws "Invalid approval token"; with the record's token
    it stores the record as EXECUTING with the token removed and nothing else
    changed; and from then on every further approval, whatever the token,
    throws "not pending approval". *)
Theorem approveExecution_once (st : store) (now : Z) (id token : string)
    (e : ExecutionRecord.t) :
  getExecution st now id = Some e ->
  ExecutionRecord.executionId e = id ->
  ExecutionRecord.status e = PENDING_APPROVAL ->
  ExecutionRecord.approvalToken e = Some token ->
  (forall other, other <> token ->
                 approveExecution st now id other = Throw (Error "Invalid approval token"))
  /\ exists st' e',
       approveExecution st now id token = Ok (st', e')
       /\ e' = merge e {| Updates.route := None;
                          Updates.status := Some EXECUTING;
                          Updates.approvalToken := Some None;
                          Updates.transactionHashes := None;
                          Updates.currentStep := None;
                          Updates.completedAt := None;
                          Updates.error := None |}
       /\ ExecutionRecord.status e' = EXECUTING
       /\ ExecutionRecord.approvalToken e' = None
       /\ getExecution st' now id = Some e'
       /\ forall any,
            approveExecution st' now id any
            = Throw (Error ("Execution " ++ id
                            ++ " is not pending approval (status: EXECUTING)")).
Proof.
  intros Hget Hid Hstatus Htoken. split.
  - intros other Hne. unfold approveExecution. rewrite Hget, Hstatus, Htoken.
    apply not_eq_sym, String.eqb_neq in Hne. now rewrite Hne.
  - unfold approveExecution at 1. rewrite Hget, Hstatus, Htoken, String.eqb_refl.
    unfold updateExecution. rewrite Hget.
    eexists _, _. split; [ reflexivity | ]. split; [ reflexivity | ].
    split; [ reflexivity | ]. split; [ reflexivity | ].
    assert (Hsaved : forall u,
               ExecutionRecord.status (merge e u) = EXECUTING ->
               getExecution (saveExecution st now (merge e u)) now id = Some (merge e u)).
    { intros u _. apply getExecution_saved_at; [ exact Hid | lia ]. }
    split; [ now apply Hsaved | ].
    intros any. unfold approveExecution. rewrite Hsaved by reflexivity. reflexivity.
Qed.

Lemma approveExecution_once_witness :
  (forall other, other <> Approval.token ->
                 approveExecution Approval.created.1 10 Approval.executionId other
                 = Throw (Error "Invalid approval token"))
  /\ exists st' e',
       approveExecution Approval.created.1 10 Approval.executionId Approval.token
       = Ok (st', e')
       /\ ExecutionRecord.status e' = EXECUTING
       /\ forall any,
            approveExecution st' 10 Approval.executionId any
            = Throw (Error ("Execution " ++ Approval.executionId
                            ++ " is not pending approval (status: EXECUTING)")).
Proof.
  destruct (approveExecution_once Approval.created.1 10 Approval.executionId Approval.token
              Approval.created.2) as [Hother (st' & e' & Hok & _ & Hs & _ & _ & Hagain)];
    try (vm_compute; reflexivity).
  split; [ exact Hother | ]. exists st', e'. auto.
Defined.

End ExecutionRecords.

(** ** The execution driver *)

Section DriverRuns.

Import ExecutionService RoutingController.

Variable execute : StepExecutor.
Variable id : string.

Lemma saveExecution_frame (st : store) (t : Z) (r : ExecutionRecord.t) (k : string) :
  String.prefix "exec:" k = false -> saveExecution st t r !! k = st !! k.
Proof.
  intros Hk. unfold saveExecution, Redis.set_ex, Redis.set_px.
  apply lookup_insert_ne. intros <-. unfold execKey in Hk.
  change "exec:" with ("exec:" ++ "") in Hk at 1.
  rewrite prefix_app_same, prefix_nil in Hk. discriminate.
Qed.

Lemma updateExecution_frame (st st' : store) (t : Z) (x : string) (u : Updates.t)
    (r : ExecutionRecord.t) (k : string) :
  String.prefix "exec:" k = false ->
  updateExecution st t x u = Ok (st', r) -> st' !! k = st !! k.
Proof.
  intros Hk H. apply updateExecution_inv in H as (existing & _ & _ & ->).
  now apply saveExecution_frame.
Qed.

Lemma runSteps_frame (k : string) (steps : list RouteStep.t) :
  String.prefix "exec:" k = false ->
  forall (i : nat) (st : store) (t : Z) (h : option (list string)),
    (runSteps execute id steps i st t h).1.1 !! k = st !! k.
Proof.
  intros Hk. induction steps as [|step rest IH]; intros i st t h; cbn [runSteps];
    [ reflexivity | ].
  destruct (updateExecution st t id (setCurrentStep i)) as [[st1 r1]|] eqn:E1;
    [ | reflexivity ].
  pose proof (updateExecution_frame _ _ _ _ _ _ _ Hk E1) as F1.
  destruct (execute step) as [tx|]; [ | exact F1 ].
  destruct (updateExecution st1 (t + STEP_DELAY_MS) id _) as [[st2 r2]|] eqn:E2;
    [ | exact F1 ].
  pose proof (updateExecution_frame _ _ _ _ _ _ _ Hk E2) as F2.
  rewrite IH. congruence.
Qed.

Lemma tryExecute_frame (k : string) (e : ExecutionRecord.t) (st : store) (t : Z) :
  String.prefix "exec:" k = false ->
  (tryExecute execute id e st t).1.1 !! k = st !! k.
Proof.
  intros Hk. unfold tryExecute.
  pose proof (runSteps_frame k (RouteResult.steps (ExecutionRecord.route e)) Hk 0%nat st t
                (ExecutionRecord.transactionHashes e)) as F.
  destruct (runSteps execute id _ 0%nat st t _) as [[st1 t1] [h|err]]; cbn [fst] in F;
    [ | exact F ].
  destruct (completeExecution st1 t1 id _) as [[st2 r2]|] eqn:E; [ | exact F ].
  unfold completeExecution in E. cbn [fst].
  rewrite (updateExecution_frame _ _ _ _ _ _ _ Hk E). exact F.
Qed.

Lemma failExecution_frame (k : string) (st st' : store) (t : Z) (msg : string) (b : bool)
    (r : option ExecutionRecord.t) :
  String.prefix "exec:" k = false ->
  failExecution st t id msg b = Ok (st', r) -> st' !! k = st !! k.
Proof.
  intros Hk. unfold failExecution.
  destruct (getExecution st t id) as [exec|]; [ | now intros [= <- _] ].
  destruct b, (ExecutionRecord.fallbackRoute exec);
    match goal with
    | |- context [updateExecution st t id ?u] =>
        destruct (updateExecution st t id u) as [[st1 r1]|] eqn:E; [ | discriminate ]
    end;
    intros [= <- _]; eapply updateExecution_frame; eauto.
Qed.

(** The frame property of the driver, for use in later proofs. *)
Lemma driver_frame (fuel : nat) (st : store) (now : Z) (retries : nat)
    (k : string) :
  String.prefix "exec:" k = false ->
  outcomeStore (executeRouteAsync fuel execute st now id retries) !! k = st !! k.
Proof.
  intros Hk. revert st now retries.
  induction fuel as [|fuel IH]; intros st now retries; cbn [executeRouteAsync];
    [ reflexivity | ].
  destruct (getExecution st now id) as [e|]; [ | reflexivity ].
  pose proof (tryExecute_frame k e st now Hk) as F.
  destruct (tryExecute execute id e st now) as [[st1 t1] [err|]]; cbn [fst] in F;
    [ | exact F ].
  destruct (match getExecution st1 t1 id with
            | Some exec => ExecutionRecord.fallbackRoute exec
            | None => None
            end) as [fb|].
  - destruct (failExecution st1 t1 id (exn_message err) true) as [[st2 r]|] eqn:E;
      [ | exact F ].
    rewrite IH. rewrite (failExecution_frame _ _ _ _ _ _ _ Hk E). exact F.
  - destruct (failExecution st1 t1 id (exn_message err) false) as [[st2 r]|] eqn:E;
      [ | exact F ].
    cbn [outcomeStore]. rewrite (failExecution_frame _ _ _ _ _ _ _ Hk E). exact F.
Qed.

(** X19.  The driver writes execution records only: whatever the executor
    does, however the run ends and however deep it retries, every key of the
    store outside the [exec:] family (quotes, reservations, deposits, the
    reference and quote indices) holds after the run what it held before. *)
Theorem executeRouteAsync_frame (fuel : nat) (st : store) (now : Z) (retries : nat)
    (k : string) :
  String.prefix "exec:" k = false ->
  outcomeStore (executeRouteAsync fuel execute st now id retries) !! k = st !! k.
Proof. apply driver_frame. Qed.

End DriverRuns.

Lemma executeRouteAsync_frame_witness :
  outcomeStore (RoutingController.executeRouteAsync 3 Runs.picky Retry.started 0
                  Retry.executionId 0)
    !! ExecutionService.quoteIndexKey "quote:q-2"
  = Retry.started !! ExecutionService.quoteIndexKey "quote:q-2".
Proof.
  apply (executeRouteAsync_frame Runs.picky Retry.executionId 3 Retry.started 0 0
           (ExecutionService.quoteIndexKey "quote:q-2")).
  vm_compute. reflexivity.
Defined.

Section DriverOutcomes.

Import ExecutionService RoutingController.

Variable execute : StepExecutor.
Variable id : string.
Variable e : ExecutionRecord.t.
Hypothesis e_id : ExecutionRecord.executionId e = id.

Lemma afterSteps_0 (t : Z) : afterSteps t 0 = t.
Proof. unfold afterSteps. cbn. lia. Qed.

Lemma afterSteps_S (t : Z) (n : nat) : afterSteps (t + 2000) n = afterSteps t (S n).
Proof. unfold afterSteps. lia. Qed.

Lemma afterSteps_le (t : Z) (n : nat) : t <= afterSteps t n.
Proof. unfold afterSteps. lia. Qed.

Lemma hashesOf_cons (s : RouteStep.t) (steps : list RouteStep.t) (tx : string) :
  execute s = Ok tx -> hashesOf execute (s :: steps) = tx :: hashesOf execute steps.
Proof. intros H. unfold hashesOf. simpl. now rewrite H. Qed.

Lemma hashesOf_length (steps : list RouteStep.t) :
  settlesAll execute steps = true -> length (hashesOf execute steps) = length steps.
Proof.
  induction steps as [|s steps IH]; [ reflexivity | ].
  cbn [settlesAll forallb]. destruct (execute s) as [tx|] eqn:Hs; [ | discriminate ].
  cbn [andb]. intros H. rewrite (hashesOf_cons s steps tx Hs). cbn [length].
  f_equal. now apply IH.
Qed.

Lemma merge_progress_self (r : ExecutionRecord.t) :
  merge r (progress (ExecutionRecord.currentStep r) (ExecutionRecord.transactionHashes r)) = r.
Proof. now destruct r. Qed.

(** The loop over a settled prefix of the steps: it reaches the remaining
    steps with the hashes of the prefix appended, after 2 s per step, and
    the stored record has changed in its progress fields only. *)
Lemma runSteps_settled (pre rest : list RouteStep.t) :
  settlesAll execute pre = true ->
  forall (i : nat) (st : store) (t : Z) (l : list string) (cs : option nat),
    getExecution st t id = Some (merge e (progress cs (Some l))) ->
    exists st' cs',
      runSteps execute id (pre ++ rest) i st t (Some l)
      = runSteps execute id rest (i + length pre) st' (afterSteps t (length pre))
          (Some (l ++ hashesOf execute pre)%list)
      /\ getExecution st' (afterSteps t (length pre)) id
         = Some (merge e (progress cs' (Some (l ++ hashesOf execute pre)%list))).
Proof.
  induction pre as [|s pre IH]; intros Hall i st t l cs Hget.
  - exists st, cs. change (hashesOf execute []) with (@nil string). cbn [app length].
    rewrite Nat.add_0_r, afterSteps_0, app_nil_r. auto.
  - cbn [settlesAll forallb] in Hall. destruct (execute s) as [tx|] eqn:Hs;
      [ | discriminate ].
    cbn [andb] in Hall.
    set (r1 := merge (merge e (progress cs (Some l))) (setCurrentStep i)).
    set (st1 := saveExecution st t r1).
    set (r2 := merge r1 (setTransactionHashes (l ++ [tx])%list)).
    set (st2 := saveExecution st1 (t + 2000) r2).
    assert (H1 : getExecution st1 (t + 2000) id = Some r1)
      by (apply getExecution_saved_at; [ exact e_id | lia ]).
    assert (H2 : getExecution st2 (t + 2000) id
                 = Some (merge e (progress (Some i) (Some (l ++ [tx])%list))))
      by (apply (getExecution_saved_at st1 (t + 2000) (t + 2000) id r2);
          [ exact e_id | lia ]).
    destruct (IH Hall (S i) st2 (t + 2000) (l ++ [tx])%list (Some i) H2)
      as (st' & cs' & Hrun & Hget').
    exists st', cs'.
    rewrite afterSteps_S in Hrun, Hget'.
    replace (i + length (s :: pre))%nat with (S i + length pre)%nat by (cbn; lia).
    replace (l ++ hashesOf execute (s :: pre))%list
      with ((l ++ [tx]) ++ hashesOf execute pre)%list
      by (rewrite (hashesOf_cons s pre tx Hs), <- app_assoc; reflexivity).
    split; [ | exact Hget' ].
    etransitivity; [ | exact Hrun ]. cbn [app runSteps].
    unfold updateExecution at 1. rewrite Hget, Hs.
    unfold STEP_DELAY_MS. unfold updateExecution at 1.
    fold r1. fold st1. rewrite H1. reflexivity.
Qed.

(** A run in which every step settles. *)
Lemma driver_completes (fuel : nat) (st : store) (now : Z) (retries : nat)
    (l : list string) :
  getExecution st now id = Some e ->
  ExecutionRecord.transactionHashes e = Some l ->
  settlesAll execute (RouteResult.steps (ExecutionRecord.route e)) = true ->
  let steps := RouteResult.steps (ExecutionRecord.route e) in
  let finished := afterSteps now (length steps) in
  exists st',
    executeRouteAsync (S fuel) execute st now id retries = Returned st' finished retries
    /\ getExecution st' finished id
       = Some (merge e (completion (l ++ hashesOf execute steps)%list finished)).
Proof.
  intros Hget Hl Hall steps finished.
  assert (Hget0 : getExecution st now id
                  = Some (merge e (progress (ExecutionRecord.currentStep e) (Some l))))
    by (rewrite <- Hl, merge_progress_self; exact Hget).
  destruct (runSteps_settled steps [] Hall 0%nat st now l _ Hget0)
    as (st1 & cs1 & Hrun & Hget1).
  rewrite app_nil_r in Hrun. cbn [runSteps] in Hrun. fold finished in Hrun, Hget1.
  cbn [executeRouteAsync]. rewrite Hget. unfold tryExecute. fold steps.
  rewrite Hl, Hrun. unfold completeExecution, updateExecution. rewrite Hget1.
  eexists. split; [ reflexivity | ].
  apply (getExecution_saved_at st1 finished finished id
           (merge e (completion (l ++ hashesOf execute steps)%list finished)));
    [ exact e_id | lia ].
Qed.

(** A run whose step [s] throws after the steps [pre] have settled: the
    state in which the [catch] block starts. *)
Lemma tryExecute_throws (st : store) (now : Z) (l : list string)
    (pre post : list RouteStep.t) (s : RouteStep.t) (err : exn) :
  getExecution st now id = Some e ->
  ExecutionRecord.transactionHashes e = Some l ->
  RouteResult.steps (ExecutionRecord.route e) = (pre ++ s :: post)%list ->
  settlesAll execute pre = true ->
  execute s = Throw err ->
  let failed := afterSteps now (S (length pre)) in
  exists st',
    tryExecute execute id e st now = (st', failed, Some err)
    /\ getExecution st' failed id
       = Some (merge e (progress (Some (length pre)) (Some (l ++ hashesOf execute pre)%list))).
Proof.
  intros Hget Hl Hsteps Hall Hs failed.
  assert (Hget0 : getExecution st now id
                  = Some (merge e (progress (ExecutionRecord.currentStep e) (Some l))))
    by (rewrite <- Hl, merge_progress_self; exact Hget).
  destruct (runSteps_settled pre (s :: post) Hall 0%nat st now l _ Hget0)
    as (st1 & cs1 & Hrun & Hget1).
  unfold tryExecute. rewrite Hsteps, Hl, Hrun. cbn [runSteps].
  unfold updateExecution. rewrite Hget1, Hs. unfold STEP_DELAY_MS.
  replace (afterSteps now (length pre) + 2000) with failed
    by (unfold failed, afterSteps; lia).
  eexists. split; [ reflexivity | ].
  pose proof (afterSteps_le now (length pre)).
  apply (getExecution_saved_at st1 (afterSteps now (length pre)) failed id
           (merge e (progress (Some (0 + length pre)%nat)
                       (Some (l ++ hashesOf execute pre)%list))));
    [ exact e_id | unfold failed, afterSteps; lia ].
Qed.

End DriverOutcomes.


Section DriverResults.

Import ExecutionService RoutingController.

(** X20.  A run in which every step settles ends with the record COMPLETED.
    The driver reads the record, which must be filed under its own id and
    carry a hash array, and does not look at its status; it then spends 2 s
    per step and returns without a retry.  The stored record has one new hash
    per step, appended in step order to the hashes it had, no current step,
    and the final instant as completion time; route, error and the other
    fields are as before. *)
Theorem executeRouteAsync_completes (fuel : nat) (execute : StepExecutor) (st : store)
    (now : Z) (id : string) (retries : nat) (e : ExecutionRecord.t) (l : list string) :
  getExecution st now id = Some e ->
  ExecutionRecord.executionId e = id ->
  ExecutionRecord.transactionHashes e = Some l ->
  settlesAll execute (RouteResult.steps (ExecutionRecord.route e)) = true ->
  let steps := RouteResult.steps (ExecutionRecord.route e) in
  let finished := afterSteps now (length steps) in
  exists st' e',
    executeRouteAsync (S fuel) execute st now id retries = Returned st' finished retries
    /\ getExecution st' finished id = Some e'
    /\ e' = merge e (completion (l ++ hashesOf execute steps)%list finished)
    /\ ExecutionRecord.status e' = COMPLETED
    /\ ExecutionRecord.transactionHashes e' = Some (l ++ hashesOf execute steps)%list
    /\ length (hashesOf execute steps) = length steps
    /\ ExecutionRecord.currentStep e' = None
    /\ ExecutionRecord.completedAt e' = Some finished
    /\ ExecutionRecord.route e' = ExecutionRecord.route e.
Proof.
  intros Hget Hid Hl Hall steps finished.
  destruct (driver_completes execute id e Hid fuel st now retries l Hget Hl Hall)
    as (st' & Hrun & Hget').
  exists st', (merge e (completion (l ++ hashesOf execute steps)%list finished)).
  repeat split; try assumption. now apply hashesOf_length.
Qed.

Lemma executeRouteAsync_completes_witness :
  exists st' e',
    executeRouteAsync 1 Flow.settle Retry.started 0 Retry.executionId 0
    = Returned st' 2000 0
    /\ getExecution st' 2000 Retry.executionId = Some e'
    /\ ExecutionRecord.status e' = COMPLETED
    /\ ExecutionRecord.transactionHashes e' = Some ["0xdex:jupiter"].
Proof.
  destruct (executeRouteAsync_completes 0 Flow.settle Retry.started 0 Retry.executionId 0
              Runs.record [])
    as (st' & e' & Hrun & Hget & _ & Hstatus & Hhashes & _);
    try (vm_compute; reflexivity).
  exists st', e'. repeat split; assumption.
Defined.

(** X21.  A failing step without a fallback route ends the run with the
    record FAILED.  When the steps before [s] settle and [s] throws, and the
    record has no fallback route, the driver returns after the delay of the
    failing step and the stored record has status FAILED, the message of the
    exception as error, that instant as completion time, the index of the
    failing step as current step and the hashes of the steps settled before
    it; the steps after [s] are never executed. *)
Theorem executeRouteAsync_fails (fuel : nat) (execute : StepExecutor) (st : store)
    (now : Z) (id : string) (retries : nat) (e : ExecutionRecord.t) (l : list string)
    (pre post : list RouteStep.t) (s : RouteStep.t) (err : exn) :
  getExecution st now id = Some e ->
  ExecutionRecord.executionId e = id ->
  ExecutionRecord.transactionHashes e = Some l ->
  ExecutionRecord.fallbackRoute e = None ->
  RouteResult.steps (ExecutionRecord.route e) = (pre ++ s :: post)%list ->
  settlesAll execute pre = true ->
  execute s = Throw err ->
  let failed := afterSteps now (S (length pre)) in
  exists st',
    executeRouteAsync (S fuel) execute st now id retries = Returned st' failed retries
    /\ getExecution st' failed id
       = Some (merge e (failure (length pre) (l ++ hashesOf execute pre)%list
                          (exn_message err) failed)).
Proof.
  intros Hget Hid Hl Hfb Hsteps Hall Hs failed.
  destruct (tryExecute_throws execute id e Hid st now l pre post s err
              Hget Hl Hsteps Hall Hs) as (st1 & Htry & Hget1).
  fold failed in Htry, Hget1.
  cbn [executeRouteAsync]. rewrite Hget, Htry, Hget1.
  cbv beta iota.
  change (ExecutionRecord.fallbackRoute (merge e _)) with (ExecutionRecord.fallbackRoute e).
  rewrite Hfb. unfold failExecution. rewrite Hget1.
  unfold updateExecution. rewrite Hget1.
  eexists. split; [ reflexivity | ].
  apply (getExecution_saved_at st1 failed failed id
           (merge e (failure (length pre) (l ++ hashesOf execute pre)%list
                       (exn_message err) failed)));
    [ exact Hid | lia ].
Qed.

Lemma executeRouteAsync_fails_witness :
  exists st',
    executeRouteAsync 1 Runs.picky Runs.alone.1 0 "exec:run-4" 0 = Returned st' 2000 0
    /\ getExecution st' 2000 "exec:run-4"
       = Some (merge Runs.alone.2 (failure 0 [] "slippage exceeded" 2000)).
Proof.
  apply (executeRouteAsync_fails 0 Runs.picky Runs.alone.1 0 "exec:run-4" 0 Runs.alone.2 []
           [] [] (OtcRoutingService.toRouteStep Retry.jupiter 1000
                    (OtcRoutingService.computeOutput 1000 Retry.jupiter))
           (Error "slippage exceeded"));
    vm_compute; reflexivity.
Defined.

(** X22.  A failing step with a fallback route is recovered by one retry.
    When the steps before [s] settle, [s] throws, the record carries the
    fallback route [fb] and the executor settles every step of [fb], the
    driver switches the record to [fb], runs it and returns after exactly one
    retry with the record COMPLETED.  The stored record has [fb] as route and
    the hashes of the steps of [fb] only: the hashes collected on the first
    route are discarded by the switch, and no error remains. *)
Theorem executeRouteAsync_recovers (fuel : nat) (execute : StepExecutor) (st : store)
    (now : Z) (id : string) (retries : nat) (e : ExecutionRecord.t) (l : list string)
    (pre post : list RouteStep.t) (s : RouteStep.t) (err : exn) (fb : RouteResult.t) :
  getExecution st now id = Some e ->
  ExecutionRecord.executionId e = id ->
  ExecutionRecord.transactionHashes e = Some l ->
  ExecutionRecord.fallbackRoute e = Some fb ->
  RouteResult.steps (ExecutionRecord.route e) = (pre ++ s :: post)%list ->
  settlesAll execute pre = true ->
  execute s = Throw err ->
  settlesAll execute (RouteResult.steps fb) = true ->
  let failed := afterSteps now (S (length pre)) in
  let finished := afterSteps failed (length (RouteResult.steps fb)) in
  exists st' e',
    executeRouteAsync (S (S fuel)) execute st now id retries
    = Returned st' finished (S retries)
    /\ getExecution st' finished id = Some e'
    /\ e' = merge (switched e fb)
              (completion (hashesOf execute (RouteResult.steps fb)) finished)
    /\ ExecutionRecord.status e' = COMPLETED
    /\ ExecutionRecord.route e' = fb
    /\ ExecutionRecord.transactionHashes e'
       = Some (hashesOf execute (RouteResult.steps fb))
    /\ ExecutionRecord.error e' = None.
Proof.
  intros Hget Hid Hl Hfb Hsteps Hall Hs Hfball failed finished.
  destruct (tryExecute_throws execute id e Hid st now l pre post s err
              Hget Hl Hsteps Hall Hs) as (st1 & Htry & Hget1).
  fold failed in Htry, Hget1.
  remember (S fuel) as fuel' eqn:Hfuel.
  cbn [executeRouteAsync]. rewrite Hget, Htry, Hget1.
  cbv beta iota.
  change (ExecutionRecord.fallbackRoute (merge e _)) with (ExecutionRecord.fallbackRoute e).
  rewrite Hfb. unfold failExecution. rewrite Hget1.
  cbv beta iota.
  change (ExecutionRecord.fallbackRoute (merge e _)) with (ExecutionRecord.fallbackRoute e).
  rewrite Hfb. unfold updateExecution. rewrite Hget1. subst fuel'.
  assert (Hget2 : getExecution (saveExecution st1 failed (switched e fb)) failed id
                  = Some (switched e fb))
    by (apply getExecution_saved_at; [ exact Hid | lia ]).
  destruct (driver_completes execute id (switched e fb) Hid fuel _ failed (S retries) []
              Hget2 eq_refl Hfball) as (st' & Hrun & Hget').
  exists st', (merge (switched e fb)
                 (completion (hashesOf execute (RouteResult.steps fb)) finished)).
  split; [ exact Hrun | ]. split; [ exact Hget' | ]. repeat split.
Qed.

Lemma executeRouteAsync_recovers_witness :
  exists st' e',
    executeRouteAsync 2 Runs.picky Retry.started 0 Retry.executionId 0
    = Returned st' 4000 1
    /\ getExecution st' 4000 Retry.executionId = Some e'
    /\ ExecutionRecord.status e' = COMPLETED
    /\ ExecutionRecord.route e' = Retry.fallback
    /\ ExecutionRecord.transactionHashes e' = Some ["0xdex:orca"].
Proof.
  destruct (executeRouteAsync_recovers 0 Runs.picky Retry.started 0 Retry.executionId 0
              Runs.record [] [] []
              (OtcRoutingService.toRouteStep Retry.jupiter 1000
                 (OtcRoutingService.computeOutput 1000 Retry.jupiter))
              (Error "slippage exceeded") Retry.fallback)
    as (st' & e' & Hrun & Hget & _ & Hstatus & Hroute & Hhashes & _);
    try (vm_compute; reflexivity).
  exists st', e'. repeat split; assumption.
Defined.

End DriverResults.


(** ** Accepting a quote *)

Section AcceptingQuotes.

Import QuoteLifecycleService DepositService ExecutionService RoutingController.

Lemma getExecution_created (st : store) (now now' : Z) (uuid uuidToken quoteId : string)
    (route : RouteResult.t) (fb : option RouteResult.t) :
  let created := createExecution st now uuid uuidToken quoteId route fb in
  getExecution created.1 now' ("exec:" ++ uuid)
  = if now' <? now + 86400000 then Some created.2 else None.
Proof.
  cbv zeta. unfold createExecution. cbv zeta. cbn [fst snd].
  match goal with
  | |- context [saveExecution st now ?r] => set (record := r)
  end.
  unfold getExecution. rewrite get_set_ex_other by apply index_not_exec.
  unfold saveExecution. change (ExecutionRecord.executionId record) with ("exec:" ++ uuid).
  rewrite get_set_ex_same. unfold EXECUTION_TTL_SEC.
  change (now + 86400 * 1000) with (now + 86400000).
  destruct (now' <? now + 86400000); reflexivity.
Qed.

Lemma ltb_true (a b : Z) : a < b -> (a <? b) = true.
Proof. intros H. now apply Z.ltb_lt. Qed.

Lemma leb_false (a b : Z) : b < a -> (a <=? b) = false.
Proof. intros H. now apply Z.leb_gt. Qed.

(** The call that accepts a readable quote with a route, step by step. *)
Lemma executeV2_ok (st : store) (now : Z) (ids : Uuids) (request : ExecuteRequest)
    (p : ProvisionalQuote.t) (r : RouteResult.t) :
  isEmpty (req_quoteId request) = false ->
  isEmpty (req_clientId request) = false ->
  getProvisionalQuote st now (req_quoteId request) = Some p ->
  ProvisionalQuote.route p = Some r ->
  exists meta,
    executeV2 st now ids request
    = Ok (acceptedStore st now ids request p r meta,
          {| resp_reservationId := "reservation:" ++ uuidReservation ids;
             resp_quoteId := req_quoteId request;
             resp_status := PENDING_APPROVAL;
             resp_depositInstructions := (depositOf st now ids request p meta).2;
             resp_reservedUntil := now + 300000;
             resp_otcReservationId :=
               match ProvisionalQuote.type p with
               | DEX => None
               | _ => Some ("otc-reservation-" ++ decimal now)
               end |}).
Proof.
  intros Hq Hc Hp Hr. unfold executeV2. rewrite Hq, Hc, Hp, Hr.
  match goal with
  | |- context [reserveQuote st now _ _ _ ?m] => exists m; set (meta := m)
  end.
  unfold reserveQuote. rewrite Hp. cbv zeta.
  change (ReservedQuote.mk p ("reservation:" ++ uuidReservation ids) (req_clientId request)
            (now + RESERVED_TTL_SEC * 1000) meta)
    with (reservationOf now ids request p meta).
  fold (reservedStore st now ids request p meta).
  fold (depositOf st now ids request p meta).
  destruct (depositOf st now ids request p meta) as [st2 instructions] eqn:Hdep.
  unfold ReservedQuote.route. cbn [ReservedQuote.provisional reservationOf]. rewrite Hr.
  replace st2 with (depositOf st now ids request p meta).1 by now rewrite Hdep.
  fold (executionOf st now ids request p r meta).
  pose proof (getExecution_created (depositOf st now ids request p meta).1 now now
                (uuidExecution ids) (uuidApproval ids) (req_quoteId request) r None) as Hget.
  cbv zeta in Hget. fold (executionOf st now ids request p r meta) in Hget.
  rewrite ltb_true in Hget by lia.
  destruct (executionOf st now ids request p r meta) as [st3 execution] eqn:Hex.
  cbn [fst snd] in Hget.
  assert (Hid : ExecutionRecord.executionId execution = "exec:" ++ uuidExecution ids).
  { change execution with (st3, execution).2. rewrite <- Hex. reflexivity. }
  rewrite Hid. unfold updateExecution. rewrite Hget.
  unfold acceptedStore, awaitingDeposit. rewrite Hex. cbn [fst snd].
  subst meta. destruct (ProvisionalQuote.type p); reflexivity.
Qed.

Lemma acceptedStore_frame (st : store) (now t : Z) (ids : Uuids) (request : ExecuteRequest)
    (p : ProvisionalQuote.t) (r : RouteResult.t) (meta : option OtcReservationMeta.t)
    (k : string) :
  k <> execKey ("exec:" ++ uuidExecution ids) ->
  k <> quoteIndexKey (req_quoteId request) ->
  Redis.get (acceptedStore st now ids request p r meta) t k
  = Redis.get (depositOf st now ids request p meta).1 t k.
Proof.
  intros H1 H2. unfold acceptedStore, saveExecution.
  change (ExecutionRecord.executionId (awaitingDeposit st now ids request p r meta))
    with ("exec:" ++ uuidExecution ids).
  rewrite get_set_ex_other by (apply not_eq_sym; exact H1).
  unfold executionOf, createExecution. cbv zeta. cbn [fst snd].
  rewrite get_set_ex_other by (apply not_eq_sym; exact H2).
  unfold saveExecution. cbn [ExecutionRecord.executionId].
  rewrite get_set_ex_other by (apply not_eq_sym; exact H1).
  reflexivity.
Qed.

Lemma depositOf_frame (st : store) (now t : Z) (ids : Uuids) (request : ExecuteRequest)
    (p : ProvisionalQuote.t) (meta : option OtcReservationMeta.t) (k : string) :
  k <> RedisKey.deposit ("deposit:" ++ uuidDeposit ids) ->
  k <> refKey (DepositInstructions.paymentReference (depositOf st now ids request p meta).2) ->
  Redis.get (depositOf st now ids request p meta).1 t k
  = Redis.get (reservedStore st now ids request p meta) t k.
Proof.
  intros H1 H2. unfold depositOf, createDepositInstructions in *. cbv zeta in *.
  cbn [fst snd DepositInstructions.paymentReference] in *.
  rewrite get_set_ex_other by (apply not_eq_sym; exact H2).
  rewrite get_set_ex_other by (apply not_eq_sym; exact H1).
  reflexivity.
Qed.


(** The reservation is readable until it ends. *)
Lemma accepted_reserved (st : store) (now t : Z) (ids : Uuids) (request : ExecuteRequest)
    (p : ProvisionalQuote.t) (r : RouteResult.t) (meta : option OtcReservationMeta.t) :
  t < now + 300000 ->
  getReservedQuote (acceptedStore st now ids request p r meta) t (req_quoteId request)
  = (acceptedStore st now ids request p r meta, Some (reservationOf now ids request p meta)).
Proof.
  intros Ht. unfold getReservedQuote.
  rewrite acceptedStore_frame by distinct_keys.
  rewrite depositOf_frame by distinct_keys.
  unfold reservedStore.
  rewrite get_del_other by (apply not_eq_sym, reserved_not_provisional).
  rewrite get_set_ex_same. unfold RESERVED_TTL_SEC.
  change (now + 300 * 1000) with (now + 300000). rewrite ltb_true by exact Ht.
  cbn [ReservedQuote.reservedUntilTs reservationOf]. now rewrite leb_false by exact Ht.
Qed.

(** The deposit record is found by the payment reference and by its id. *)
Lemma accepted_deposit (st : store) (now t : Z) (ids : Uuids) (request : ExecuteRequest)
    (p : ProvisionalQuote.t) (r : RouteResult.t) (meta : option OtcReservationMeta.t) :
  t < now + 3600000 ->
  let instructions := (depositOf st now ids request p meta).2 in
  let record := pendingDeposit (uuidDeposit ids) (req_quoteId request) (req_clientId request)
                  (reservationOf now ids request p meta) instructions in
  Redis.get (acceptedStore st now ids request p r meta) t
    (refKey (DepositInstructions.paymentReference instructions))
  = Some (VString ("deposit:" ++ uuidDeposit ids))
  /\ Redis.get (acceptedStore st now ids request p r meta) t
       (RedisKey.deposit ("deposit:" ++ uuidDeposit ids))
     = Some (VDeposit record).
Proof.
  intros Ht. cbv zeta. split.
  - rewrite acceptedStore_frame by distinct_keys.
    unfold depositOf, createDepositInstructions. cbv zeta.
    cbn [fst snd DepositInstructions.paymentReference].
    rewrite get_set_ex_same. unfold DEPOSIT_TTL_SEC.
    change (now + 3600 * 1000) with (now + 3600000). now rewrite ltb_true by exact Ht.
  - rewrite acceptedStore_frame by distinct_keys.
    unfold depositOf, createDepositInstructions. cbv zeta. cbn [fst snd].
    rewrite get_set_ex_other by apply ref_not_deposit_id.
    rewrite get_set_ex_same. unfold DEPOSIT_TTL_SEC.
    change (now + 3600 * 1000) with (now + 3600000). now rewrite ltb_true by exact Ht.
Qed.

(** The execution record is found by its id and by the quote id. *)
Lemma accepted_execution (st : store) (now t : Z) (ids : Uuids) (request : ExecuteRequest)
    (p : ProvisionalQuote.t) (r : RouteResult.t) (meta : option OtcReservationMeta.t) :
  t < now + 86400000 ->
  getExecution (acceptedStore st now ids request p r meta) t ("exec:" ++ uuidExecution ids)
  = Some (awaitingDeposit st now ids request p r meta)
  /\ findExecutionByQuoteId (acceptedStore st now ids request p r meta) t
       (req_quoteId request)
     = [awaitingDeposit st now ids request p r meta].
Proof.
  intros Ht.
  assert (Hget : getExecution (acceptedStore st now ids request p r meta) t
                   ("exec:" ++ uuidExecution ids)
                 = Some (awaitingDeposit st now ids request p r meta))
    by (apply getExecution_saved_at; [ reflexivity | exact Ht ]).
  split; [ exact Hget | ].
  unfold findExecutionByQuoteId.
  replace (Redis.get (acceptedStore st now ids request p r meta) t
             (quoteIndexKey (req_quoteId request)))
    with (Some (VString ("exec:" ++ uuidExecution ids))).
  - change (VString ("exec:" ++ uuidExecution ids))
      with (VString (String "e" ("xec:" ++ uuidExecution ids))).
    cbv beta iota. change (String "e" ("xec:" ++ uuidExecution ids))
      with ("exec:" ++ uuidExecution ids).
    now rewrite Hget.
  - symmetry. unfold acceptedStore, saveExecution.
    change (ExecutionRecord.executionId (awaitingDeposit st now ids request p r meta))
      with ("exec:" ++ uuidExecution ids).
    rewrite get_set_ex_other by apply exec_not_index.
    unfold executionOf, createExecution. cbv zeta. cbn [fst snd].
    rewrite get_set_ex_same. unfold EXECUTION_TTL_SEC.
    change (now + 86400 * 1000) with (now + 86400000). now rewrite ltb_true by exact Ht.
Qed.

Lemma accepted_index (st : store) (now t : Z) (ids : Uuids) (request : ExecuteRequest)
    (p : ProvisionalQuote.t) (r : RouteResult.t) (meta : option OtcReservationMeta.t) :
  t < now + 86400000 ->
  Redis.get (acceptedStore st now ids request p r meta) t
    (quoteIndexKey (req_quoteId request))
  = Some (VString ("exec:" ++ uuidExecution ids)).
Proof.
  intros Ht. unfold acceptedStore, saveExecution.
  change (ExecutionRecord.executionId (awaitingDeposit st now ids request p r meta))
    with ("exec:" ++ uuidExecution ids).
  rewrite get_set_ex_other by apply exec_not_index.
  unfold executionOf, createExecution. cbv zeta. cbn [fst snd].
  rewrite get_set_ex_same. unfold EXECUTION_TTL_SEC.
  change (now + 86400 * 1000) with (now + 86400000). now rewrite ltb_true by exact Ht.
Qed.

Lemma accepted_reserved_get (st : store) (now t : Z) (ids : Uuids)
    (request : ExecuteRequest) (p : ProvisionalQuote.t) (r : RouteResult.t)
    (meta : option OtcReservationMeta.t) :
  t < now + 300000 ->
  Redis.get (acceptedStore st now ids request p r meta) t
    (RedisKey.reservedQuote (req_quoteId request))
  = Some (VReserved (reservationOf now ids request p meta)).
Proof.
  intros Ht.
  rewrite acceptedStore_frame by distinct_keys.
  rewrite depositOf_frame by distinct_keys.
  unfold reservedStore.
  rewrite get_del_other by (apply not_eq_sym, reserved_not_provisional).
  rewrite get_set_ex_same. unfold RESERVED_TTL_SEC.
  change (now + 300 * 1000) with (now + 300000). now rewrite ltb_true by exact Ht.
Qed.

Lemma depositWebhook_accepted (st : store) (now t : Z) (ids : Uuids)
    (request : ExecuteRequest) (p : ProvisionalQuote.t) (r : RouteResult.t)
    (meta : option OtcReservationMeta.t) (amount : Q) (tx source : option string) :
  t < now + 300000 ->
  depositWebhook (acceptedStore st now ids request p r meta) t
    (mkWebhookRequest
       (DepositInstructions.paymentReference (depositOf st now ids request p meta).2)
       amount tx source)
  = mkWebhookEffect (paidStore st now t ids request p r meta amount tx)
      (mkWebhookResponse true (Some ("deposit:" ++ uuidDeposit ids))
         (Some ("exec:" ++ uuidExecution ids)))
      (Some ("exec:" ++ uuidExecution ids)).
Proof.
  intros Ht. unfold depositWebhook. cbn [paymentReference amountReceived bankTxId].
  destruct (accepted_deposit st now t ids request p r meta ltac:(lia)) as [Href Hdep].
  cbv zeta in Href, Hdep.
  change (VString ("deposit:" ++ uuidDeposit ids))
    with (VString (String "d" ("eposit:" ++ uuidDeposit ids))) in Href.
  unfold confirmDeposit. rewrite Href. cbv beta iota.
  change (String "d" ("eposit:" ++ uuidDeposit ids)) with ("deposit:" ++ uuidDeposit ids).
  rewrite Hdep. cbv beta iota zeta. cbn [conf_store conf_record].
  cbn [DepositRecord.depositId DepositRecord.quoteId confirmed pendingDeposit].
  unfold getReservedQuote.
  rewrite get_set_ex_other by apply deposit_not_reserved.
  rewrite accepted_reserved_get by exact Ht.
  cbn [ReservedQuote.reservedUntilTs reservationOf]. rewrite leb_false by exact Ht.
  unfold findExecutionByQuoteId.
  rewrite get_set_ex_other by apply deposit_not_index.
  pose proof (accepted_index st now t ids request p r meta ltac:(lia)) as Hindex.
  change (VString ("exec:" ++ uuidExecution ids))
    with (VString (String "e" ("xec:" ++ uuidExecution ids))) in Hindex.
  rewrite Hindex. cbv beta iota.
  change (String "e" ("xec:" ++ uuidExecution ids)) with ("exec:" ++ uuidExecution ids).
  assert (Hget : getExecution
                   (Redis.set_ex (acceptedStore st now ids request p r meta) t
                      (RedisKey.deposit ("deposit:" ++ uuidDeposit ids))
                      (VDeposit
                         (confirmed
                            (pendingDeposit (uuidDeposit ids) (req_quoteId request)
                               (req_clientId request) (reservationOf now ids request p meta)
                               (depositOf st now ids request p meta).2)
                            t amount tx))
                      DEPOSIT_TTL_SEC)
                   t ("exec:" ++ uuidExecution ids)
                 = Some (awaitingDeposit st now ids request p r meta)).
  { unfold getExecution. rewrite get_set_ex_other by apply deposit_not_exec.
    apply (accepted_execution st now t ids request p r meta). lia. }
  cbn [confirmed pendingDeposit DepositRecord.depositId DepositRecord.quoteId] in Hget |- *.
  rewrite Hget.
  change (ExecutionRecord.executionId (awaitingDeposit st now ids request p r meta))
    with ("exec:" ++ uuidExecution ids).
  unfold updateExecution. rewrite Hget. reflexivity.
Qed.

End AcceptingQuotes.


Section AcceptedQuotes.

Import QuoteLifecycleService DepositService ExecutionService RoutingController.


(** X24.  What an accepted quote leaves behind.  When the quote is readable
    and has a route, [executeV2] answers PENDING_APPROVAL with a reservation
    of 300 s and instructions to deposit the quoted input amount.  At every
    instant before the reservation ends, the reservation is readable and
    holds the quote for the client; the PENDING deposit record is found by
    the payment reference of the instructions; and the execution is found by
    the quote id, set to PENDING_APPROVAL whatever the venues of the route,
    with the route of the quote, no fallback route and no hashes. *)
Theorem executeV2_accepts (st : store) (now : Z) (ids : Uuids) (request : ExecuteRequest)
    (p : ProvisionalQuote.t) (r : RouteResult.t) :
  isEmpty (req_quoteId request) = false ->
  isEmpty (req_clientId request) = false ->
  getProvisionalQuote st now (req_quoteId request) = Some p ->
  ProvisionalQuote.route p = Some r ->
  exists st' response,
    executeV2 st now ids request = Ok (st', response)
    /\ resp_reservationId response = "reservation:" ++ uuidReservation ids
    /\ resp_status response = PENDING_APPROVAL
    /\ resp_reservedUntil response = now + 300000
    /\ DepositInstructions.amount (resp_depositInstructions response)
       = ProvisionalQuote.amountIn p
    /\ forall t, t < now + 300000 ->
         (exists reserved,
            getReservedQuote st' t (req_quoteId request) = (st', Some reserved)
            /\ ReservedQuote.provisional reserved = p
            /\ ReservedQuote.reservedByClient reserved = req_clientId request
            /\ ReservedQuote.reservationId reserved = resp_reservationId response)
         /\ (exists d,
               getDepositByReference st' t
                 (DepositInstructions.paymentReference (resp_depositInstructions response))
               = Some d
               /\ DepositRecord.depositId d = "deposit:" ++ uuidDeposit ids
               /\ DepositRecord.quoteId d = req_quoteId request
               /\ DepositRecord.status d = PENDING
               /\ DepositRecord.amountExpected d = ProvisionalQuote.amountIn p
               /\ DepositRecord.depositInstructions d = resp_depositInstructions response)
         /\ (exists e,
               findExecutionByQuoteId st' t (req_quoteId request) = [e]
               /\ ExecutionRecord.executionId e = "exec:" ++ uuidExecution ids
               /\ ExecutionRecord.status e = PENDING_APPROVAL
               /\ ExecutionRecord.route e = r
               /\ ExecutionRecord.fallbackRoute e = None
               /\ ExecutionRecord.transactionHashes e = Some []).
Proof.
  intros Hq Hc Hp Hr.
  destruct (executeV2_ok st now ids request p r Hq Hc Hp Hr) as (meta & ->).
  eexists _, _. split; [ reflexivity | ].
  cbn [resp_reservationId resp_status resp_reservedUntil resp_depositInstructions].
  repeat (split; [ reflexivity | ]).
  intros t Ht. split; [ | split ].
  - exists (reservationOf now ids request p meta).
    split; [ now apply accepted_reserved | ]. repeat split.
  - destruct (accepted_deposit st now t ids request p r meta ltac:(lia)) as [Href Hdep].
    cbv zeta in Href, Hdep. eexists. split.
    + change (VString ("deposit:" ++ uuidDeposit ids))
        with (VString (String "d" ("eposit:" ++ uuidDeposit ids))) in Href.
      unfold getDepositByReference. rewrite Href. cbv beta iota.
      unfold getDeposit.
      change (String "d" ("eposit:" ++ uuidDeposit ids))
        with ("deposit:" ++ uuidDeposit ids).
      rewrite Hdep. reflexivity.
    + repeat split.
  - exists (awaitingDeposit st now ids request p r meta).
    split; [ apply accepted_execution; lia | ]. repeat split.
Qed.

Lemma executeV2_accepts_witness :
  exists st' response,
    executeV2 Flow.afterQuote.1 20 Flow.ids (mkExecuteRequest Flow.quoteId "client-1")
    = Ok (st', response)
    /\ resp_reservedUntil response = 300020
    /\ exists e,
         findExecutionByQuoteId st' 30 Flow.quoteId = [e]
         /\ ExecutionRecord.status e = PENDING_APPROVAL
         /\ ExecutionRecord.route e = Sample.best.
Proof.
  destruct (executeV2_accepts Flow.afterQuote.1 20 Flow.ids
              (mkExecuteRequest Flow.quoteId "client-1") Flow.afterQuote.2 Sample.best)
    as (st' & response & Hrun & _ & _ & Huntil & _ & Hreads);
    try (vm_compute; reflexivity).
  destruct (Hreads 30 ltac:(lia)) as (_ & _ & e & Hfind & _ & Hstatus & Hroute & _).
  exists st', response. split; [ exact Hrun | ]. split; [ exact Huntil | ].
  exists e. auto.
Defined.

(** X25.  A deposit notified while the reservation runs starts the
    execution.  After [executeV2] has accepted a quote, a notification that
    carries the payment reference of the instructions and arrives before the
    reservation ends is answered with success and the ids of the deposit and
    of the execution, whatever amount it reports; the driver is started for
    that execution, whose record is then EXECUTING, and the deposit record is
    CONFIRMED with the reported amount. *)
Theorem executeV2_then_depositWebhook (st : store) (now : Z) (ids : Uuids)
    (request : ExecuteRequest) (p : ProvisionalQuote.t) (r : RouteResult.t)
    (t : Z) (amount : Q) (tx source : option string) :
  isEmpty (req_quoteId request) = false ->
  isEmpty (req_clientId request) = false ->
  getProvisionalQuote st now (req_quoteId request) = Some p ->
  ProvisionalQuote.route p = Some r ->
  t < now + 300000 ->
  exists st' response,
    executeV2 st now ids request = Ok (st', response)
    /\ let reference :=
         DepositInstructions.paymentReference (resp_depositInstructions response) in
       let notified := depositWebhook st' t (mkWebhookRequest reference amount tx source) in
       wh_response notified
       = mkWebhookResponse true (Some ("deposit:" ++ uuidDeposit ids))
           (Some ("exec:" ++ uuidExecution ids))
       /\ wh_started notified = Some ("exec:" ++ uuidExecution ids)
       /\ (exists e,
             getExecution (wh_store notified) t ("exec:" ++ uuidExecution ids) = Some e
             /\ ExecutionRecord.status e = EXECUTING
             /\ ExecutionRecord.route e = r)
       /\ (exists d,
             getDeposit (wh_store notified) t ("deposit:" ++ uuidDeposit ids) = Some d
             /\ DepositRecord.status d = CONFIRMED
             /\ DepositRecord.amountReceived d = Some amount
             /\ DepositRecord.amountExpected d = ProvisionalQuote.amountIn p
             /\ DepositRecord.bankTxId d = tx).
Proof.
  intros Hq Hc Hp Hr Ht.
  destruct (executeV2_ok st now ids request p r Hq Hc Hp Hr) as (meta & ->).
  eexists _, _. split; [ reflexivity | ].
  cbn [resp_depositInstructions]. cbv zeta.
  rewrite (depositWebhook_accepted st now t ids request p r meta amount tx source Ht).
  cbn [wh_response wh_started wh_store].
  split; [ reflexivity | ]. split; [ reflexivity | ]. split.
  - eexists. split.
    + unfold paidStore. apply getExecution_saved_at; [ reflexivity | lia ].
    + split; reflexivity.
  - eexists. split.
    + unfold getDeposit, paidStore, saveExecution.
      rewrite get_set_ex_other by (apply not_eq_sym, deposit_not_exec).
      rewrite get_set_ex_same. unfold DEPOSIT_TTL_SEC.
      rewrite ltb_true by lia. reflexivity.
    + repeat split.
Qed.

Lemma executeV2_then_depositWebhook_witness :
  exists st' response,
    executeV2 Flow.afterQuote.1 20 Flow.ids (mkExecuteRequest Flow.quoteId "client-1")
    = Ok (st', response)
    /\ wh_response
         (depositWebhook st' 30
            (mkWebhookRequest
               (DepositInstructions.paymentReference (resp_depositInstructions response))
               5 (Some "pix-tx-1") (Some "PIX")))
       = mkWebhookResponse true (Some "deposit:dep-1") (Some "exec:run-1").
Proof.
  destruct (executeV2_then_depositWebhook Flow.afterQuote.1 20 Flow.ids
              (mkExecuteRequest Flow.quoteId "client-1") Flow.afterQuote.2 Sample.best
              30 5 (Some "pix-tx-1") (Some "PIX"))
    as (st' & response & Hrun & Hresp & _);
    try (vm_compute; reflexivity).
  exists st', response. split; [ exact Hrun | exact Hresp ].
Defined.

(** X26.  From acceptance to completion.  A quote accepted by [executeV2],
    paid by a notification that arrives while the reservation runs, and run
    by the driver with an executor that settles every step of the quoted
    route, ends COMPLETED after 2 s per step: the execution record then has
    the quoted route and exactly the hashes of its steps, in step order, and
    the deposit record is still CONFIRMED. *)
Theorem executeV2_paid_completes (execute : StepExecutor) (fuel : nat) (st : store)
    (now : Z) (ids : Uuids) (request : ExecuteRequest) (p : ProvisionalQuote.t)
    (r : RouteResult.t) (t : Z) (amount : Q) (tx source : option string) :
  isEmpty (req_quoteId request) = false ->
  isEmpty (req_clientId request) = false ->
  getProvisionalQuote st now (req_quoteId request) = Some p ->
  ProvisionalQuote.route p = Some r ->
  t < now + 300000 ->
  settlesAll execute (RouteResult.steps r) = true ->
  exists st1 response st2 e d,
    executeV2 st now ids request = Ok (st1, response)
    /\ let reference :=
         DepositInstructions.paymentReference (resp_depositInstructions response) in
       let notified := depositWebhook st1 t (mkWebhookRequest reference amount tx source) in
       let finished := afterSteps t (length (RouteResult.steps r)) in
       executeRouteAsync (S fuel) execute (wh_store notified) t
         ("exec:" ++ uuidExecution ids) 0
       = Returned st2 finished 0
       /\ getExecution st2 finished ("exec:" ++ uuidExecution ids) = Some e
       /\ ExecutionRecord.status e = COMPLETED
       /\ ExecutionRecord.route e = r
       /\ ExecutionRecord.transactionHashes e = Some (hashesOf execute (RouteResult.steps r))
       /\ length (hashesOf execute (RouteResult.steps r)) = length (RouteResult.steps r)
       /\ ExecutionRecord.completedAt e = Some finished
       /\ st2 !! RedisKey.deposit ("deposit:" ++ uuidDeposit ids)
          = wh_store notified !! RedisKey.deposit ("deposit:" ++ uuidDeposit ids)
       /\ getDeposit (wh_store notified) t ("deposit:" ++ uuidDeposit ids) = Some d
       /\ DepositRecord.status d = CONFIRMED.
Proof.
  intros Hq Hc Hp Hr Ht Hall.
  destruct (executeV2_ok st now ids request p r Hq Hc Hp Hr) as (meta & ->).
  set (e0 := merge (awaitingDeposit st now ids request p r meta) (setStatus EXECUTING)).
  assert (Hget : getExecution (paidStore st now t ids request p r meta amount tx) t
                   ("exec:" ++ uuidExecution ids) = Some e0)
    by (unfold paidStore; apply getExecution_saved_at; [ reflexivity | lia ]).
  destruct (driver_completes execute ("exec:" ++ uuidExecution ids) e0 eq_refl fuel
              (paidStore st now t ids request p r meta amount tx) t 0%nat [] Hget eq_refl Hall)
    as (st2 & Hrun & Hget2).
  pose proof (driver_frame execute ("exec:" ++ uuidExecution ids) (S fuel)
                (paidStore st now t ids request p r meta amount tx) t 0%nat
                (RedisKey.deposit ("deposit:" ++ uuidDeposit ids)) eq_refl) as Hframe.
  rewrite Hrun in Hframe. cbn [outcomeStore] in Hframe.
  eexists _, _, st2, _, _. split; [ reflexivity | ].
  cbn [resp_depositInstructions]. cbv zeta.
  rewrite (depositWebhook_accepted st now t ids request p r meta amount tx source Ht).
  cbn [wh_store].
  split; [ exact Hrun | ]. split; [ exact Hget2 | ].
  split; [ reflexivity | ]. split; [ reflexivity | ]. split; [ reflexivity | ].
  split; [ now apply hashesOf_length | ]. split; [ reflexivity | ].
  split; [ exact Hframe | ]. split.
  - unfold getDeposit, paidStore, saveExecution.
    rewrite get_set_ex_other by (apply not_eq_sym, deposit_not_exec).
    rewrite get_set_ex_same. unfold DEPOSIT_TTL_SEC.
    rewrite ltb_true by lia. reflexivity.
  - reflexivity.
Qed.

Lemma executeV2_paid_completes_witness :
  exists st1 response st2 e,
    executeV2 Flow.afterQuote.1 20 Flow.ids (mkExecuteRequest Flow.quoteId "client-1")
    = Ok (st1, response)
    /\ executeRouteAsync 1 Flow.settle
         (wh_store
            (depositWebhook st1 30
               (mkWebhookRequest
                  (DepositInstructions.paymentReference (resp_depositInstructions response))
                  10000 (Some "pix-tx-1") (Some "PIX"))))
         30 "exec:run-1" 0
       = Returned st2 (afterSteps 30 (length (RouteResult.steps Sample.best))) 0
    /\ getExecution st2 (afterSteps 30 (length (RouteResult.steps Sample.best))) "exec:run-1"
       = Some e
    /\ ExecutionRecord.status e = COMPLETED.
Proof.
  destruct (executeV2_paid_completes Flow.settle 0 Flow.afterQuote.1 20 Flow.ids
              (mkExecuteRequest Flow.quoteId "client-1") Flow.afterQuote.2 Sample.best
              30 10000 (Some "pix-tx-1") (Some "PIX"))
    as (st1 & response & st2 & e & d & Hrun & Hdrive & Hget & Hstatus & _);
    try (vm_compute; reflexivity).
  exists st1, response, st2, e. auto.
Defined.

End AcceptedQuotes.


(** ** The scoring lookup on a returned route *)

Section ScoringLookupDex.

Import OtcRoutingService RoutingController.





End ScoringLookupDex.


(** ** The quote endpoint *)

Section QuoteEndpointProps.

Import QuoteLifecycleService RoutingController QuoteEndpoint.

Variable Math_sqrt : Q -> Q.









Lemma quoteRoute_spec (st : store) (now : Z) (u : string) (request : QuoteRequest)
    (r : RouteResult.t) :
  let made := quoteRoute Math_sqrt st now u request r in
  made.1 = Redis.set_ex st now (RedisKey.provisionalQuote ("quote:" ++ u))
             (VProvisional (provisionalOf now request made.2)) PROVISIONAL_TTL_SEC
  /\ quoteId made.2 = "quote:" ++ u
  /\ route made.2 = r
  /\ quoteShaped now made.2.
Proof. cbv zeta. repeat split. Qed.










Lemma quoteRoute_frame (st : store) (now : Z) (u : string) (request : QuoteRequest)
    (r : RouteResult.t) (k : string) :
  String.prefix "quote:prov:" k = false ->
  (quoteRoute Math_sqrt st now u request r).1 !! k = st !! k.
Proof.
  intros Hk. destruct (quoteRoute_spec st now u request r) as (-> & _).
  unfold Redis.set_ex, Redis.set_px. apply lookup_insert_ne. intros <-.
  unfold RedisKey.provisionalQuote in Hk.
  change "quote:prov:" with ("quote:prov:" ++ "") in Hk at 1.
  rewrite prefix_app_same, prefix_nil in Hk. discriminate.
Qed.

Lemma pushQuote_frame (now : Z) (uuid : nat -> string) (request : QuoteRequest)
    (routes : list RouteResult.t) (acc : store * list QuoteV2 * nat) (k : string) :
  String.prefix "quote:prov:" k = false ->
  (fold_left (pushQuote Math_sqrt now uuid request) routes acc).1.1 !! k = acc.1.1 !! k.
Proof.
  intros Hk. revert acc. induction routes as [|r routes IH]; intros [[st quotes] n];
    [ reflexivity | ].
  cbn [fold_left]. rewrite IH. unfold pushQuote.
  pose proof (quoteRoute_frame st now (uuid n) request r k Hk) as F.
  destruct (quoteRoute Math_sqrt st now (uuid n) request r). exact F.
Qed.









Lemma fallbackLoop_none
    (search : OtcRoutingService.BestRouteRequest -> option RouteResult.t)
    (request : QuoteRequest) (mids : list string) (fallbacks : list RouteResult.t) :
  (forall mid, search (fallbackRequest request mid) = None) ->
  fallbackLoop search request mids fallbacks = fallbacks.
Proof.
  intros Hnone. induction mids as [|mid mids IH]; cbn [fallbackLoop]; [ reflexivity | ].
  rewrite Hnone. now destruct (_ || _).
Qed.

(** X30.  [getQuotesV2] only adds provisional quotes.  A call that returns
    leaves every key outside the [quote:prov:] family as it was: cached venue
    quotes, reservations, deposits and executions are not touched.  When the
    cache holds no live entry, the call returns an empty list of quotes,
    which is not an error, and the store is unchanged. *)
Theorem getQuotesV2_store (st : store) (now : Z) (uuid : nat -> string)
    (request : QuoteRequest) (st' : store) (quotes : list QuoteV2) :
  getQuotesV2 Math_sqrt st now uuid request = Ok (st', quotes) ->
  (forall k, String.prefix "quote:prov:" k = false -> st' !! k = st !! k)
  /\ (allExpired st now = true -> st' = st /\ quotes = []).
Proof.
  unfold getQuotesV2.
  destruct (negb (Js.truthy (amountIn request)) || Js.le (amountIn request) 0);
    [ discriminate | ].
  destruct (isEmpty (fromToken request) || isEmpty (toToken request)); [ discriminate | ].
  cbv zeta. intros Hrun. split.
  - intros k Hk. revert Hrun.
    set (primary := match OtcRoutingService.route _ with
                    | Some r => pushQuote Math_sqrt now uuid request (st, [], 0%nat) r
                    | None => (st, [], 0%nat)
                    end).
    assert (Hprimary : primary.1.1 !! k = st !! k).
    { subst primary. destruct (OtcRoutingService.route _) as [r|]; [ | reflexivity ].
      apply (pushQuote_frame now uuid request [r] (st, [], 0%nat) k Hk). }
    pose proof (pushQuote_frame now uuid request
                  (firstn 2 (getFallbackRoutes (undisturbed primary.1.1 now) request))
                  primary k Hk) as F.
    destruct (fold_left _ _ primary) as [[st2 unsorted] n]. cbn [fst] in F.
    intros [= <- _]. congruence.
  - intros Hexpired. revert Hrun.
    rewrite (getBestRoute_nothing_live st now _ Hexpired). cbn [OtcRoutingService.route fst].
    unfold getFallbackRoutes. rewrite fallbackLoop_none.
    + cbn. intros [= <- <-]. auto.
    + intros mid. unfold undisturbed.
      now rewrite (getBestRoute_nothing_live st now _ Hexpired).
Qed.

End QuoteEndpointProps.



(** ** Fallback routes *)

Section FallbackRoutes.

Import OtcRoutingService.

Lemma getBestRoute_dominates (st : store) (now : Z) (req : BestRouteRequest)
    (c : RouteResult.t) :
  In c (candidates st now req) ->
  exists best,
    route (getBestRoute st now req) = Some best
    /\ (RouteResult.totalOut c <= RouteResult.totalOut best)%Q.
Proof.
  rewrite getBestRoute_route. destruct (candidates st now req) as [|c0 l]; [ intros [] | ].
  cbn [fold_left updateBest].
  destruct (updateBest_fold l c0) as (best & Hbest & _ & Hfirst & Hall).
  intros [<-|Hc]; exists best; auto.
Qed.

(** The candidates of a fallback request: the routes over its intermediary
    and the direct routes. *)
Lemma fallback_candidates (st : store) (now : Z) (request : QuoteEndpoint.QuoteRequest) (mid : string)
    (r : RouteResult.t) :
  In r (candidates st now (QuoteEndpoint.fallbackRequest request mid)) ->
  let guard := now + QuoteEndpoint.minExpiryOf request in
  (isEndpoint (QuoteEndpoint.fallbackRequest request mid) mid = false
   /\ In r (twoHopRoutes now guard (QuoteEndpoint.amountIn request)
              (loadQuotes st now (QuoteEndpoint.fromToken request) mid)
              (loadQuotes st now mid (QuoteEndpoint.toToken request))))
  \/ In r (oneHopRoutes now guard (QuoteEndpoint.amountIn request)
             (loadQuotes st now (QuoteEndpoint.fromToken request)
                (QuoteEndpoint.toToken request))).
Proof.
  unfold candidates, twoHopResults, threeHopResults, expiryGuardOf, commonIntermediaries.
  cbn [QuoteEndpoint.fallbackRequest intermediates minExpiryMs amountIn fromToken toToken firstn
       List.filter flat_map].
  destruct (isEndpoint _ mid) eqn:Hend; cbn [negb List.map flat_map app fst snd].
  - intros H. now right.
  - rewrite String.eqb_refl, orb_true_r. cbn [app].
    rewrite app_nil_r, in_app_iff. intros [H|H]; [ left | right ]; auto.
Qed.

Lemma fallback_steps (st : store) (now : Z) (request : QuoteEndpoint.QuoteRequest) (mid : string)
    (r : RouteResult.t) :
  In r (candidates st now (QuoteEndpoint.fallbackRequest request mid)) ->
  (1 <= length (RouteResult.steps r) <= 2)%nat.
Proof.
  intros H. apply fallback_candidates in H. cbv zeta in H.
  destruct H as [[_ H]|H].
  - apply twoHopRoutes_steps in H as (q1 & q2 & m & out & _ & _ & ->). cbn. lia.
  - apply oneHopRoutes_steps in H as (q & out & _ & ->). cbn. lia.
Qed.

(** With the default intermediaries, the primary search sees every
    candidate of the fallback searches over USDC, USDT and EURC. *)
Lemma fallback_in_primary (st : store) (now : Z) (request : QuoteEndpoint.QuoteRequest) (mid : string)
    (r : RouteResult.t) :
  usesDefaults request = true ->
  In mid ["USDC"; "USDT"; "EURC"] ->
  In r (candidates st now (QuoteEndpoint.fallbackRequest request mid)) ->
  In r (candidates st now (primaryRequest request)).
Proof.
  intros Hdefault Hmid H. apply fallback_candidates in H. cbv zeta in H.
  unfold candidates, expiryGuardOf.
  cbn [primaryRequest minExpiryMs amountIn fromToken toToken].
  rewrite !in_app_iff. destruct H as [[Hend H]|H]; [ left | right; right; exact H ].
  rewrite in_flat_map.
  exists (loadQuotes st now (QuoteEndpoint.fromToken request) mid,
          loadQuotes st now mid (QuoteEndpoint.toToken request)).
  split; [ | exact H ].
  unfold twoHopResults. rewrite in_map_iff. exists mid. split; [ reflexivity | ].
  apply filter_In. split.
  - unfold commonIntermediaries. cbn [primaryRequest intermediates].
    unfold usesDefaults in Hdefault.
    destruct (QuoteEndpoint.intermediates request) as [[|? ?]|];
      [ exact Hmid | discriminate | exact Hmid ].
  - unfold isEndpoint in *. cbn [primaryRequest QuoteEndpoint.fallbackRequest fromToken toToken] in *.
    now rewrite Hend.
Qed.

Lemma fallbackLoop_spec (search : BestRouteRequest -> option RouteResult.t)
    (request : QuoteEndpoint.QuoteRequest)
    (P : RouteResult.t -> Prop) (mids : list string) :
  (forall mid r, In mid mids ->
                 mid <> QuoteEndpoint.fromToken request ->
                 mid <> QuoteEndpoint.toToken request ->
                 search (QuoteEndpoint.fallbackRequest request mid) = Some r ->
                 P r) ->
  forall fallbacks,
    (length fallbacks < 2)%nat -> Forall P fallbacks ->
    (length (QuoteEndpoint.fallbackLoop search request mids fallbacks) <= 2)%nat
    /\ Forall P (QuoteEndpoint.fallbackLoop search request mids fallbacks).
Proof.
  induction mids as [|mid mids IH]; intros HP fallbacks Hlen Hall; cbn [QuoteEndpoint.fallbackLoop].
  - split; [ lia | exact Hall ].
  - assert (HP' : forall mid' r, In mid' mids ->
                    mid' <> QuoteEndpoint.fromToken request ->
                    mid' <> QuoteEndpoint.toToken request ->
                    search (QuoteEndpoint.fallbackRequest request mid') = Some r ->
                    P r)
      by (intros mid' r Hin; apply HP; now right).
    destruct (String.eqb mid (QuoteEndpoint.fromToken request)
              || String.eqb mid (QuoteEndpoint.toToken request)) eqn:Hend;
      [ now apply IH | ].
    apply orb_false_iff in Hend as [Hfrom Hto].
    apply String.eqb_neq in Hfrom, Hto.
    destruct (search (QuoteEndpoint.fallbackRequest request mid)) as [r|] eqn:Hr;
      [ | now apply IH ].
    cbv zeta.
    assert (Hall' : Forall P (fallbacks ++ [r])).
    { apply Forall_app. split; [ exact Hall | ].
      apply Forall_cons_2; [ | apply Forall_nil_2 ].
      apply (HP mid r); auto. now left. }
    destruct (2 <=? length (fallbacks ++ [r]))%nat eqn:Hfull.
    + split; [ | exact Hall' ]. rewrite length_app. cbn. lia.
    + apply Nat.leb_gt in Hfull. now apply IH.
Qed.

(** X29.  The fallback routes.  Whatever the routing service answers,
    [getFallbackRoutes] returns at most two routes, and each is the answer
    to the search for one of the intermediaries USDC, USDT, EURC, EUR that is
    neither the source nor the destination token.  When no other call
    overlapped that search, made in the cache [st] at the instant [now], the
    fallback has one or two steps (it may be a direct route); and when
    moreover the request names no intermediaries and the fallback was found
    over USDC, USDT or EURC, it never yields more than the primary route that
    a search which no other call overlaps finds in the same cache at the same
    instant, and that route exists. *)
Theorem getFallbackRoutes_bounded (search : BestRouteRequest -> option RouteResult.t)
    (request : QuoteEndpoint.QuoteRequest) :
  (length (QuoteEndpoint.getFallbackRoutes search request) <= 2)%nat
  /\ Forall (fun r =>
       exists mid,
         fallbackVia search request mid r
         /\ forall (st : store) (now : Z) (field : option RouteResult.t),
              search (QuoteEndpoint.fallbackRequest request mid)
              = alone field (actions st now (QuoteEndpoint.fallbackRequest request mid)) ->
              (1 <= length (RouteResult.steps r) <= 2)%nat
              /\ (usesDefaults request = true -> mid <> "EUR" ->
                  forall field' : option RouteResult.t,
                  exists primary,
                    alone field' (actions st now (primaryRequest request)) = Some primary
                    /\ (RouteResult.totalOut r <= RouteResult.totalOut primary)%Q))
     (QuoteEndpoint.getFallbackRoutes search request).
Proof.
  unfold QuoteEndpoint.getFallbackRoutes.
  apply fallbackLoop_spec; [ | cbn; lia | apply Forall_nil_2 ].
  intros mid r Hmid Hfrom Hto Hr. exists mid. split; [ repeat split; assumption | ].
  intros st now field Halone. rewrite Hr in Halone. symmetry in Halone.
  apply alone_is_candidate in Halone.
  split; [ now apply (fallback_steps st now request mid) | ].
  intros Hdefault Heur field'. rewrite alone_actions, <- getBestRoute_route.
  apply getBestRoute_dominates, (fallback_in_primary st now request mid); auto.
  destruct Hmid as [<-|[<-|[<-|[<-|[]]]]]; cbn; auto; congruence.
Qed.

End FallbackRoutes.

Lemma getQuotesV2_store_witness :
  length QuoteRun.result.2 = 3%nat
  /\ forall k, String.prefix "quote:prov:" k = false ->
               QuoteRun.result.1 !! k = prefetch QuoteSample.batches !! k.
Proof.
  split; [ vm_compute; reflexivity | ].
  apply (getQuotesV2_store ScoringSample.sqrt6 (prefetch QuoteSample.batches) 10
           QuoteSample.uuid QuoteSample.request QuoteRun.result.1 QuoteRun.result.2).
  vm_compute. reflexivity.
Defined.
